(** * Interactive selection of block instances in the DXF viewer

    A shallow embedding of the two classes that implement selection:

    - [BoundingBoxManager]: the registry of one flat proxy mesh per entity,
      with the three shared materials (default, selected, hover);
    - [Select]: the pointer and keyboard controller that owns the set of
      selected entity ids and emits the "select" event.

    JavaScript objects that are shared and mutated in place (meshes, [Set]
    objects) live in explicit stores and are addressed by reference.  The
    suspension points of the [async] methods are made explicit: a handler
    runs up to its first [await] and leaves a pending continuation, which a
    later step resumes with the result of the ray cast. *)

From Stdlib Require Import QArith Qminmax Qabs.
From stdpp Require Import gmap strings list fin_maps.
Close Scope Q_scope.

(** ** JavaScript numbers

    Coordinates, sizes and angles are JavaScript numbers.  The embedding is
    parametric in their interpretation: the operations the two classes use
    are the fields of [Number].  No law is assumed about them. *)

Class Number := {
  num : Type;
  js_of_Z : Z → num;                (* integer literals *)
  js_add : num → num → num;
  js_sub : num → num → num;
  js_mul : num → num → num;
  js_div : num → num → num;
  js_neg : num → num;
  js_min : num → num → num;         (* Math.min *)
  js_max : num → num → num;         (* Math.max *)
  js_abs : num → num;               (* Math.abs *)
  js_le : num → num → bool;         (* <= *)
  js_truthy : num → bool;           (* neither 0 nor NaN *)
  js_cos : num → num;               (* Math.cos *)
  js_sin : num → num;               (* Math.sin *)
  degToRad : num → num              (* THREE.MathUtils.degToRad *)
}.

(** [a ?? b] on an optional number. *)
Definition nullish {A} (a : option A) (b : A) : A :=
  match a with Some v => v | None => b end.

(** ** The parts of three.js the two classes touch *)

Section Three.
Context `{Number}.

Record Vector2 := { v2_x : num; v2_y : num }.
Record Vector3 := { v_x : num; v_y : num; v_z : num }.

(** [Vector2.rotateAround(center, angle)] with [center = (0, 0)]. *)
Definition rotateAround0 (v : Vector2) (angle : num) : Vector2 :=
  let c := js_cos angle in
  let s := js_sin angle in
  {| v2_x := js_sub (js_mul (v2_x v) c) (js_mul (v2_y v) s);
     v2_y := js_add (js_mul (v2_x v) s) (js_mul (v2_y v) c) |}.

(** [THREE.Box3]: an axis-aligned box given by two corners. *)
Record Box3 := { box_min : Vector3; box_max : Vector3 }.

(** [Box3.containsBox(box)]: all six faces of [box] lie inside [this]. *)
Definition containsBox (this box : Box3) : bool :=
  js_le (v_x (box_min this)) (v_x (box_min box)) &&
  js_le (v_x (box_max box)) (v_x (box_max this)) &&
  js_le (v_y (box_min this)) (v_y (box_min box)) &&
  js_le (v_y (box_max box)) (v_y (box_max this)) &&
  js_le (v_z (box_min this)) (v_z (box_min box)) &&
  js_le (v_z (box_max box)) (v_z (box_max this)).

(** [Box3.intersectsBox(box)]: the alternative left commented out in
    [_performBoxSelection]; the boxes overlap on every axis. *)
Definition intersectsBox (this box : Box3) : bool :=
  negb (negb (js_le (v_x (box_min this)) (v_x (box_max box))) ||
        negb (js_le (v_x (box_min box)) (v_x (box_max this))) ||
        negb (js_le (v_y (box_min this)) (v_y (box_max box))) ||
        negb (js_le (v_y (box_min box)) (v_y (box_max this))) ||
        negb (js_le (v_z (box_min this)) (v_z (box_max box))) ||
        negb (js_le (v_z (box_min box)) (v_z (box_max this)))).

Definition v3_min (a b : Vector3) : Vector3 :=
  {| v_x := js_min (v_x a) (v_x b); v_y := js_min (v_y a) (v_y b);
     v_z := js_min (v_z a) (v_z b) |}.
Definition v3_max (a b : Vector3) : Vector3 :=
  {| v_x := js_max (v_x a) (v_x b); v_y := js_max (v_y a) (v_y b);
     v_z := js_max (v_z a) (v_z b) |}.

(** [Box3.setFromPoints(points)] for a list that is not empty: the box is
    grown from the first point, which is what growing the empty box
    (+Infinity, -Infinity) by every point gives. *)
Definition setFromPoints (p : Vector3) (points : list Vector3) : Box3 :=
  foldl (λ b q, {| box_min := v3_min (box_min b) q;
                   box_max := v3_max (box_max b) q |})
        {| box_min := p; box_max := p |} points.

(** The three shared materials of the manager.  A mesh holds a reference
    to one of them. *)
Inductive Material := material_default | material_selected | material_hover.

Global Instance Material_eq_dec : EqDecision Material.
Proof. solve_decision. Defined.

Record MeshBasicMaterial := {
  color : Z;
  transparent : bool;
  opacity : Q;
  depthTest : bool;
  material_visible : bool
}.

(** The object literal [this.materials] of the constructor. *)
Definition materials (m : Material) : MeshBasicMaterial :=
  match m with
  | material_default =>
      {| color := 0x000000; transparent := true; opacity := 0%Q;
         depthTest := false; material_visible := false |}
  | material_selected =>
      {| color := 0x0088ff; transparent := true; opacity := (2 # 10)%Q;
         depthTest := false; material_visible := true |}
  | material_hover =>
      {| color := 0xff8800; transparent := true; opacity := (15 # 100)%Q;
         depthTest := false; material_visible := true |}
  end.

(** A [THREE.Mesh] over the shared unit plane geometry. *)
Record Mesh := {
  mesh_name : string;
  material : Material;
  visible : bool;
  scale : Vector3;
  rotation_z : num;
  position : Vector3;
  entityUUID : string              (* userData.entityUUID *)
}.

(** [new THREE.Mesh(geometry, material)]: three.js creates every
    [Object3D] with [visible = true], unit scale and no rotation, at the
    origin; [userData] is empty. *)
Definition new_Mesh (mat : Material) : Mesh :=
  {| mesh_name := "";
     material := mat;
     visible := true;
     scale := {| v_x := js_of_Z 1; v_y := js_of_Z 1; v_z := js_of_Z 1 |};
     rotation_z := js_of_Z 0;
     position := {| v_x := js_of_Z 0; v_y := js_of_Z 0; v_z := js_of_Z 0 |};
     entityUUID := "" |}.

(** What the renderer draws: three.js skips an object whose [visible] is
    false and a mesh whose material's [visible] is false. *)
Definition rendered (m : Mesh) : bool :=
  visible m && material_visible (materials (material m)).

(** The camera is owned by the viewer; the controller reads its kind and
    un-projects points through it. *)
Inductive CameraKind := OrthographicCamera | PerspectiveCamera | OtherCamera.

Record Camera := {
  camera_kind : CameraKind;
  unproject : Vector3 → Vector3    (* Vector3.unproject(camera) *)
}.
End Three.

(** [Box3.setFromObject(mesh)], the world-space axis-aligned box of a mesh,
  is computed by three.js from the mesh's world matrix. *)
Class WorldBox `{Number} := { setFromObject : Mesh → Box3 }.

(** ** BoundingBoxManager *)

Module BoundingBoxManager.
Section Manager.
Context `{Number}.

(** The entity record handed to the manager ([uuid] and [name] are empty
    when the property is missing). *)
Record Entity := {
  uuid : string;
  name : string;
  e_position : num * num * option num;
  xScale : option num;
  yScale : option num;
  rotation : option num            (* degrees *)
}.

Record BoundingBoxDef := {
  width : num;
  height : num;
  def_x : num;                     (* local centre *)
  def_y : num
}.

(** The manager.  [heap] holds the mesh objects; the map, the list and the
    scene hold references into it. *)
Record t := {
  heap : gmap nat Mesh;
  meshMap : gmap string nat;
  boundingBoxMeshList : list nat;
  scene : list nat;                (* the meshes among scene.children *)
  geometry_disposed : bool;
  materials_disposed : bool
}.

(** [constructor(scene)] on a scene without proxies. *)
Definition new : t :=
  {| heap := ∅; meshMap := ∅; boundingBoxMeshList := []; scene := [];
     geometry_disposed := false; materials_disposed := false |}.

Definition falsy_opt (o : option num) : bool :=
  match o with Some r => negb (js_truthy r) | None => true end.

(** The mesh [createBoundingBox] builds before it registers it. *)
Definition build_mesh (entity : Entity) (boundingBoxDef : BoundingBoxDef) : Mesh :=
  let mesh := new_Mesh material_default in
  let mesh_name' := "bbox_" +:+ (if String.eqb (name entity) "" then uuid entity
                                 else name entity) in
  let scaleX := js_mul (width boundingBoxDef) (nullish (xScale entity) (js_of_Z 1)) in
  let scaleY := js_mul (height boundingBoxDef) (nullish (yScale entity) (js_of_Z 1)) in
  let rotation_z' :=
    if falsy_opt (rotation entity) then rotation_z mesh
    else degToRad (nullish (rotation entity) (js_of_Z 0)) in
  let localCenter :=
    {| v2_x := def_x boundingBoxDef; v2_y := def_y boundingBoxDef |} in
  let localCenter :=
    if falsy_opt (rotation entity) then localCenter
    else rotateAround0 localCenter
           (degToRad (nullish (rotation entity) (js_of_Z 0))) in
  let localCenter :=
    {| v2_x := js_mul (v2_x localCenter) (nullish (xScale entity) (js_of_Z 1));
       v2_y := js_mul (v2_y localCenter) (nullish (yScale entity) (js_of_Z 1)) |} in
  let '(px, py, pz) := e_position entity in
  {| mesh_name := mesh_name';
     material := material mesh;
     visible := visible mesh;
     scale := {| v_x := scaleX; v_y := scaleY; v_z := js_of_Z 1 |};
     rotation_z := rotation_z';
     position := {| v_x := js_add px (v2_x localCenter);
                    v_y := js_add py (v2_y localCenter);
                    v_z := nullish pz (js_of_Z 0) |};
     entityUUID := uuid entity |}.

(** [createBoundingBox(entity, boundingBoxDef)]: the handle of the new
    mesh, or [None] (null) when data is missing. *)
Definition createBoundingBox (entity : option Entity)
    (boundingBoxDef : option BoundingBoxDef) (this : t) : option nat * t :=
  match boundingBoxDef, entity with
  | Some def, Some e =>
      if String.eqb (uuid e) "" then (None, this)
      else
        let r := fresh (dom (heap this)) in
        (Some r,
         {| heap := <[r := build_mesh e def]> (heap this);
            meshMap := <[uuid e := r]> (meshMap this);
            boundingBoxMeshList := boundingBoxMeshList this ++ [r];
            scene := scene this ++ [r];
            geometry_disposed := geometry_disposed this;
            materials_disposed := materials_disposed this |})
  | _, _ => (None, this)
  end.

(** The [state] argument of [setVisualState]; a missing property is
    [false]. *)
Record VisualState := { selected : bool; hovered : bool }.

Definition restyle (state : VisualState) (mesh : Mesh) : Mesh :=
  let '(mat, vis) :=
    if selected state then (material_selected, true)
    else if hovered state then (material_hover, true)
    else (material_default, false) in
  {| mesh_name := mesh_name mesh; material := mat; visible := vis;
     scale := scale mesh; rotation_z := rotation_z mesh;
     position := position mesh; entityUUID := entityUUID mesh |}.

(** [setVisualState(entityUUID, state)]. *)
Definition setVisualState (entityUUID : string) (state : VisualState) (this : t) : t :=
  match meshMap this !! entityUUID with
  | None => this
  | Some r =>
      {| heap := alter (restyle state) r (heap this);
         meshMap := meshMap this;
         boundingBoxMeshList := boundingBoxMeshList this;
         scene := scene this;
         geometry_disposed := geometry_disposed this;
         materials_disposed := materials_disposed this |}
  end.

(** [getMesh(entityUUID)]: the handle, and the object behind it. *)
Definition getMesh (entityUUID : string) (this : t) : option nat :=
  meshMap this !! entityUUID.

Definition deref (r : nat) (this : t) : option Mesh := heap this !! r.

(** [dispose()]: the meshes removed from the scene are the values of
    [meshMap]. *)
Definition dispose (this : t) : t :=
  let removed := (map_to_list (meshMap this)).*2 in
  {| heap := heap this;
     meshMap := ∅;
     boundingBoxMeshList := [];
     scene := filter (λ r, r ∉ removed) (scene this);
     geometry_disposed := true;
     materials_disposed := true |}.

(** The entity ids of the meshes enumerated by a list of handles. *)
Definition uuids_of (rs : list nat) (this : t) : list string :=
  omap (λ r, entityUUID <$> deref r this) rs.

(** What holds of every manager built by [createBoundingBox] and
  [setVisualState]: each listed handle is a mesh with an id that is not
  empty and is a key of [meshMap]. *)
Definition wf (this : t) : Prop :=
  ∀ r, r ∈ boundingBoxMeshList this →
     ∃ mesh, deref r this = Some mesh ∧ entityUUID mesh ≠ "" ∧
             is_Some (meshMap this !! entityUUID mesh).
End Manager.
End BoundingBoxManager.

(** ** JavaScript [Set] of strings

    A [Set] iterates in insertion order and holds each element once: its
    contents are a list without repetition. *)

Definition Set_has (x : string) (s : list string) : bool := bool_decide (x ∈ s).
Definition Set_add (x : string) (s : list string) : list string :=
  if Set_has x s then s else s ++ [x].
Definition Set_delete (x : string) (s : list string) : list string :=
  filter (λ y, y ≠ x) s.
(** [new Set(iterable)]: the elements of the iterable, added one by one. *)
Definition Set_from (xs : list string) : list string :=
  foldl (λ s x, Set_add x s) [] xs.

(** ** Select *)

Module Select.
Section Controller.
Context `{Number} `{!WorldBox}.

Record Container := {
  rect_left : num;                   (* getBoundingClientRect() *)
  rect_top : num;
  clientWidth : num;
  clientHeight : num;
  parent_left : num;                 (* parentNode.getBoundingClientRect() *)
  parent_top : num
}.

Inductive Target := target_container | target_other.

Record PointerEvent := {
  button : Z;
  target : option Target;
  clientX : num;
  clientY : num;
  ctrlKey : bool;
  metaKey : bool
}.

Record KeyboardEvent := {
  key : string;
  k_ctrlKey : bool;
  k_metaKey : bool
}.

(** The value of [hoveredEntityUUID]: [null] after construction and
    disposal, otherwise what the last hit test gave, which is [undefined]
    when nothing was hit. *)
Inductive Hovered := js_null | js_undefined | js_uuid (u : string).

(** The rubber-band [div]. *)
Record Overlay := { o_left : num; o_top : num; o_width : num; o_height : num }.

(** The controller.  [sets] is the store of [Set] objects, which holds the
    controller's own set at [selectedEntities] and the sets handed to the
    subscribers.  [triggered] lists the calls of [this.trigger] in order.
    [materials_default_visible] is the truth value of
    [this.materials?.default?.visible]: the class assigns no [materials]
    property. *)
Record t := {
  container : Container;
  camera : Camera;
  boundingBoxManager : BoundingBoxManager.t;
  sets : gmap nat (list string);
  selectedEntities : nat;
  hoveredEntityUUID : Hovered;
  _isMouseDown : bool;
  _isDragging : bool;
  _startPoint : num * num;
  _selectionBoxElement : option Overlay;
  pointer : num * num;
  materials_default_visible : bool;
  listening : bool;
  triggered : list (string * nat)
}.

(** *** Field updates *)

Definition with_manager (b : BoundingBoxManager.t) (s : t) : t :=
  {| container := container s; camera := camera s; boundingBoxManager := b;
     sets := sets s; selectedEntities := selectedEntities s;
     hoveredEntityUUID := hoveredEntityUUID s; _isMouseDown := _isMouseDown s;
     _isDragging := _isDragging s; _startPoint := _startPoint s;
     _selectionBoxElement := _selectionBoxElement s; pointer := pointer s;
     materials_default_visible := materials_default_visible s;
     listening := listening s; triggered := triggered s |}.

Definition with_sets (m : gmap nat (list string)) (s : t) : t :=
  {| container := container s; camera := camera s;
     boundingBoxManager := boundingBoxManager s;
     sets := m; selectedEntities := selectedEntities s;
     hoveredEntityUUID := hoveredEntityUUID s; _isMouseDown := _isMouseDown s;
     _isDragging := _isDragging s; _startPoint := _startPoint s;
     _selectionBoxElement := _selectionBoxElement s; pointer := pointer s;
     materials_default_visible := materials_default_visible s;
     listening := listening s; triggered := triggered s |}.

Definition with_hovered (h : Hovered) (s : t) : t :=
  {| container := container s; camera := camera s;
     boundingBoxManager := boundingBoxManager s;
     sets := sets s; selectedEntities := selectedEntities s;
     hoveredEntityUUID := h; _isMouseDown := _isMouseDown s;
     _isDragging := _isDragging s; _startPoint := _startPoint s;
     _selectionBoxElement := _selectionBoxElement s; pointer := pointer s;
     materials_default_visible := materials_default_visible s;
     listening := listening s; triggered := triggered s |}.

(** The pending-interaction state: pressed, dragging, press origin. *)
Definition with_pending (down dragging : bool) (start : num * num) (s : t) : t :=
  {| container := container s; camera := camera s;
     boundingBoxManager := boundingBoxManager s;
     sets := sets s; selectedEntities := selectedEntities s;
     hoveredEntityUUID := hoveredEntityUUID s; _isMouseDown := down;
     _isDragging := dragging; _startPoint := start;
     _selectionBoxElement := _selectionBoxElement s; pointer := pointer s;
     materials_default_visible := materials_default_visible s;
     listening := listening s; triggered := triggered s |}.

Definition with_overlay (o : option Overlay) (s : t) : t :=
  {| container := container s; camera := camera s;
     boundingBoxManager := boundingBoxManager s;
     sets := sets s; selectedEntities := selectedEntities s;
     hoveredEntityUUID := hoveredEntityUUID s; _isMouseDown := _isMouseDown s;
     _isDragging := _isDragging s; _startPoint := _startPoint s;
     _selectionBoxElement := o; pointer := pointer s;
     materials_default_visible := materials_default_visible s;
     listening := listening s; triggered := triggered s |}.

Definition with_pointer (p : num * num) (s : t) : t :=
  {| container := container s; camera := camera s;
     boundingBoxManager := boundingBoxManager s;
     sets := sets s; selectedEntities := selectedEntities s;
     hoveredEntityUUID := hoveredEntityUUID s; _isMouseDown := _isMouseDown s;
     _isDragging := _isDragging s; _startPoint := _startPoint s;
     _selectionBoxElement := _selectionBoxElement s; pointer := p;
     materials_default_visible := materials_default_visible s;
     listening := listening s; triggered := triggered s |}.

Definition with_listening (l : bool) (s : t) : t :=
  {| container := container s; camera := camera s;
     boundingBoxManager := boundingBoxManager s;
     sets := sets s; selectedEntities := selectedEntities s;
     hoveredEntityUUID := hoveredEntityUUID s; _isMouseDown := _isMouseDown s;
     _isDragging := _isDragging s; _startPoint := _startPoint s;
     _selectionBoxElement := _selectionBoxElement s; pointer := pointer s;
     materials_default_visible := materials_default_visible s;
     listening := l; triggered := triggered s |}.

Definition with_triggered (e : list (string * nat)) (s : t) : t :=
  {| container := container s; camera := camera s;
     boundingBoxManager := boundingBoxManager s;
     sets := sets s; selectedEntities := selectedEntities s;
     hoveredEntityUUID := hoveredEntityUUID s; _isMouseDown := _isMouseDown s;
     _isDragging := _isDragging s; _startPoint := _startPoint s;
     _selectionBoxElement := _selectionBoxElement s; pointer := pointer s;
     materials_default_visible := materials_default_visible s;
     listening := listening s; triggered := e |}.

(** *** The store of [Set] objects *)

(** The contents of the [Set] behind a reference. *)
Definition contents (r : nat) (s : t) : list string := default [] (sets s !! r).

(** The contents of [this.selectedEntities]. *)
Definition selection (s : t) : list string := contents (selectedEntities s) s.

(** An in-place update of a [Set] object. *)
Definition mutate (r : nat) (f : list string → list string) (s : t) : t :=
  with_sets (<[r := f (contents r s)]> (sets s)) s.

(** [new Set(iterable)]: a fresh object. *)
Definition new_Set (xs : list string) (s : t) : nat * t :=
  let r := fresh (dom (sets s)) in
  (r, with_sets (<[r := Set_from xs]> (sets s)) s).

(** Modelled from the spec: [trigger] is a method of the base class
    (tools/raycaster), which is not among the sources.  By the notification
    contract a call emits one event of the given name that carries the
    payload to the subscribers; the calls are recorded in order. *)
Definition trigger (name : string) (payload : nat) (s : t) : t :=
  with_triggered (triggered s ++ [(name, payload)]) s.

(** [constructor(container, camera, boundingBoxManager)]. *)
Definition new (c : Container) (cam : Camera) (b : BoundingBoxManager.t) : t :=
  {| container := c; camera := cam; boundingBoxManager := b;
     sets := {[ 0 := [] ]}; selectedEntities := 0;
     hoveredEntityUUID := js_null;
     _isMouseDown := false; _isDragging := false;
     _startPoint := (js_of_Z 0, js_of_Z 0);
     _selectionBoxElement := None;
     pointer := (js_of_Z 0, js_of_Z 0);
     materials_default_visible := false;
     listening := true; triggered := [] |}.

(** *** Selection operations *)

(** [select(entityUUID)]. *)
Definition select (entityUUID : string) (this : t) : t :=
  if String.eqb entityUUID "" || Set_has entityUUID (selection this) then this
  else
    let this := mutate (selectedEntities this) (Set_add entityUUID) this in
    with_manager
      (BoundingBoxManager.setVisualState entityUUID
         {| BoundingBoxManager.selected := true;
            BoundingBoxManager.hovered := false |}
         (boundingBoxManager this)) this.

(** [this.hoveredEntityUUID === entityUUID] for a string [entityUUID]. *)
Definition hovered_is (h : Hovered) (entityUUID : string) : bool :=
  match h with js_uuid u => String.eqb u entityUUID | _ => false end.

(** [deselect(entityUUID)]. *)
Definition deselect (entityUUID : string) (this : t) : t :=
  if String.eqb entityUUID "" || negb (Set_has entityUUID (selection this)) then this
  else
    let this := mutate (selectedEntities this) (Set_delete entityUUID) this in
    let isHovered := hovered_is (hoveredEntityUUID this) entityUUID in
    with_manager
      (BoundingBoxManager.setVisualState entityUUID
         {| BoundingBoxManager.selected := false;
            BoundingBoxManager.hovered := isHovered |}
         (boundingBoxManager this)) this.

(** [deselectAll()]: iterates over a copy of the set. *)
Definition deselectAll (this : t) : t :=
  let currentSelection := Set_from (selection this) in
  foldl (λ this uuid, deselect uuid this) this currentSelection.

(** [selectAll()]: every mesh of the manager's list whose id is truthy. *)
Definition selectAll (this : t) : t :=
  foldl (λ this r,
           match BoundingBoxManager.deref r (boundingBoxManager this) with
           | Some mesh =>
               if String.eqb (entityUUID mesh) "" then this
               else select (entityUUID mesh) this
           | None => this
           end)
        this (BoundingBoxManager.boundingBoxMeshList (boundingBoxManager this)).

(** [isSelected(entityUUID)]. *)
Definition isSelected (entityUUID : string) (this : t) : bool :=
  Set_has entityUUID (selection this).

(** [_performSingleClickSelection(clickedUUID, isMultiSelect)]. *)
Definition _performSingleClickSelection (clickedUUID : string)
    (isMultiSelect : bool) (this : t) : t :=
  let isSelected := Set_has clickedUUID (selection this) in
  if isMultiSelect then
    if isSelected then deselect clickedUUID this else select clickedUUID this
  else
    let previouslySelected := Set_from (selection this) in
    let this := deselectAll this in
    if negb ((length previouslySelected =? 1) && isSelected)
    then select clickedUUID this
    else this.

(** *** Box selection *)

(** Screen coordinates to normalised device coordinates. *)
Definition toNDC (p : num * num) (this : t) : num * num :=
  (js_sub (js_mul (js_div (fst p) (clientWidth (container this))) (js_of_Z 2))
          (js_of_Z 1),
   js_add (js_mul (js_neg (js_div (snd p) (clientHeight (container this))))
                  (js_of_Z 2))
          (js_of_Z 1)).

(** [_get3DSelectionBox(screenStart, screenEnd)]: the box around the eight
    un-projected corners, or [None] (null) for a camera that is neither
    orthographic nor perspective. *)
Definition _get3DSelectionBox (screenStart screenEnd : num * num) (this : t)
    : option Box3 :=
  let startNDC := toNDC screenStart this in
  let endNDC := toNDC screenEnd this in
  let near := js_of_Z (-1) in
  let far := js_of_Z 1 in
  let p0 := {| v_x := fst startNDC; v_y := snd startNDC; v_z := near |} in
  let points :=
    [ {| v_x := fst startNDC; v_y := snd endNDC; v_z := near |};
      {| v_x := fst endNDC; v_y := snd endNDC; v_z := near |};
      {| v_x := fst endNDC; v_y := snd startNDC; v_z := near |};
      {| v_x := fst startNDC; v_y := snd startNDC; v_z := far |};
      {| v_x := fst startNDC; v_y := snd endNDC; v_z := far |};
      {| v_x := fst endNDC; v_y := snd endNDC; v_z := far |};
      {| v_x := fst endNDC; v_y := snd startNDC; v_z := far |} ] in
  match camera_kind (camera this) with
  | OrthographicCamera | PerspectiveCamera =>
      let u := unproject (camera this) in
      Some (setFromPoints (u p0) (u <$> points))
  | OtherCamera => None
  end.

(** The loop of [_performBoxSelection]: the set [entitiesInBox]. *)
Definition entitiesInBox (selectionBox3D : Box3) (this : t) : list string :=
  foldl (λ acc r,
           match BoundingBoxManager.deref r (boundingBoxManager this) with
           | Some mesh =>
               if negb (visible mesh) && negb (materials_default_visible this)
               then acc
               else
                 let meshBox := setFromObject mesh in
                 if containsBox selectionBox3D meshBox then
                   if String.eqb (entityUUID mesh) "" then acc
                   else Set_add (entityUUID mesh) acc
                 else acc
           | None => acc
           end)
        [] (BoundingBoxManager.boundingBoxMeshList (boundingBoxManager this)).

(** [_performBoxSelection(screenStart, screenEnd, isMultiSelect)]. *)
Definition _performBoxSelection (screenStart screenEnd : num * num)
    (isMultiSelect : bool) (this : t) : t :=
  match _get3DSelectionBox screenStart screenEnd this with
  | None => this
  | Some selectionBox3D =>
      let inBox := entitiesInBox selectionBox3D this in
      if negb isMultiSelect then
        foldl (λ this uuid, select uuid this) (deselectAll this) inBox
      else
        foldl (λ this uuid, select uuid this) this inBox
  end.

(** *** The rubber band *)

(** [_drawSelectionBox(start, end)]. *)
Definition _drawSelectionBox (start end_ : num * num) (this : t) : t :=
  let c := container this in
  with_overlay
    (Some {| o_left := js_sub (js_add (js_min (fst start) (fst end_)) (rect_left c))
                              (parent_left c);
             o_top := js_sub (js_add (js_min (snd start) (snd end_)) (rect_top c))
                             (parent_top c);
             o_width := js_abs (js_sub (fst end_) (fst start));
             o_height := js_abs (js_sub (snd end_) (snd start)) |})
    this.

(** [_removeSelectionBox()]. *)
Definition _removeSelectionBox (this : t) : t := with_overlay None this.

(** *** Ray casting and hover

    [_getIntersectedObject] and [_updateHover] are [async]: each runs up to
    the [await] of the ray cast and is resumed with its result, the handle
    of the frontmost object or [None]. *)

Definition local_point (event : PointerEvent) (this : t) : num * num :=
  (js_sub (clientX event) (rect_left (container this)),
   js_sub (clientY event) (rect_top (container this))).

(** [_getIntersectedObject(event)] up to the ray cast: the pointer is set
    unless the event has no target. *)
Definition _getIntersectedObject_begin (event : PointerEvent) (this : t) : t :=
  match target event with
  | None => this
  | Some _ => with_pointer (toNDC (local_point event this) this) this
  end.

(** [_getIntersectedObject(event)] from the ray cast on: only a mesh whose
    id is a key of [meshMap] is returned. *)
Definition _getIntersectedObject_resume (event : PointerEvent)
    (intersected : option nat) (this : t) : option nat :=
  match target event with
  | None => None
  | Some _ =>
      r ← intersected;
      mesh ← BoundingBoxManager.deref r (boundingBoxManager this);
      if bool_decide (is_Some (BoundingBoxManager.meshMap (boundingBoxManager this)
                                 !! entityUUID mesh))
      then Some r else None
  end.

(** [intersectedMesh?.userData?.entityUUID]; [None] is [undefined]. *)
Definition uuid_of (intersectedMesh : option nat) (this : t) : option string :=
  r ← intersectedMesh;
  entityUUID <$> BoundingBoxManager.deref r (boundingBoxManager this).

(** A suspended [async] method: the arguments its continuation has
    captured. *)
Inductive Await :=
  | await_click (event : PointerEvent) (isMultiSelect : bool)
  | await_hover (event : PointerEvent).

(** [_updateHover(event)] up to the [await]. *)
Definition _updateHover (event : PointerEvent) (this : t) : t * list Await :=
  (_getIntersectedObject_begin event this, [await_hover event]).

Definition hovered_eq (h : Hovered) (hoveredUUID : option string) : bool :=
  match h, hoveredUUID with
  | js_undefined, None => true
  | js_uuid u, Some v => String.eqb u v
  | _, _ => false
  end.

Definition truthy_selected_not (h : Hovered) (this : t) : option string :=
  match h with
  | js_uuid u =>
      if negb (String.eqb u "") && negb (Set_has u (selection this))
      then Some u else None
  | _ => None
  end.

(** [_updateHover(event)] from the [await] on. *)
Definition _updateHover_resume (event : PointerEvent) (intersected : option nat)
    (this : t) : t :=
  let intersectedMesh := _getIntersectedObject_resume event intersected this in
  let hoveredUUID := uuid_of intersectedMesh this in
  if hovered_eq (hoveredEntityUUID this) hoveredUUID then this
  else
    let this :=
      match truthy_selected_not (hoveredEntityUUID this) this with
      | Some u =>
          with_manager
            (BoundingBoxManager.setVisualState u
               {| BoundingBoxManager.selected := false;
                  BoundingBoxManager.hovered := false |}
               (boundingBoxManager this)) this
      | None => this
      end in
    let this :=
      with_hovered (match hoveredUUID with Some u => js_uuid u | None => js_undefined end)
                   this in
    match truthy_selected_not (hoveredEntityUUID this) this with
    | Some u =>
        with_manager
          (BoundingBoxManager.setVisualState u
             {| BoundingBoxManager.selected := false;
                BoundingBoxManager.hovered := true |}
             (boundingBoxManager this)) this
    | None => this
    end.

(** *** Pointer handlers *)

(** [_onPointerDown(event)]. *)
Definition _onPointerDown (event : PointerEvent) (this : t) : t :=
  if negb (button event =? 0)%Z ||
     negb (match target event with Some target_container => true | _ => false end)
  then this
  else with_pending true false (local_point event this) this.

(** [_onPointerMove(event)]. *)
Definition _onPointerMove (event : PointerEvent) (this : t) : t * list Await :=
  if negb (_isMouseDown this) then _updateHover event this
  else
    let this := with_pending (_isMouseDown this) true (_startPoint this) this in
    (_drawSelectionBox (_startPoint this) (local_point event this) this, []).

(** The end of [_onPointerUp]: the hover update is started, then the event
    is triggered with a copy of the selection. *)
Definition _onPointerUp_finish (event : PointerEvent) (this : t) : t * list Await :=
  let '(this, aw) := _updateHover event this in
  let '(copy, this) := new_Set (selection this) this in
  (trigger "select" copy this, aw).

(** [_onPointerUp(event)] up to its first [await]: a drag is resolved at
    once, a click waits for the ray cast. *)
Definition _onPointerUp (event : PointerEvent) (this : t) : t * list Await :=
  if negb (_isMouseDown this) || negb (button event =? 0)%Z then (this, [])
  else
    let isMultiSelect := ctrlKey event || metaKey event in
    let wasDragging := _isDragging this in
    let this := with_pending false false (_startPoint this) this in
    let this := _removeSelectionBox this in
    if wasDragging then
      let endPoint := local_point event this in
      let this := _performBoxSelection (_startPoint this) endPoint isMultiSelect this in
      _onPointerUp_finish event this
    else
      (_getIntersectedObject_begin event this, [await_click event isMultiSelect]).

(** [_onPointerUp(event)] from the [await] of the ray cast on. *)
Definition _onPointerUp_resume (event : PointerEvent) (isMultiSelect : bool)
    (intersected : option nat) (this : t) : t * list Await :=
  let intersectedMesh := _getIntersectedObject_resume event intersected this in
  let clickedUUID := uuid_of intersectedMesh this in
  let this :=
    match clickedUUID with
    | Some u =>
        if negb (String.eqb u "") then _performSingleClickSelection u isMultiSelect this
        else if negb isMultiSelect then deselectAll this else this
    | None => if negb isMultiSelect then deselectAll this else this
    end in
  _onPointerUp_finish event this.

(** *** Keyboard *)

(** [_onKeyDown(event)]; the boolean tells whether [preventDefault] was
    called. *)
Definition _onKeyDown (event : KeyboardEvent) (this : t) : t * bool :=
  if String.eqb (key event) "Escape" then
    let this := deselectAll this in
    let '(empty, this) := new_Set [] this in
    (trigger "select" empty this, false)
  else if String.eqb (key event) "a" && (k_ctrlKey event || k_metaKey event) then
    let this := selectAll this in
    let '(copy, this) := new_Set (selection this) this in
    (trigger "select" copy this, true)
  else (this, false).

(** [_onKeyUp(event)] does nothing. *)
Definition _onKeyUp (event : KeyboardEvent) (this : t) : t := this.

(** [dispose()]: the set is cleared in place. *)
Definition dispose (this : t) : t :=
  let this := with_listening false this in
  let this := _removeSelectionBox this in
  let this := mutate (selectedEntities this) (λ _, []) this in
  with_hovered js_null this.

(** *** The event loop

    The controller runs on one thread.  What reaches it is an input event, a
    call of its public interface by the host, or the result of a ray cast
    that one of the suspended methods waits for. *)

(** Modelled from the spec: the ray caster behind [this.raycast.raycast] is
    set up by the base class (tools/raycaster), which is not among the
    sources.  By the spec it answers asynchronously with the frontmost
    volume or with nothing, and further input may be processed before an
    answer arrives; [Resolve k intersected] is the arrival of the answer
    [intersected] for the [k]-th suspended method. *)
Inductive Input :=
  | PointerDown (event : PointerEvent)
  | PointerMove (event : PointerEvent)
  | PointerUp (event : PointerEvent)
  | KeyDown (event : KeyboardEvent)
  | KeyUp (event : KeyboardEvent)
  | Call_select (entityUUID : string)
  | Call_deselect (entityUUID : string)
  | Call_deselectAll
  | Call_selectAll
  | Call_dispose
  | Resolve (k : nat) (intersected : option nat).

Record World := { controller : t; awaiting : list Await }.

(** The continuation of a suspended method. *)
Definition resume (a : Await) (intersected : option nat) (this : t) : t * list Await :=
  match a with
  | await_click event isMultiSelect =>
      _onPointerUp_resume event isMultiSelect intersected this
  | await_hover event => (_updateHover_resume event intersected this, [])
  end.

Definition deliver (i : Input) (w : World) : World :=
  let this := controller w in
  match i with
  | PointerDown event =>
      {| controller := _onPointerDown event this; awaiting := awaiting w |}
  | PointerMove event =>
      let '(this, aw) := _onPointerMove event this in
      {| controller := this; awaiting := awaiting w ++ aw |}
  | PointerUp event =>
      let '(this, aw) := _onPointerUp event this in
      {| controller := this; awaiting := awaiting w ++ aw |}
  | KeyDown event =>
      {| controller := fst (_onKeyDown event this); awaiting := awaiting w |}
  | KeyUp event =>
      {| controller := _onKeyUp event this; awaiting := awaiting w |}
  | Call_select entityUUID =>
      {| controller := select entityUUID this; awaiting := awaiting w |}
  | Call_deselect entityUUID =>
      {| controller := deselect entityUUID this; awaiting := awaiting w |}
  | Call_deselectAll =>
      {| controller := deselectAll this; awaiting := awaiting w |}
  | Call_selectAll =>
      {| controller := selectAll this; awaiting := awaiting w |}
  | Call_dispose =>
      {| controller := dispose this; awaiting := awaiting w |}
  | Resolve k intersected =>
      match awaiting w !! k with
      | None => w
      | Some a =>
          let '(this, aw) := resume a intersected this in
          {| controller := this; awaiting := delete k (awaiting w) ++ aw |}
      end
  end.

(** The inputs that come through the listeners [dispose] removes. *)
Definition dom_event (i : Input) : bool :=
  match i with
  | PointerDown _ | PointerMove _ | PointerUp _ | KeyDown _ | KeyUp _ => true
  | _ => false
  end.

Definition heard (i : Input) (w : World) : bool :=
  negb (dom_event i) || listening (controller w).

(** One turn of the event loop. *)
Definition step (i : Input) (w : World) : World :=
  if heard i w then deliver i w else w.

Definition run (inputs : list Input) (w : World) : World :=
  foldl (λ w i, step i w) w inputs.

(** The world right after construction. *)
Definition start (c : Container) (cam : Camera) (b : BoundingBoxManager.t) : World :=
  {| controller := new c cam b; awaiting := [] |}.

(** *** Well-formed states and kinds of steps *)

(** What holds of every controller the constructor and the methods produce:
    the controller's set is an object of the store, holds each id once, and
    never holds the empty id. *)
Definition wf (this : t) : Prop :=
  selectedEntities this ∈ dom (sets this) ∧
  NoDup (selection this) ∧
  "" ∉ selection this.

(** [this'] differs from [this] at most in the store of sets and in the
    meshes of the manager, which is all that the selection operations
    write. *)
Definition selection_frame (this this' : t) : Prop :=
  this' = with_manager (boundingBoxManager this') (with_sets (sets this') this).

(** The steps that resolve a click or a box selection: the release that
    ends a drag, and the arrival of the ray cast a click waits for. *)
Definition resolves_selection (i : Input) (w : World) : bool :=
  heard i w &&
  match i with
  | PointerUp event =>
      _isMouseDown (controller w) && (button event =? 0)%Z &&
      _isDragging (controller w)
  | Resolve k _ =>
      match awaiting w !! k with Some (await_click _ _) => true | _ => false end
  | _ => false
  end.

(** The steps that belong to a hover update: a move with the button up,
    which starts one, and the arrival of the ray cast it waits for. *)
Definition hover_update (i : Input) (w : World) : bool :=
  heard i w &&
  match i with
  | PointerMove _ => negb (_isMouseDown (controller w))
  | Resolve k _ =>
      match awaiting w !! k with Some (await_hover _) => true | _ => false end
  | _ => false
  end.

(** The steps that may assign [hoveredEntityUUID]. *)
Definition assigns_hovered (i : Input) (w : World) : bool :=
  match i with
  | Call_dispose => true
  | Resolve k _ =>
      match awaiting w !! k with Some (await_hover _) => true | _ => false end
  | _ => false
  end.

End Controller.
End Select.

(** ** An interpretation of numbers, and two scenes

    Rational numbers, on which the comparisons and the arithmetic of the
    scenes below are exact.  The entities of the scenes are not rotated, so
    the trigonometric functions are never applied; they are interpreted at
    the angle zero. *)

Definition QNumber : Number :=
  {| num := Q;
     js_of_Z := inject_Z;
     js_add := Qplus; js_sub := Qminus; js_mul := Qmult; js_div := Qdiv;
     js_neg := Qopp; js_min := Qmin; js_max := Qmax; js_abs := Qabs;
     js_le := Qle_bool;
     js_truthy := λ q, negb (Qeq_bool q 0);
     js_cos := λ _, 1%Q; js_sin := λ _, 0%Q;
     degToRad := λ q, (q * (355 # 113) / 180)%Q |}.

Module Scene.
#[local] Existing Instance QNumber.

(** The world box of a mesh that is not rotated: the unit plane scaled and
    moved to the mesh's position. *)
Definition QWorldBox : WorldBox :=
  {| setFromObject := λ mesh,
       let hx := (v_x (scale mesh) / 2)%Q in
       let hy := (v_y (scale mesh) / 2)%Q in
       let p := position mesh in
       {| box_min := {| v_x := (v_x p - hx)%Q; v_y := (v_y p - hy)%Q;
                        v_z := v_z p |};
          box_max := {| v_x := (v_x p + hx)%Q; v_y := (v_y p + hy)%Q;
                        v_z := v_z p |} |} |}.
#[local] Existing Instance QWorldBox.

(** A block instance of 2 by 2 units centred at (x, y). *)
Definition entity (id : string) (x y : Z) : BoundingBoxManager.Entity :=
  {| BoundingBoxManager.uuid := id; BoundingBoxManager.name := "";
     BoundingBoxManager.e_position := (inject_Z x, inject_Z y, None);
     BoundingBoxManager.xScale := None; BoundingBoxManager.yScale := None;
     BoundingBoxManager.rotation := None |}.

Definition bounds (w h : Z) : BoundingBoxManager.BoundingBoxDef :=
  {| BoundingBoxManager.width := inject_Z w; BoundingBoxManager.height := inject_Z h;
     BoundingBoxManager.def_x := 0%Q; BoundingBoxManager.def_y := 0%Q |}.

Definition register (id : string) (x y : Z) (b : BoundingBoxManager.t)
    : BoundingBoxManager.t :=
  snd (BoundingBoxManager.createBoundingBox (Some (entity id x y)) (Some (bounds 2 2)) b).

(** A canvas of 200 by 200 pixels at the top left of its parent, seen by an
    orthographic camera that shows the square from -20 to 20. *)
Definition canvas : Select.Container :=
  {| Select.rect_left := 0%Q; Select.rect_top := 0%Q;
     Select.clientWidth := 200%Q; Select.clientHeight := 200%Q;
     Select.parent_left := 0%Q; Select.parent_top := 0%Q |}.

Definition ortho : Camera :=
  {| camera_kind := OrthographicCamera;
     unproject := λ v, {| v_x := (v_x v * 20)%Q; v_y := (v_y v * 20)%Q;
                          v_z := (v_z v * 100)%Q |} |}.

(** Entities A, B and C. *)
Definition abc : BoundingBoxManager.t :=
  register "C" 0 5 (register "B" 10 0 (register "A" 0 0 BoundingBoxManager.new)).

(** The same id registered twice, at two places. *)
Definition twice : BoundingBoxManager.t :=
  register "e1" 10 0 (register "e1" 0 0 BoundingBoxManager.new).

Definition at_ (x y : Z) (ctrl : bool) : Select.PointerEvent :=
  {| Select.button := 0; Select.target := Some Select.target_container;
     Select.clientX := inject_Z x; Select.clientY := inject_Z y;
     Select.ctrlKey := ctrl; Select.metaKey := false |}.

Definition key_ (k : string) (ctrl : bool) : Select.KeyboardEvent :=
  {| Select.key := k; Select.k_ctrlKey := ctrl; Select.k_metaKey := false |}.

(** The handles of A, B and C in [abc]. *)
Definition hA : nat := 0.
Definition hB : nat := 1.
Definition hC : nat := 2.

(** A controller on [abc], and the world it starts in. *)
Definition st0 : Select.t := Select.new canvas ortho abc.
Definition w0 : Select.World := Select.start canvas ortho abc.

(** A controller in which A is selected. *)
Definition stA : Select.t := Select.select "A" st0.

(** A rubber band from (90, 110) to (150, 65): in the world, from -2 to 10
    across and from -2 to 7 upwards. *)
Definition drag_start : num * num := (inject_Z 90, inject_Z 110).
Definition drag_end : num * num := (inject_Z 150, inject_Z 65).
Definition drag : list Select.Input :=
  [Select.PointerDown (at_ 90 110 false); Select.PointerMove (at_ 120 90 false);
   Select.PointerUp (at_ 150 65 false)].

(** A click whose ray cast has not come back yet. *)
Definition click_waiting : Select.World :=
  Select.run [Select.PointerDown (at_ 100 100 false);
              Select.PointerUp (at_ 100 100 false)] w0.

End Scene.

(** ** DxfViewer: from the document to the registry

    The three methods of the viewer that feed the manager: the bounds of the
    block definitions, the INSERT entities of the document, and the loop
    that registers one volume for each of them. *)

Module DxfViewer.
Section Viewer.
Context `{Number}.

(** An entity inside a block definition: its vertices, when it has any. *)
Record BlockEntity := { vertices : option (list (num * num)) }.

(** A block definition of the parsed document. *)
Record BlockDef := { entities : option (list BlockEntity) }.

(** A top-level entity of the parsed document ([ent_name] and [handle] are
    empty when the property is missing). *)
Record DxfEntity := {
  type : string;
  ent_name : string;                 (* the block an INSERT instantiates *)
  handle : string;
  ent_position : num * num * option num;
  ent_xScale : option num;
  ent_yScale : option num;
  ent_rotation : option num;
  layer : string
}.

(** The bounds of a block definition: lower corner and size. *)
Record DefinitionBounds := {
  bounds_x : num; bounds_y : num; bounds_width : num; bounds_height : num
}.

(** The running [minX, minY, maxX, maxY]; [None] while [hasVertices] is
    false, when the four hold plus and minus Infinity, so that the first
    vertex replaces them. *)
Definition grow (acc : option (num * num * num * num)) (v : num * num)
    : option (num * num * num * num) :=
  match acc with
  | None => Some (fst v, snd v, fst v, snd v)
  | Some (minX, minY, maxX, maxY) =>
      Some (js_min minX (fst v), js_min minY (snd v),
            js_max maxX (fst v), js_max maxY (snd v))
  end.

(** The two nested loops of [_calculateBlockDefinitionBounds] over one block
    definition, and the bounds stored when a vertex was seen. *)
Definition definition_bounds (blockDef : BlockDef) : option DefinitionBounds :=
  let acc :=
    foldl (λ acc entity, foldl grow acc (nullish (vertices entity) []))
          None (nullish (entities blockDef) []) in
  match acc with
  | None => None
  | Some (minX, minY, maxX, maxY) =>
      Some {| bounds_x := minX; bounds_y := minY;
              bounds_width := js_sub maxX minX;
              bounds_height := js_sub maxY minY |}
  end.

(** [_calculateBlockDefinitionBounds(dxf)]: the new contents of
    [blockBoundingBoxMap], from [dxf.blocks] when the document has them. *)
Definition _calculateBlockDefinitionBounds (blocks : option (gmap string BlockDef))
    : gmap string DefinitionBounds :=
  match blocks with
  | None => ∅
  | Some blocks => omap definition_bounds blocks
  end.

(** [_collectBlockEntities(dxf)]: the new contents of [allBlockEntity], from
    [dxf.entities] when the document has them. *)
Definition _collectBlockEntities (dxf_entities : option (list DxfEntity))
    : list DxfEntity :=
  match dxf_entities with
  | None => []
  | Some es => filter (λ entity, type entity = "INSERT") es
  end.

(** The part of the viewer the loop reads and writes.  [generateUUID] stands
    for [THREE.MathUtils.generateUUID], which draws a new identifier at each
    call; [generated] counts the calls. *)
Record t := {
  boundingBoxManager : option BoundingBoxManager.t;
  origin : option (num * num);
  blockBoundingBoxMap : gmap string DefinitionBounds;
  allBlockEntity : list DxfEntity;
  generateUUID : nat → string;
  generated : nat
}.

(** One turn of the loop of [_setupAllBoundingBoxMeshes]. *)
Definition setup_one (blockBoundingBoxMap : gmap string DefinitionBounds)
    (origin : num * num) (generateUUID : nat → string)
    (acc : BoundingBoxManager.t * nat) (entity : DxfEntity)
    : BoundingBoxManager.t * nat :=
  let '(manager, generated) := acc in
  match blockBoundingBoxMap !! ent_name entity with
  | None => acc
  | Some definitionBounds =>
      let '(px, py, pz) := ent_position entity in
      let finalWorldPos :=
        (js_sub px (fst origin), js_sub py (snd origin),
         Some (nullish pz (js_of_Z 0))) in
      let boundingBoxDef :=
        {| BoundingBoxManager.width := bounds_width definitionBounds;
           BoundingBoxManager.height := bounds_height definitionBounds;
           BoundingBoxManager.def_x :=
             js_add (bounds_x definitionBounds)
                    (js_div (bounds_width definitionBounds) (js_of_Z 2));
           BoundingBoxManager.def_y :=
             js_add (bounds_y definitionBounds)
                    (js_div (bounds_height definitionBounds) (js_of_Z 2)) |} in
      let '(uuid, generated) :=
        if String.eqb (handle entity) "" then (generateUUID generated, S generated)
        else (handle entity, generated) in
      let entityData :=
        {| BoundingBoxManager.uuid := uuid;
           BoundingBoxManager.name := ent_name entity;
           BoundingBoxManager.e_position := finalWorldPos;
           BoundingBoxManager.xScale := Some (nullish (ent_xScale entity) (js_of_Z 1));
           BoundingBoxManager.yScale := Some (nullish (ent_yScale entity) (js_of_Z 1));
           BoundingBoxManager.rotation :=
             Some (nullish (ent_rotation entity) (js_of_Z 0)) |} in
      ((BoundingBoxManager.createBoundingBox (Some entityData) (Some boundingBoxDef)
          manager).2,
       generated)
  end.

(** [_setupAllBoundingBoxMeshes()]. *)
Definition _setupAllBoundingBoxMeshes (this : t) : t :=
  match boundingBoxManager this, origin this with
  | Some manager, Some o =>
      let '(manager, generated) :=
        foldl (setup_one (blockBoundingBoxMap this) o (generateUUID this))
              (manager, generated this) (allBlockEntity this) in
      {| boundingBoxManager := Some manager; origin := origin this;
         blockBoundingBoxMap := blockBoundingBoxMap this;
         allBlockEntity := allBlockEntity this;
         generateUUID := generateUUID this; generated := generated |}
  | _, _ => this
  end.

(** The steps 1, 2, 6 and 7 of [Load]: the two globals are filled from the
    document, a manager is created and the volumes are set up. *)
Definition load_volumes (blocks : option (gmap string BlockDef))
    (dxf_entities : option (list DxfEntity)) (o : option (num * num))
    (gen : nat → string) : t :=
  _setupAllBoundingBoxMeshes
    {| boundingBoxManager := Some BoundingBoxManager.new; origin := o;
       blockBoundingBoxMap := _calculateBlockDefinitionBounds blocks;
       allBlockEntity := _collectBlockEntities dxf_entities;
       generateUUID := gen; generated := 0 |}.

(** The INSERT entities that get a volume: those whose block has bounds. *)
Definition with_bounds (m : gmap string DefinitionBounds) (es : list DxfEntity)
    : list DxfEntity :=
  filter (λ entity, is_Some (m !! ent_name entity)) es.

(** *** Layers *)

(** An object of the scene, as a layer sees it: [visible] and
    [userData?.entityUUID], [None] when there is none. *)
Record Object3D := { obj_visible : bool; obj_entityUUID : option string }.

(** [Layer]: the flag and the objects pushed by [_LoadBatch]. *)
Record Layer := { layer_visible : bool; objects : list Object3D }.

(** [this.selectedEntities?.has(id) || this.hoveredEntityUUID === id] in
    [ShowLayer], where [this] is the viewer: it has neither property, the
    selection and the hovered id being the controller's.  The left operand
    is undefined, the right one compares undefined with [id]. *)
Definition highlighted (id : option string) : bool :=
  match id with
  | None => true
  | Some _ => false
  end.

(** [bbox.visible = v] *)
Definition set_visible (r : nat) (v : bool) (manager : BoundingBoxManager.t)
    : BoundingBoxManager.t :=
  {| BoundingBoxManager.heap :=
       alter (λ mesh, {| mesh_name := mesh_name mesh; material := material mesh;
                         visible := v; scale := scale mesh;
                         rotation_z := rotation_z mesh; position := position mesh;
                         entityUUID := entityUUID mesh |})
             r (BoundingBoxManager.heap manager);
     BoundingBoxManager.meshMap := BoundingBoxManager.meshMap manager;
     BoundingBoxManager.boundingBoxMeshList :=
       BoundingBoxManager.boundingBoxMeshList manager;
     BoundingBoxManager.scene := BoundingBoxManager.scene manager;
     BoundingBoxManager.geometry_disposed :=
       BoundingBoxManager.geometry_disposed manager;
     BoundingBoxManager.materials_disposed :=
       BoundingBoxManager.materials_disposed manager |}.

(** The part of the loop of [ShowLayer] on the volumes.  The map of the
    manager has no undefined key ([createBoundingBox] refuses a missing
    id), so that [getMesh(undefined)] finds nothing. *)
Definition show_volume (show : bool) (manager : BoundingBoxManager.t)
    (obj : Object3D) : BoundingBoxManager.t :=
  match obj_entityUUID obj ≫= (λ id, BoundingBoxManager.getMesh id manager) with
  | None => manager
  | Some bbox => set_visible bbox (show && highlighted (obj_entityUUID obj)) manager
  end.

(** [ShowLayer(name, show)] on the layers and on the manager, which may be
    null. *)
Definition ShowLayer (name : string) (show : bool)
    (layers : gmap string Layer) (manager : option BoundingBoxManager.t)
    : gmap string Layer * option BoundingBoxManager.t :=
  match layers !! name with
  | None => (layers, manager)
  | Some layer =>
      (<[name := {| layer_visible := show;
                    objects := (λ obj, {| obj_visible := show;
                                          obj_entityUUID := obj_entityUUID obj |})
                                 <$> objects layer |}]> layers,
       (λ manager, foldl (show_volume show) manager (objects layer)) <$> manager)
  end.
End Viewer.
End DxfViewer.

(** ** A small drawing

    Two block definitions, of which only the door has geometry, inserted
    once each, and a line. *)

Module Drawing.
#[local] Existing Instance QNumber.
Import DxfViewer.

Definition door : BlockDef :=
  {| entities := Some [ {| vertices := Some [(0%Q, 0%Q); (2%Q, 0%Q); (2%Q, 4%Q)] |};
                        {| vertices := None |} ] |}.

Definition marker : BlockDef := {| entities := Some [ {| vertices := None |} ] |}.

Definition blocks : gmap string BlockDef :=
  <["door" := door]> (<["marker" := marker]> ∅).

Definition insert (block h : string) (x y : Z) : DxfEntity :=
  {| type := "INSERT"; ent_name := block; handle := h;
     ent_position := (inject_Z x, inject_Z y, None);
     ent_xScale := None; ent_yScale := None; ent_rotation := None;
     layer := "0" |}.

Definition line : DxfEntity :=
  {| type := "LINE"; ent_name := ""; handle := "2C";
     ent_position := (0%Q, 0%Q, None);
     ent_xScale := None; ent_yScale := None; ent_rotation := None;
     layer := "0" |}.

Definition dxf_entities : list DxfEntity :=
  [insert "door" "1A" 10 0; line; insert "marker" "1B" 0 5].

(** The viewer after the steps 1, 2 and 6 of [Load]. *)
Definition before_setup : DxfViewer.t :=
  {| boundingBoxManager := Some BoundingBoxManager.new;
     origin := Some (0%Q, 0%Q);
     blockBoundingBoxMap := _calculateBlockDefinitionBounds (Some blocks);
     allBlockEntity := _collectBlockEntities (Some dxf_entities);
     generateUUID := λ _, "generated"; generated := 0 |}.
End Drawing.

(** ** Invariants of the registry and of the styles *)

Section Notions.
Context `{Number} `{!WorldBox}.

(** The map leads from each id to a mesh that carries this id, and the
    empty id is no key. *)
Definition registry_consistent (b : BoundingBoxManager.t) : Prop :=
  BoundingBoxManager.meshMap b !! "" = None ∧
  ∀ u r, BoundingBoxManager.meshMap b !! u = Some r →
         ∃ mesh, BoundingBoxManager.deref r b = Some mesh ∧ entityUUID mesh = u.

(** One volume per id: the scene and the list hold the same handles, each
    once, and each listed mesh is the one the map gives for its id. *)
Definition registry_tidy (b : BoundingBoxManager.t) : Prop :=
  BoundingBoxManager.scene b = BoundingBoxManager.boundingBoxMeshList b ∧
  NoDup (BoundingBoxManager.boundingBoxMeshList b) ∧
  (∀ r, r ∈ BoundingBoxManager.boundingBoxMeshList b →
        ∃ mesh, BoundingBoxManager.deref r b = Some mesh ∧ entityUUID mesh ≠ "" ∧
                BoundingBoxManager.meshMap b !! entityUUID mesh = Some r) ∧
  (∀ u r, BoundingBoxManager.meshMap b !! u = Some r →
          r ∈ BoundingBoxManager.boundingBoxMeshList b).

(** No style has been applied yet. *)
Definition registry_pristine (b : BoundingBoxManager.t) : Prop :=
  ∀ r mesh, BoundingBoxManager.deref r b = Some mesh →
            material mesh = material_default.

(** What is left of a mesh when its style is ignored. *)
Definition placement (mesh : Mesh) : string * Vector3 * num * Vector3 * string :=
  (mesh_name mesh, scale mesh, rotation_z mesh, position mesh, entityUUID mesh).

(** [b'] is [b] with some meshes restyled. *)
Definition only_restyled (b b' : BoundingBoxManager.t) : Prop :=
  BoundingBoxManager.meshMap b' = BoundingBoxManager.meshMap b ∧
  BoundingBoxManager.boundingBoxMeshList b' = BoundingBoxManager.boundingBoxMeshList b ∧
  BoundingBoxManager.scene b' = BoundingBoxManager.scene b ∧
  ∀ r, placement <$> BoundingBoxManager.deref r b' =
       placement <$> BoundingBoxManager.deref r b.

(** The material a style stands for. *)
Definition material_of (state : BoundingBoxManager.VisualState) : Material :=
  if BoundingBoxManager.selected state then material_selected
  else if BoundingBoxManager.hovered state then material_hover
  else material_default.

(** The material the volume of [u] should have: Selected when [u] is
    selected, else Hovered when [u] is hovered, else Default. *)
Definition expected_material (u : string) (this : Select.t) : Material :=
  if Select.isSelected u this then material_selected
  else if Select.hovered_is (Select.hoveredEntityUUID this) u then material_hover
  else material_default.

(** Every registered volume has the material [f] gives for its id, and is
    flagged visible unless its material is the Default one. *)
Definition styled_by (f : string → Material) (b : BoundingBoxManager.t) : Prop :=
  ∀ u r mesh,
    BoundingBoxManager.meshMap b !! u = Some r →
    BoundingBoxManager.deref r b = Some mesh →
    material mesh = f u ∧ (material mesh ≠ material_default → visible mesh = true).

Definition styled (this : Select.t) : Prop :=
  styled_by (λ u, expected_material u this) (Select.boundingBoxManager this).

(** The hovered id, when it is an id, is registered. *)
Definition hovered_registered (this : Select.t) : Prop :=
  match Select.hoveredEntityUUID this with
  | Select.js_uuid u =>
      is_Some (BoundingBoxManager.meshMap (Select.boundingBoxManager this) !! u)
  | _ => True
  end.

(** Every selected id is registered. *)
Definition selection_registered (this : Select.t) : Prop :=
  ∀ u, u ∈ Select.selection this →
       is_Some (BoundingBoxManager.meshMap (Select.boundingBoxManager this) !! u).

(** [b'] is [b] with some volumes hidden: no mesh changes its material or
    its placement, and none becomes visible. *)
Definition hides (b b' : BoundingBoxManager.t) : Prop :=
  only_restyled b b' ∧
  ∀ r mesh', BoundingBoxManager.deref r b' = Some mesh' →
    ∃ mesh, BoundingBoxManager.deref r b = Some mesh ∧
            material mesh' = material mesh ∧
            (visible mesh' = visible mesh ∨ visible mesh' = false).

(** The pending interaction, with the rubber band. *)
Definition pointer_state (this : Select.t) : bool * bool * option Select.Overlay :=
  (Select._isMouseDown this, Select._isDragging this, Select._selectionBoxElement this).

(** The rubber band is shown, and a drag is under way, only while the button
    is held. *)
Definition pressed_while_dragging (this : Select.t) : Prop :=
  (Select._isDragging this = true ∨ Select._selectionBoxElement this ≠ None) →
  Select._isMouseDown this = true.
End Notions.

(** * Properties *)

(** ** Sets as lists *)

Lemma Set_has_true x s : Set_has x s = true ↔ x ∈ s.
Proof. unfold Set_has. apply bool_decide_eq_true. Qed.

Lemma Set_has_false x s : Set_has x s = false ↔ x ∉ s.
Proof. unfold Set_has. apply bool_decide_eq_false. Qed.

Lemma Set_add_elem x y s : y ∈ Set_add x s ↔ y = x ∨ y ∈ s.
Proof.
  unfold Set_add. destruct (Set_has x s) eqn:E.
  - apply Set_has_true in E. split; [auto | intros [-> | ?]; auto].
  - rewrite elem_of_app, list_elem_of_singleton. tauto.
Qed.

Lemma Set_add_NoDup x s : NoDup s → NoDup (Set_add x s).
Proof.
  intros Hs. unfold Set_add. destruct (Set_has x s) eqn:E; [done |].
  apply Set_has_false in E. apply NoDup_app. split_and!; [done | | apply NoDup_singleton].
  intros y Hy ->%list_elem_of_singleton. done.
Qed.

Lemma Set_delete_elem x y s : y ∈ Set_delete x s ↔ y ≠ x ∧ y ∈ s.
Proof. unfold Set_delete. rewrite list_elem_of_filter. tauto. Qed.

Lemma Set_delete_NoDup x s : NoDup s → NoDup (Set_delete x s).
Proof. apply NoDup_filter. Qed.

Lemma Set_delete_absent x s : x ∉ s → Set_delete x s = s.
Proof.
  intros Hx. unfold Set_delete. induction s as [| y s IH]; [done |].
  rewrite filter_cons. apply not_elem_of_cons in Hx as [Hne Hx].
  destruct (decide (y ≠ x)) as [_ | Hn]; [f_equal; auto |].
  exfalso. apply Hn. congruence.
Qed.

Lemma Set_delete_added x s : x ∉ s → Set_delete x (s ++ [x]) = s.
Proof.
  intros Hx. unfold Set_delete. rewrite filter_app.
  fold (Set_delete x s). rewrite (Set_delete_absent _ _ Hx).
  rewrite filter_cons. destruct (decide (x ≠ x)); [congruence |].
  apply app_nil_r.
Qed.

(** Copying a set gives the same elements in the same order. *)
Lemma Set_from_app acc xs :
  NoDup (acc ++ xs) → foldl (λ s x, Set_add x s) acc xs = acc ++ xs.
Proof.
  revert acc. induction xs as [| x xs IH]; intros acc Hnd; simpl.
  - by rewrite app_nil_r.
  - assert (x ∉ acc) as Hx.
    { apply NoDup_app in Hnd as (_ & Hd & _). intros Hin.
      apply (Hd x Hin). left. }
    unfold Set_add at 2. apply Set_has_false in Hx. rewrite Hx.
    rewrite IH; rewrite <- app_assoc; done.
Qed.

Lemma Set_from_NoDup xs : NoDup xs → Set_from xs = xs.
Proof. intros Hnd. unfold Set_from. by rewrite Set_from_app. Qed.

(** Case analysis on every test, and on every optional value, of the goal. *)
Ltac case_ifs :=
  repeat match goal with |- context [if ?c then _ else _] => destruct c end.
Ltac case_options :=
  repeat match goal with
         | |- context [match ?c with Some _ => _ | None => _ end] => destruct c
         end.

(** Invariants carried through a [forEach]. *)
Lemma foldl_invariant {A B} (P : B → Prop) (f : B → A → B) (l : list A) (b : B) :
  P b → (∀ b a, P b → P (f b a)) → P (foldl f b l).
Proof.
  intros Hb Hf. revert b Hb. induction l as [| a l IH]; intros b Hb; simpl; auto.
Qed.


(** ** The controller's selection set *)

Section SelectionSet.
Context `{Number} `{!WorldBox}.
Import Select.

Lemma contents_mutate_eq r f st : contents r (mutate r f st) = f (contents r st).
Proof. unfold contents, mutate. simpl. by rewrite lookup_insert_eq. Qed.

Lemma contents_mutate_ne r r' f st :
  r ≠ r' → contents r' (mutate r f st) = contents r' st.
Proof. intros. unfold contents, mutate. simpl. by rewrite lookup_insert_ne. Qed.

Lemma selection_with_manager b st : selection (with_manager b st) = selection st.
Proof. done. Qed.

Lemma selection_mutate f st :
  selection (mutate (selectedEntities st) f st) = f (selection st).
Proof. unfold selection at 1. simpl. apply contents_mutate_eq. Qed.

Lemma selection_select id st :
  selection (select id st) =
    if String.eqb id "" || Set_has id (selection st) then selection st
    else selection st ++ [id].
Proof.
  unfold select. destruct (String.eqb id "" || Set_has id (selection st)) eqn:E; [done |].
  cbv zeta. rewrite selection_with_manager, selection_mutate.
  apply orb_false_iff in E as [_ E]. unfold Set_add. by rewrite E.
Qed.

Lemma selection_deselect id st :
  selection (deselect id st) =
    if String.eqb id "" then selection st else Set_delete id (selection st).
Proof.
  unfold deselect. destruct (String.eqb id "") eqn:E; simpl; [done |].
  destruct (Set_has id (selection st)) eqn:E'; simpl.
  - by rewrite selection_with_manager, selection_mutate.
  - apply Set_has_false in E'. by rewrite Set_delete_absent.
Qed.

(** [deselectAll] removes every id but the empty one. *)
Lemma selection_deselect_each xs st y :
  y ∈ selection (foldl (λ this uuid, deselect uuid this) st xs) ↔
    y ∈ selection st ∧ (y = "" ∨ y ∉ xs).
Proof.
  revert st. induction xs as [| x xs IH]; intros st; simpl.
  - split; [intros ? | tauto]. split; [done |]. right. apply not_elem_of_nil.
  - rewrite IH, selection_deselect, not_elem_of_cons.
    destruct (String.eqb x "") eqn:E.
    + apply String.eqb_eq in E as ->.
      destruct (decide (y = "")) as [-> | Hy]; [tauto |]. intuition congruence.
    + apply String.eqb_neq in E. rewrite Set_delete_elem. intuition congruence.
Qed.

Lemma selection_deselectAll st : wf st → selection (deselectAll st) = [].
Proof.
  intros (_ & Hnd & Hne). unfold deselectAll. apply elem_of_nil_inv. intros y.
  rewrite selection_deselect_each, Set_from_NoDup by done.
  intros [Hy [-> | Hn]]; done.
Qed.

(** *** The invariant *)

Lemma wf_new c cam b : wf (new c cam b).
Proof.
  unfold wf, selection, contents. simpl. rewrite dom_singleton_L, lookup_singleton_eq.
  split_and!; [set_solver | apply NoDup_nil_2 | apply not_elem_of_nil].
Qed.

Lemma wf_mutate f st :
  wf st → NoDup (f (selection st)) → "" ∉ f (selection st) →
  wf (mutate (selectedEntities st) f st).
Proof.
  intros (Hd & _ & _) Hnd Hne. unfold wf. rewrite selection_mutate.
  split_and!; [| done | done]. unfold mutate. simpl. rewrite dom_insert_L. set_solver.
Qed.

Lemma wf_with_manager b st : wf st → wf (with_manager b st).
Proof. done. Qed.

Lemma wf_select id st : wf st → wf (select id st).
Proof.
  intros Hwf. unfold select.
  destruct (String.eqb id "" || Set_has id (selection st)) eqn:E; [done |].
  apply orb_false_iff in E as [E1 E2]. apply String.eqb_neq in E1.
  apply wf_with_manager, wf_mutate; [done | |].
  - apply Set_add_NoDup, Hwf.
  - rewrite Set_add_elem. intros [? | ?]; [done |]. by apply Hwf.
Qed.

Lemma wf_deselect id st : wf st → wf (deselect id st).
Proof.
  intros Hwf. unfold deselect.
  destruct (String.eqb id "" || negb (Set_has id (selection st))); [done |].
  apply wf_with_manager, wf_mutate; [done | |].
  - apply Set_delete_NoDup, Hwf.
  - rewrite Set_delete_elem. intros [_ ?]. by apply Hwf.
Qed.

Lemma wf_deselectAll st : wf st → wf (deselectAll st).
Proof.
  intros Hwf. unfold deselectAll. apply foldl_invariant; [done |].
  intros. by apply wf_deselect.
Qed.

Lemma wf_select_each xs st :
  wf st → wf (foldl (λ this uuid, select uuid this) st xs).
Proof. intros Hwf. apply foldl_invariant; [done |]. intros. by apply wf_select. Qed.

Lemma wf_selectAll st : wf st → wf (selectAll st).
Proof.
  intros Hwf. unfold selectAll. apply foldl_invariant; [done |].
  intros st' r Hst'. destruct (BoundingBoxManager.deref r _); [| done].
  destruct (String.eqb _ ""); [done |]. by apply wf_select.
Qed.

Lemma wf_click id multi st : wf st → wf (_performSingleClickSelection id multi st).
Proof.
  intros Hwf. unfold _performSingleClickSelection. destruct multi.
  - destruct (Set_has id (selection st)); [by apply wf_deselect | by apply wf_select].
  - destruct (negb _); [apply wf_select |]; by apply wf_deselectAll.
Qed.

Lemma wf_box p q multi st : wf st → wf (_performBoxSelection p q multi st).
Proof.
  intros Hwf. unfold _performBoxSelection.
  destruct (_get3DSelectionBox p q st); [| done].
  destruct (negb multi); apply wf_select_each; [by apply wf_deselectAll | done].
Qed.

(** Copying the selection for the event leaves the controller's set alone. *)
Lemma new_Set_fresh xs st :
  wf st → (new_Set xs st).1 ≠ selectedEntities st.
Proof.
  intros (Hd & _ & _). unfold new_Set. simpl. intros Heq.
  apply (is_fresh (dom (sets st))). by rewrite Heq.
Qed.

Lemma selection_new_Set xs st :
  wf st → selection (new_Set xs st).2 = selection st.
Proof.
  intros Hwf. pose proof (new_Set_fresh xs st Hwf) as Hne.
  unfold new_Set in *. simpl in *. unfold selection, contents. simpl.
  by rewrite lookup_insert_ne.
Qed.

Lemma contents_new_Set xs st :
  contents (new_Set xs st).1 (new_Set xs st).2 = Set_from xs.
Proof. unfold new_Set, contents. simpl. by rewrite lookup_insert_eq. Qed.

Lemma wf_new_Set xs st : wf st → wf (new_Set xs st).2.
Proof.
  intros Hwf. unfold wf. rewrite selection_new_Set by done.
  destruct Hwf as (Hd & Hnd & Hne). split_and!; [| done | done].
  unfold new_Set. simpl. rewrite dom_insert_L. set_solver.
Qed.

Lemma wf_begin event st : wf st → wf (_getIntersectedObject_begin event st).
Proof. intros Hwf. unfold _getIntersectedObject_begin. by destruct (target event). Qed.

Lemma selection_begin event st :
  selection (_getIntersectedObject_begin event st) = selection st.
Proof. unfold _getIntersectedObject_begin. by destruct (target event). Qed.

Lemma wf_finish event st : wf st → wf (_onPointerUp_finish event st).1.
Proof.
  intros Hwf. unfold _onPointerUp_finish, _updateHover.
  destruct (new_Set _ _) as [copy st'] eqn:E. simpl.
  change st' with (copy, st').2. rewrite <- E.
  apply (wf_new_Set _ _ (wf_begin event st Hwf)).
Qed.

Lemma selection_finish event st :
  wf st → selection (_onPointerUp_finish event st).1 = selection st.
Proof.
  intros Hwf. unfold _onPointerUp_finish, _updateHover.
  destruct (new_Set _ _) as [copy st'] eqn:E. simpl.
  change (selection (trigger "select" copy st')) with (selection (copy, st').2).
  rewrite <- E, selection_new_Set by by apply wf_begin.
  apply selection_begin.
Qed.
End SelectionSet.

(** ** The manager's styles *)

Section Styles.
Context `{Number}.
Import BoundingBoxManager.

Lemma setVisualState_unregistered id state b :
  getMesh id b = None → setVisualState id state b = b.
Proof. unfold getMesh, setVisualState. by intros ->. Qed.

Lemma setVisualState_registered id state b r mesh :
  getMesh id b = Some r → deref r b = Some mesh →
  deref r (setVisualState id state b) = Some (restyle state mesh).
Proof.
  unfold getMesh, setVisualState, deref. intros -> Hm. simpl.
  by rewrite lookup_alter_eq, Hm.
Qed.

Lemma setVisualState_other id state b r r' :
  getMesh id b = Some r → r' ≠ r →
  deref r' (setVisualState id state b) = deref r' b.
Proof.
  unfold getMesh, setVisualState, deref. intros -> Hne. simpl.
  by rewrite lookup_alter_ne.
Qed.

Lemma restyle_selected hov mesh :
  material (restyle {| selected := true; hovered := hov |} mesh) = material_selected ∧
  visible (restyle {| selected := true; hovered := hov |} mesh) = true.
Proof. done. Qed.

Lemma restyle_entityUUID state mesh : entityUUID (restyle state mesh) = entityUUID mesh.
Proof. unfold restyle. by destruct (selected state), (hovered state). Qed.

(** Restyling keeps the ids, the map and the list. *)
Lemma setVisualState_uuid id state b r :
  entityUUID <$> deref r (setVisualState id state b) = entityUUID <$> deref r b.
Proof.
  unfold setVisualState, deref. destruct (meshMap b !! id) as [r0 |]; [| done]. simpl.
  destruct (decide (r = r0)) as [-> | Hne].
  - rewrite lookup_alter_eq. destruct (heap b !! r0); [| done]. simpl.
    by rewrite restyle_entityUUID.
  - by rewrite lookup_alter_ne.
Qed.

Lemma setVisualState_meshMap id state b :
  meshMap (setVisualState id state b) = meshMap b.
Proof. unfold setVisualState. by destruct (meshMap b !! id). Qed.

Lemma setVisualState_list id state b :
  boundingBoxMeshList (setVisualState id state b) = boundingBoxMeshList b.
Proof. unfold setVisualState. by destruct (meshMap b !! id). Qed.
End Styles.

(** ** Clicks and the public selection operations *)

Section Clicks.
Context `{Number} `{!WorldBox}.
Import Select.

Lemma selection_click_replace E st :
  wf st → E ≠ "" →
  selection (_performSingleClickSelection E false st) =
    if decide (selection st = [E]) then [] else [E].
Proof.
  intros Hwf HE. unfold _performSingleClickSelection.
  rewrite (Set_from_NoDup (selection st)) by apply Hwf.
  pose proof (selection_deselectAll st Hwf) as Hnil.
  destruct (decide (selection st = [E])) as [Heq | Hne].
  - rewrite Heq. simpl. unfold Set_has. rewrite bool_decide_eq_true_2 by left. done.
  - assert (negb ((length (selection st) =? 1) && Set_has E (selection st)) = true) as ->.
    { apply negb_true_iff, andb_false_iff.
      destruct (Set_has E (selection st)) eqn:Hhas; [left | by right].
      apply Set_has_true in Hhas. apply Nat.eqb_neq. intros Hlen.
      destruct (selection st) as [| x [| ? ?]]; simplify_eq/=.
      apply list_elem_of_singleton in Hhas as ->. done. }
    rewrite selection_select, Hnil. apply String.eqb_neq in HE. rewrite HE. done.
Qed.

Lemma resume_click_hit event multi intersected st E :
  uuid_of (_getIntersectedObject_resume event intersected st) st = Some E →
  E ≠ "" →
  _onPointerUp_resume event multi intersected st =
    _onPointerUp_finish event (_performSingleClickSelection E multi st).
Proof.
  intros Hhit HE. unfold _onPointerUp_resume. rewrite Hhit.
  apply String.eqb_neq in HE. by rewrite HE.
Qed.

(** C1: a click without the modifier that hits E empties the selection when
    it was exactly {E}, and otherwise makes it exactly {E}; so a click on A
    followed by a click on another entity B leaves {B}. *)
Theorem click_without_modifier_replaces event intersected st E :
  wf st → E ≠ "" →
  uuid_of (_getIntersectedObject_resume event intersected st) st = Some E →
  let st' := (_onPointerUp_resume event false intersected st).1 in
  (selection st = [E] → selection st' = []) ∧
  (selection st ≠ [E] → selection st' = [E]) ∧
  (∀ event' intersected' B,
     B ≠ "" → B ≠ E →
     uuid_of (_getIntersectedObject_resume event' intersected' st') st' = Some B →
     selection (_onPointerUp_resume event' false intersected' st').1 = [B]).
Proof.
  intros Hwf HE Hhit st'. subst st'.
  rewrite (resume_click_hit _ _ _ _ _ Hhit HE).
  pose proof (wf_click E false st Hwf) as Hwf1.
  pose proof (selection_finish event _ Hwf1) as Hsel.
  rewrite selection_click_replace in Hsel by done.
  split_and!.
  - intros Heq. rewrite Hsel. by rewrite decide_True.
  - intros Hne. rewrite Hsel. by rewrite decide_False.
  - intros event' intersected' B HB HBE Hhit'.
    rewrite (resume_click_hit _ _ _ _ _ Hhit' HB).
    rewrite selection_finish by by apply wf_click, wf_finish.
    rewrite selection_click_replace by (by try apply wf_finish).
    rewrite Hsel. destruct (decide (selection st = [E])); by rewrite decide_False by congruence.
Qed.

(** C3, as the code has it: [select] does nothing for an id that is empty
    or already selected; any other id is added to the selection set, and
    its volume is restyled Selected when it has one; without a volume the
    styles stay as they are, the id is added all the same. *)
Theorem select_effect id st :
  (id = "" ∨ id ∈ selection st → select id st = st) ∧
  (id ≠ "" ∧ id ∉ selection st →
   selection (select id st) = selection st ++ [id] ∧
   (∀ r mesh,
      BoundingBoxManager.getMesh id (boundingBoxManager st) = Some r →
      BoundingBoxManager.deref r (boundingBoxManager st) = Some mesh →
      ∃ mesh',
        BoundingBoxManager.deref r (boundingBoxManager (select id st)) = Some mesh' ∧
        material mesh' = material_selected ∧ visible mesh' = true) ∧
   (BoundingBoxManager.getMesh id (boundingBoxManager st) = None →
    boundingBoxManager (select id st) = boundingBoxManager st)).
Proof.
  split.
  - intros Hid. unfold select.
    assert (String.eqb id "" || Set_has id (selection st) = true) as ->; [| done].
    apply orb_true_iff. destruct Hid as [-> | Hin]; [by left | right].
    by apply Set_has_true.
  - intros [Hne Hnin]. rewrite selection_select.
    apply String.eqb_neq in Hne. apply Set_has_false in Hnin.
    unfold select. rewrite Hne, Hnin. simpl. split_and!; [done | |].
    + intros r mesh Hr Hmesh. eexists. split.
      * by apply setVisualState_registered.
      * apply restyle_selected.
    + intros Hnone. by apply setVisualState_unregistered.
Qed.

(** C4, as the code has it: for an id that is not selected, [select] and
    then [deselect] give back the selection set as it was. *)
Theorem select_deselect_roundtrip id st :
  id ∉ selection st →
  selection (deselect id (select id st)) = selection st.
Proof.
  intros Hnin. rewrite selection_deselect, selection_select.
  destruct (String.eqb id "") eqn:E; [done |]. simpl.
  apply Set_has_false in Hnin as Hhas. rewrite Hhas.
  by apply Set_delete_added.
Qed.
End Clicks.

(** ** The registry invariant *)

Section Registry.
Context `{Number}.
Import BoundingBoxManager.

Lemma registry_wf_new : wf new.
Proof. intros r Hr. by apply elem_of_nil in Hr. Qed.

Lemma build_mesh_fields e def :
  entityUUID (build_mesh e def) = uuid e ∧
  material (build_mesh e def) = material_default ∧
  visible (build_mesh e def) = true.
Proof. unfold build_mesh. by destruct (e_position e) as [[px py] pz]. Qed.

(** A successful registration: what [createBoundingBox] returns and
    stores. *)
Lemma createBoundingBox_Some entity def b r :
  (createBoundingBox entity def b).1 = Some r →
  ∃ e d, entity = Some e ∧ def = Some d ∧ uuid e ≠ "" ∧
         r = fresh (dom (heap b)) ∧
         (createBoundingBox entity def b).2 =
           {| heap := <[r := build_mesh e d]> (heap b);
              meshMap := <[uuid e := r]> (meshMap b);
              boundingBoxMeshList := boundingBoxMeshList b ++ [r];
              scene := scene b ++ [r];
              geometry_disposed := geometry_disposed b;
              materials_disposed := materials_disposed b |}.
Proof.
  unfold createBoundingBox. destruct def as [d |], entity as [e |]; try done.
  destruct (String.eqb (uuid e) "") eqn:E; [done |]. simpl. intros [= <-].
  apply String.eqb_neq in E. by exists e, d.
Qed.

Lemma createBoundingBox_None entity def b :
  (createBoundingBox entity def b).1 = None → (createBoundingBox entity def b).2 = b.
Proof.
  unfold createBoundingBox. destruct def as [d |], entity as [e |]; try done.
  by destruct (String.eqb (uuid e) "").
Qed.

Lemma registry_wf_createBoundingBox entity def b :
  wf b → wf (createBoundingBox entity def b).2.
Proof.
  intros Hwf. destruct (createBoundingBox entity def b).1 as [r |] eqn:E.
  - apply createBoundingBox_Some in E as (e & d & -> & -> & Hne & Hr & ->).
    intros r' Hr'. unfold deref. simpl in *.
    apply elem_of_app in Hr' as [Hold | ->%list_elem_of_singleton].
    + destruct (Hwf r' Hold) as (mesh & Hm & Hu & Hk). exists mesh.
      assert (r' ≠ r) as Hfresh.
      { intros ->. apply (is_fresh (dom (heap b))). rewrite <- Hr.
        apply elem_of_dom. by eexists. }
      rewrite lookup_insert_ne by done. split_and!; [done | done |].
      apply lookup_insert_is_Some'. by right.
    + exists (build_mesh e d). rewrite lookup_insert_eq.
      destruct (build_mesh_fields e d) as (-> & _ & _).
      split_and!; [done | done |]. rewrite lookup_insert_eq. by eexists.
  - by rewrite createBoundingBox_None.
Qed.

Lemma registry_wf_setVisualState id state b : wf b → wf (setVisualState id state b).
Proof.
  intros Hwf r Hr. rewrite setVisualState_list in Hr.
  destruct (Hwf r Hr) as (mesh & Hm & Hu & Hk).
  pose proof (setVisualState_uuid id state b r) as Heq. rewrite Hm in Heq.
  destruct (deref r (setVisualState id state b)) as [mesh' |]; [| done].
  simpl in Heq. injection Heq as Heq. exists mesh'. rewrite setVisualState_meshMap, Heq.
  done.
Qed.

Lemma omap_pointwise {A B} (f g : A → option B) (l : list A) :
  (∀ x, x ∈ l → f x = g x) → omap f l = omap g l.
Proof.
  intros Hfg. apply list_omap_ext. induction l as [| x l IH]; constructor.
  - apply Hfg. left.
  - apply IH. intros y Hy. apply Hfg. by right.
Qed.

(** A registration appends one volume to the list, whether the id is new
    or not. *)
Lemma uuids_of_createBoundingBox e d b :
  wf b → uuid e ≠ "" →
  let b' := (createBoundingBox (Some e) (Some d) b).2 in
  uuids_of (boundingBoxMeshList b') b' = uuids_of (boundingBoxMeshList b) b ++ [uuid e].
Proof.
  intros Hwf Hne. unfold createBoundingBox.
  apply String.eqb_neq in Hne as Hne'. rewrite Hne'. simpl.
  unfold uuids_of, deref. simpl. rewrite omap_app. f_equal.
  - apply omap_pointwise. intros r Hr.
    destruct (Hwf r Hr) as (mesh & Hm & _). unfold deref in Hm.
    rewrite lookup_insert_ne; [done |]. intros <-.
    apply (is_fresh (dom (heap b))). apply elem_of_dom. by eexists.
  - simpl. rewrite lookup_insert_eq. simpl.
    by destruct (build_mesh_fields e d) as (-> & _ & _).
Qed.

(** With ids that are pairwise distinct the list keeps one volume per id. *)
Lemma one_volume_per_new_id e d b :
  wf b → uuid e ≠ "" →
  NoDup (uuids_of (boundingBoxMeshList b) b) →
  uuid e ∉ uuids_of (boundingBoxMeshList b) b →
  let b' := (createBoundingBox (Some e) (Some d) b).2 in
  NoDup (uuids_of (boundingBoxMeshList b') b').
Proof.
  intros Hwf Hne Hnd Hnew b'. subst b'. rewrite uuids_of_createBoundingBox by done.
  apply NoDup_app. split_and!; [done | | apply NoDup_singleton].
  intros x Hx ->%list_elem_of_singleton. done.
Qed.

(** With an id that is registered already the list has two. *)
Lemma two_volumes_per_repeated_id e d b :
  wf b → uuid e ≠ "" →
  uuid e ∈ uuids_of (boundingBoxMeshList b) b →
  let b' := (createBoundingBox (Some e) (Some d) b).2 in
  ¬ NoDup (uuids_of (boundingBoxMeshList b') b').
Proof.
  intros Hwf Hne Hold b'. subst b'. rewrite uuids_of_createBoundingBox by done.
  intros (_ & Hdisj & _)%NoDup_app. apply (Hdisj _ Hold). left.
Qed.
End Registry.

(** ** Box selection *)

Section Box.
Context `{Number} `{!WorldBox}.
Import Select.

(** One turn of the loop of [_performBoxSelection]. *)
Lemma entitiesInBox_loop box st (l : list nat) (acc : list string) uuid :
  let F := λ (acc : list string) (r : nat),
    match BoundingBoxManager.deref r (boundingBoxManager st) with
    | Some mesh =>
        if negb (visible mesh) && negb (materials_default_visible st) then acc
        else if containsBox box (setFromObject mesh) then
               if String.eqb (entityUUID mesh) "" then acc
               else Set_add (entityUUID mesh) acc
             else acc
    | None => acc
    end in
  uuid ∈ foldl F acc l ↔
  uuid ∈ acc ∨
  ∃ r mesh, r ∈ l ∧
    BoundingBoxManager.deref r (boundingBoxManager st) = Some mesh ∧
    entityUUID mesh = uuid ∧ uuid ≠ "" ∧
    (visible mesh = true ∨ materials_default_visible st = true) ∧
    containsBox box (setFromObject mesh) = true.
Proof.
  intros F. revert acc. induction l as [| r l IH]; intros acc; simpl.
  - split; [by left |]. intros [? | (r & mesh & Hr & _)]; [done |].
    by apply elem_of_nil in Hr.
  - rewrite IH. clear IH. split.
    + intros [Hacc | (r' & mesh & Hr' & Hrest)].
      * unfold F in Hacc.
        destruct (BoundingBoxManager.deref r _) as [mesh |] eqn:Hm; [| by left].
        destruct (negb (visible mesh) && negb (materials_default_visible st)) eqn:Hv;
          [by left |].
        destruct (containsBox box (setFromObject mesh)) eqn:Hc; [| by left].
        destruct (String.eqb (entityUUID mesh) "") eqn:Hu; [by left |].
        apply Set_add_elem in Hacc as [-> | ?]; [| by left]. right.
        exists r, mesh. apply String.eqb_neq in Hu.
        split_and!; [left | done | done | done | | done].
        apply andb_false_iff in Hv as [Hv | Hv]; apply negb_false_iff in Hv; auto.
      * right. exists r', mesh. split; [by right | done].
    + intros [Hacc | (r' & mesh & Hr' & Hm & Hu & Hne & Hv & Hc)].
      * left. unfold F. destruct (BoundingBoxManager.deref r _) as [mesh |]; [| done].
        case_ifs;
          try done.
        apply Set_add_elem. by right.
      * apply elem_of_cons in Hr' as [-> | Hr'].
        -- left. unfold F. rewrite Hm, Hc.
           assert (negb (visible mesh) && negb (materials_default_visible st) = false)
             as ->.
           { destruct Hv as [-> | ->]; [done | apply andb_false_r]. }
           subst uuid. apply String.eqb_neq in Hne. rewrite Hne.
           apply Set_add_elem. by left.
        -- right. by exists r', mesh.
Qed.

(** The candidate set, whatever [this.materials] is. *)
Lemma entitiesInBox_elem box st uuid :
  uuid ∈ entitiesInBox box st ↔
  ∃ r mesh,
    r ∈ BoundingBoxManager.boundingBoxMeshList (boundingBoxManager st) ∧
    BoundingBoxManager.deref r (boundingBoxManager st) = Some mesh ∧
    entityUUID mesh = uuid ∧ uuid ≠ "" ∧
    (visible mesh = true ∨ materials_default_visible st = true) ∧
    containsBox box (setFromObject mesh) = true.
Proof.
  unfold entitiesInBox. rewrite entitiesInBox_loop.
  split; [intros [Hnil | ?]; [by apply elem_of_nil in Hnil | done] | by right].
Qed.

(** C2: the candidates of a box selection are the ids of the listed volumes
    that are visible and whose world box lies inside the selection box; a
    volume that is not contained, intersecting or not, adds nothing. *)
Theorem box_candidates_contained screenStart screenEnd st box uuid :
  BoundingBoxManager.wf (boundingBoxManager st) →
  materials_default_visible st = false →
  _get3DSelectionBox screenStart screenEnd st = Some box →
  uuid ∈ entitiesInBox box st ↔
  ∃ r mesh,
    r ∈ BoundingBoxManager.boundingBoxMeshList (boundingBoxManager st) ∧
    BoundingBoxManager.deref r (boundingBoxManager st) = Some mesh ∧
    entityUUID mesh = uuid ∧
    visible mesh = true ∧
    containsBox box (setFromObject mesh) = true.
Proof.
  intros Hwf Hmat _. rewrite entitiesInBox_elem. split.
  - intros (r & mesh & Hr & Hm & Hu & _ & [Hv | Hv] & Hc); [| congruence].
    by exists r, mesh.
  - intros (r & mesh & Hr & Hm & Hu & Hv & Hc). exists r, mesh.
    split_and!; try done; [| by left].
    destruct (Hwf r Hr) as (mesh' & Hm' & Hne & _). congruence.
Qed.

(** The candidate set is a set of ids that are not empty. *)
Lemma entitiesInBox_NoDup box st : NoDup (entitiesInBox box st).
Proof.
  unfold entitiesInBox. apply (foldl_invariant (λ acc : list string, NoDup acc)).
  - apply NoDup_nil_2.
  - intros acc r Hacc. destruct (BoundingBoxManager.deref r _) as [mesh |]; [| done].
    case_ifs;
      try done.
    by apply Set_add_NoDup.
Qed.

Lemma entitiesInBox_ids box st : "" ∉ entitiesInBox box st.
Proof. rewrite entitiesInBox_elem. by intros (r & mesh & _ & _ & _ & Hne & _). Qed.

(** Selecting the ids of a list one after the other. *)
Lemma selection_select_each xs st y :
  y ∈ selection (foldl (λ this uuid, select uuid this) st xs) ↔
  y ∈ selection st ∨ (y ∈ xs ∧ y ≠ "").
Proof.
  revert st. induction xs as [| x xs IH]; intros st; simpl.
  - rewrite elem_of_nil. tauto.
  - rewrite IH, selection_select, elem_of_cons.
    destruct (String.eqb x "") eqn:E; simpl.
    + apply String.eqb_eq in E as ->. intuition congruence.
    + apply String.eqb_neq in E. destruct (Set_has x (selection st)) eqn:Hhas.
      * apply Set_has_true in Hhas. intuition congruence.
      * rewrite elem_of_app, list_elem_of_singleton. intuition congruence.
Qed.

Lemma selection_select_fresh xs st :
  "" ∉ xs → NoDup (selection st ++ xs) →
  selection (foldl (λ this uuid, select uuid this) st xs) = selection st ++ xs.
Proof.
  revert st. induction xs as [| x xs IH]; intros st Hne Hnd; simpl.
  - by rewrite app_nil_r.
  - apply not_elem_of_cons in Hne as [Hx Hne].
    assert (x ∉ selection st) as Hfresh.
    { apply NoDup_app in Hnd as (_ & Hd & _). intros Hin. apply (Hd x Hin). left. }
    assert (selection (select x st) = selection st ++ [x]) as Hsel.
    { rewrite selection_select. apply Set_has_false in Hfresh. rewrite Hfresh.
      assert (String.eqb x "" = false) as -> by (apply String.eqb_neq; congruence).
      done. }
    rewrite IH; [by rewrite Hsel, <- app_assoc | done | by rewrite Hsel, <- app_assoc].
Qed.

(** Without the modifier the selection becomes the candidate set; with the
    modifier the candidates join the selection and nothing leaves it. *)
Lemma box_selection_result screenStart screenEnd st box :
  wf st → _get3DSelectionBox screenStart screenEnd st = Some box →
  selection (_performBoxSelection screenStart screenEnd false st) = entitiesInBox box st ∧
  ∀ y, y ∈ selection (_performBoxSelection screenStart screenEnd true st) ↔
       y ∈ selection st ∨ y ∈ entitiesInBox box st.
Proof.
  intros Hwf Hbox. unfold _performBoxSelection. rewrite Hbox. cbn [negb].
  pose proof (selection_deselectAll st Hwf) as Hnil. split.
  - rewrite selection_select_fresh, Hnil; [done | apply entitiesInBox_ids |].
    rewrite Hnil. apply entitiesInBox_NoDup.
  - intros y. rewrite selection_select_each. split; [tauto |].
    intros [? | Hy]; [by left | right]. split; [done |]. intros ->.
    by apply entitiesInBox_ids in Hy.
Qed.
End Box.

(** ** What the selection operations leave alone *)

Section Frames.
Context `{Number} `{!WorldBox}.
Import Select.

Lemma frame_refl st : selection_frame st st.
Proof. unfold selection_frame. by destruct st. Qed.

Lemma frame_trans st1 st2 st3 :
  selection_frame st1 st2 → selection_frame st2 st3 → selection_frame st1 st3.
Proof. unfold selection_frame. intros H12 H23. rewrite H23, H12. done. Qed.

Lemma frame_select id st : selection_frame st (select id st).
Proof.
  unfold select. destruct (_ || _); [apply frame_refl |]. unfold selection_frame.
  by destruct st.
Qed.

Lemma frame_deselect id st : selection_frame st (deselect id st).
Proof.
  unfold deselect. destruct (_ || _); [apply frame_refl |]. unfold selection_frame.
  by destruct st.
Qed.

Lemma frame_each {A} (f : t → A → t) (l : list A) st :
  (∀ st a, selection_frame st (f st a)) → selection_frame st (foldl f st l).
Proof.
  intros Hf. apply (foldl_invariant (selection_frame st)); [apply frame_refl |].
  intros st' a Hst'. eapply frame_trans; [done | apply Hf].
Qed.

Lemma frame_deselectAll st : selection_frame st (deselectAll st).
Proof. unfold deselectAll. apply frame_each. intros. apply frame_deselect. Qed.

Lemma frame_selectAll st : selection_frame st (selectAll st).
Proof.
  unfold selectAll. apply frame_each. intros st' r.
  destruct (BoundingBoxManager.deref r _); [| apply frame_refl].
  destruct (String.eqb _ ""); [apply frame_refl | apply frame_select].
Qed.

Lemma frame_click id multi st : selection_frame st (_performSingleClickSelection id multi st).
Proof.
  unfold _performSingleClickSelection. destruct multi.
  - destruct (Set_has _ _); [apply frame_deselect | apply frame_select].
  - destruct (negb _); [| apply frame_deselectAll].
    eapply frame_trans; [apply frame_deselectAll | apply frame_select].
Qed.

Lemma frame_box p q multi st : selection_frame st (_performBoxSelection p q multi st).
Proof.
  unfold _performBoxSelection. destruct (_get3DSelectionBox p q st); [| apply frame_refl].
  destruct (negb multi).
  - eapply frame_trans; [apply frame_deselectAll |].
    apply frame_each. intros. apply frame_select.
  - apply frame_each. intros. apply frame_select.
Qed.

Lemma frame_triggered st st' : selection_frame st st' → triggered st' = triggered st.
Proof. by intros ->. Qed.

Lemma frame_hovered st st' :
  selection_frame st st' → hoveredEntityUUID st' = hoveredEntityUUID st.
Proof. by intros ->. Qed.

Lemma frame_selectedEntities st st' :
  selection_frame st st' → selectedEntities st' = selectedEntities st.
Proof. by intros ->. Qed.

(** The part of a click continuation before the event is sent. *)
Lemma frame_resume_selection event multi intersected st :
  ∃ st', selection_frame st st' ∧ (wf st → wf st') ∧
         _onPointerUp_resume event multi intersected st = _onPointerUp_finish event st'.
Proof.
  unfold _onPointerUp_resume.
  assert (∃ st', selection_frame st st' ∧ (wf st → wf st') ∧
                 (if negb multi then deselectAll st else st) = st') as Hmiss.
  { destruct (negb multi); eexists; (split_and!; [| | reflexivity]).
    - apply frame_deselectAll.
    - apply wf_deselectAll.
    - apply frame_refl.
    - done. }
  destruct (uuid_of _ st) as [u |].
  - destruct (negb (String.eqb u "")).
    + exists (_performSingleClickSelection u multi st).
      split_and!; [apply frame_click | apply wf_click | done].
    + destruct Hmiss as (st' & ? & ? & ->). by exists st'.
  - destruct Hmiss as (st' & ? & ? & ->). by exists st'.
Qed.

(** The event sent at the end of [_onPointerUp]. *)
Lemma finish_event event st :
  wf st →
  let st' := (_onPointerUp_finish event st).1 in
  ∃ l, triggered st' = triggered st ++ [("select", l)] ∧
       l ≠ selectedEntities st' ∧
       contents l st' = selection st' ∧
       selection st' = selection st.
Proof.
  intros Hwf. pose proof (selection_finish event st Hwf) as Hsel. revert Hsel.
  unfold _onPointerUp_finish, _updateHover.
  pose proof (wf_begin event st Hwf) as Hwf1.
  pose proof (new_Set_fresh (selection (_getIntersectedObject_begin event st)) _ Hwf1)
    as Hfresh.
  pose proof (contents_new_Set (selection (_getIntersectedObject_begin event st))
                (_getIntersectedObject_begin event st)) as Hcont.
  destruct (new_Set _ _) as [copy st1] eqn:E. simpl in *. intros Hsel.
  exists copy. split_and!.
  - f_equal. unfold new_Set in E. injection E as _ <-. simpl.
    unfold _getIntersectedObject_begin. by destruct (target event).
  - unfold new_Set in E. injection E as <- <-. simpl in *.
    intros Heq. apply Hfresh. rewrite Heq.
    unfold _getIntersectedObject_begin. by destruct (target event).
  - change (contents copy (trigger "select" copy st1)) with (contents copy st1).
    rewrite Hcont, Hsel, selection_begin. apply Set_from_NoDup, Hwf.
  - done.
Qed.
End Frames.

(** ** Events, keys and hover *)

Section Events.
Context `{Number} `{!WorldBox}.
Import Select.

Lemma triggered_begin event st :
  triggered (_getIntersectedObject_begin event st) = triggered st.
Proof. unfold _getIntersectedObject_begin. by destruct (target event). Qed.

Lemma triggered_hover_resume event intersected st :
  triggered (_updateHover_resume event intersected st) = triggered st.
Proof.
  unfold _updateHover_resume. destruct (hovered_eq _ _); [done |].
  case_options; done.
Qed.

(** C7: the step that resolves a click or a box selection sends one "select"
    event, whose payload is a fresh set with the elements of the selection,
    so that writing to it leaves the controller's set as it is; a release
    that only starts a click sends nothing yet, and the steps of a hover
    update send nothing. *)
Theorem selection_changed_event i w :
  wf (controller w) →
  let st := controller w in
  let st' := controller (step i w) in
  (resolves_selection i w = true →
   ∃ l, triggered st' = triggered st ++ [("select", l)] ∧
        l ≠ selectedEntities st' ∧
        contents l st' = selection st' ∧
        ∀ f, selection (mutate l f st') = selection st') ∧
  (hover_update i w = true → triggered st' = triggered st) ∧
  (∀ event, i = PointerUp event → resolves_selection i w = false →
            triggered st' = triggered st).
Proof.
  intros Hwf st st'. subst st st'. unfold resolves_selection, hover_update, step.
  destruct (heard i w) eqn:Hheard; [| done].
  split_and!.
  - intros Hres.
    assert (∃ st1, wf st1 ∧ triggered st1 = triggered (controller w) ∧
                   ∃ event, controller (deliver i w) = (_onPointerUp_finish event st1).1)
      as (st1 & Hwf1 & Htr & event & Hstep).
    { destruct i as [| | event | | | | | | | | k intersected]; simpl in Hres; try done.
      - apply andb_true_iff in Hres as [Hres Hdrag].
        apply andb_true_iff in Hres as [Hdown Hbutton].
        unfold deliver, _onPointerUp. rewrite Hdown, Hbutton, Hdrag.
        cbn -[_onPointerUp_finish _performBoxSelection].
        set (st0 := _removeSelectionBox
                      (with_pending false false (_startPoint (controller w))
                                    (controller w))).
        exists (_performBoxSelection (_startPoint st0) (local_point event st0)
                  (ctrlKey event || metaKey event) st0).
        split_and!; [| | exists event; by destruct (_onPointerUp_finish _ _)].
        + apply wf_box. exact Hwf.
        + by rewrite (frame_triggered _ _ (frame_box _ _ _ _)).
      - unfold deliver. destruct (awaiting w !! k) as [[event multi | event] |]; try done.
        cbn -[_onPointerUp_finish _onPointerUp_resume].
        destruct (frame_resume_selection event multi intersected (controller w))
          as (st1 & Hframe & Hwf1 & ->).
        exists st1. split_and!; [by apply Hwf1 | by apply frame_triggered |].
        exists event. by destruct (_onPointerUp_finish _ _). }
    destruct (finish_event event st1 Hwf1) as (l & Hev & Hl & Hcont & _).
    rewrite Hstep. exists l. rewrite Hev, Htr. split_and!; try done.
    intros f. unfold selection. by rewrite contents_mutate_ne.
  - intros Hhov.
    destruct i as [| event | | | | | | | | | k intersected]; simpl in Hhov; try done.
    + unfold deliver, _onPointerMove. apply negb_true_iff in Hhov. rewrite Hhov. simpl.
      apply triggered_begin.
    + unfold deliver. destruct (awaiting w !! k) as [[event multi | event] |]; try done.
      simpl. apply triggered_hover_resume.
  - intros event -> Hres. simpl in Hres. unfold deliver, _onPointerUp.
    destruct (_isMouseDown (controller w)); [| done].
    destruct (button event =? 0)%Z; [| done]. simpl in *. rewrite Hres.
    simpl. by rewrite triggered_begin.
Qed.

(** C8: Escape empties the selection and sends a "select" event that
    carries an empty set, whatever the selection was. *)
Theorem escape_clears_and_notifies event st :
  wf st → key event = "Escape" →
  let st' := (_onKeyDown event st).1 in
  selection st' = [] ∧
  ∃ l, triggered st' = triggered st ++ [("select", l)] ∧ contents l st' = [].
Proof.
  intros Hwf Hkey st'. subst st'. unfold _onKeyDown. rewrite Hkey.
  change (String.eqb "Escape" "Escape") with true. cbv iota.
  pose proof (wf_deselectAll st Hwf) as Hwf1.
  pose proof (selection_new_Set [] _ Hwf1) as Hsel.
  pose proof (contents_new_Set [] (deselectAll st)) as Hcont.
  destruct (new_Set [] (deselectAll st)) as [l st1] eqn:E. cbn [fst snd] in *.
  split.
  - change (selection (trigger "select" l st1)) with (selection st1).
    rewrite Hsel. by apply selection_deselectAll.
  - exists l. split; [| done].
    unfold new_Set in E. injection E as _ <-. simpl.
    by rewrite (frame_triggered _ _ (frame_deselectAll st)).
Qed.

Lemma hovered_begin event st :
  hoveredEntityUUID (_getIntersectedObject_begin event st) = hoveredEntityUUID st.
Proof. unfold _getIntersectedObject_begin. by destruct (target event). Qed.

Lemma hovered_finish event st :
  hoveredEntityUUID (_onPointerUp_finish event st).1 = hoveredEntityUUID st.
Proof.
  unfold _onPointerUp_finish, _updateHover, new_Set. simpl. apply hovered_begin.
Qed.

(** C10: [select], [deselect], [deselectAll] and [selectAll] leave the
    hovered id as it is, and so does every step of the controller other than
    the arrival of a hover ray cast and [dispose]. *)
Theorem hovered_unchanged_by_selection i w :
  assigns_hovered i w = false →
  (∀ id st,
     hoveredEntityUUID (select id st) = hoveredEntityUUID st ∧
     hoveredEntityUUID (deselect id st) = hoveredEntityUUID st ∧
     hoveredEntityUUID (deselectAll st) = hoveredEntityUUID st ∧
     hoveredEntityUUID (selectAll st) = hoveredEntityUUID st) ∧
  hoveredEntityUUID (controller (step i w)) = hoveredEntityUUID (controller w).
Proof.
  intros Hno. split.
  - intros id st. split_and!; apply frame_hovered;
      [apply frame_select | apply frame_deselect | apply frame_deselectAll
      | apply frame_selectAll].
  - unfold step. destruct (heard i w); [| done].
    destruct i as [event | event | event | event | event | id | id | | | | k intersected];
      simpl in *; try done.
    + unfold _onPointerDown. by destruct (_ || _).
    + unfold _onPointerMove. destruct (negb _); simpl; [apply hovered_begin | done].
    + unfold _onPointerUp. destruct (_ || _); [done |].
      destruct (_isDragging (controller w));
        cbn -[_onPointerUp_finish _performBoxSelection]; [| by rewrite hovered_begin].
      destruct (_onPointerUp_finish _ _) as [st2 aw] eqn:E.
      cbn -[_performBoxSelection]. change st2 with (st2, aw).1.
      rewrite <- E, hovered_finish.
      by rewrite (frame_hovered _ _ (frame_box _ _ _ _)).
    + unfold _onKeyDown, new_Set. destruct (String.eqb _ "Escape"); simpl.
      { apply (frame_hovered _ _ (frame_deselectAll _)). }
      destruct (_ && _); simpl; [| done].
      apply (frame_hovered _ _ (frame_selectAll _)).
    + apply (frame_hovered _ _ (frame_select _ _)).
    + apply (frame_hovered _ _ (frame_deselect _ _)).
    + apply (frame_hovered _ _ (frame_deselectAll _)).
    + apply (frame_hovered _ _ (frame_selectAll _)).
    + destruct (awaiting w !! k) as [[event multi | event] |]; try done.
      cbn -[_onPointerUp_finish _onPointerUp_resume].
      destruct (frame_resume_selection event multi intersected (controller w))
        as (st1 & Hframe & _ & ->).
      destruct (_onPointerUp_finish event st1) as [st2 aw] eqn:E. simpl.
      change st2 with (st2, aw).1. rewrite <- E, hovered_finish.
      by apply frame_hovered.
Qed.
End Events.

(** ** Late ray casts *)

Section Late.
Context `{Number} `{!WorldBox}.
Import Select.







End Late.

(** ** The invariant holds along every run *)

Section Runs.
Context `{Number} `{!WorldBox}.
Import Select.

Lemma wf_hover_resume event intersected st :
  wf st → wf (_updateHover_resume event intersected st).
Proof.
  intros Hwf. unfold _updateHover_resume. destruct (hovered_eq _ _); [done |].
  case_options; done.
Qed.

Lemma wf_dispose st : wf st → wf (dispose st).
Proof.
  intros Hwf. unfold dispose.
  apply (wf_mutate (λ _, []) st Hwf); [apply NoDup_nil_2 | apply not_elem_of_nil].
Qed.

Lemma wf_keydown event st : wf st → wf (_onKeyDown event st).1.
Proof.
  intros Hwf. unfold _onKeyDown. destruct (String.eqb _ "Escape").
  - pose proof (wf_new_Set [] _ (wf_deselectAll st Hwf)) as Hn.
    by destruct (new_Set [] (deselectAll st)).
  - destruct (_ && _); [| done].
    pose proof (wf_new_Set (selection (selectAll st)) _ (wf_selectAll st Hwf)) as Hn.
    by destruct (new_Set _ (selectAll st)).
Qed.

Lemma wf_step i w : wf (controller w) → wf (controller (step i w)).
Proof.
  intros Hwf. unfold step. destruct (heard i w); [| done].
  destruct i as [event | event | event | event | event | id | id | | | | k intersected];
    cbn -[_onPointerUp_finish _onPointerUp_resume _performBoxSelection _onKeyDown dispose
          _updateHover_resume].
  - unfold _onPointerDown. by destruct (_ || _).
  - unfold _onPointerMove. destruct (negb _); simpl; [by apply wf_begin | done].
  - unfold _onPointerUp. destruct (_ || _); [done |].
    destruct (_isDragging (controller w)).
    + match goal with |- context [_onPointerUp_finish ?e ?s] =>
        pose proof (wf_finish e s) as Hf; destruct (_onPointerUp_finish e s) end.
      apply Hf, wf_box. exact Hwf.
    + simpl. by apply wf_begin.
  - by apply wf_keydown.
  - done.
  - by apply wf_select.
  - by apply wf_deselect.
  - by apply wf_deselectAll.
  - by apply wf_selectAll.
  - by apply wf_dispose.
  - destruct (awaiting w !! k) as [[event multi | event] |]; [| | done].
    + unfold resume.
      destruct (frame_resume_selection event multi intersected (controller w))
        as (st1 & _ & Hwf1 & ->).
      pose proof (wf_finish event st1 (Hwf1 Hwf)) as Hf.
      by destruct (_onPointerUp_finish event st1).
    + simpl. by apply wf_hover_resume.
Qed.

Lemma wf_run inputs w : wf (controller w) → wf (controller (run inputs w)).
Proof.
  intros Hwf. unfold run. apply (foldl_invariant (λ w, wf (controller w))); [done |].
  intros w' i. apply wf_step.
Qed.

(** The manager stays well formed too: the controller only restyles. *)
Lemma registry_wf_frame st :
  BoundingBoxManager.wf (boundingBoxManager st) →
  ∀ id, BoundingBoxManager.wf (boundingBoxManager (select id st)) ∧
        BoundingBoxManager.wf (boundingBoxManager (deselect id st)).
Proof.
  intros Hwf id. unfold select, deselect. split; destruct (_ || _); try done;
    apply registry_wf_setVisualState; exact Hwf.
Qed.
End Runs.

(** ** Registration *)

Section Registration.
Context `{Number} `{!WorldBox}.
Import BoundingBoxManager.

(** C5, as the code has it: after a successful registration the entity is
    not selected in a controller built on the manager, and no controller's
    selection has changed; the volume has the Default material, which is
    not rendered, so that the volume does not show. *)
Theorem registered_volume_is_default entity def b r :
  (createBoundingBox entity def b).1 = Some r →
  let b' := (createBoundingBox entity def b).2 in
  ∃ e mesh,
    entity = Some e ∧ getMesh (uuid e) b' = Some r ∧ deref r b' = Some mesh ∧
    entityUUID mesh = uuid e ∧
    material mesh = material_default ∧
    rendered mesh = false ∧
    (∀ c cam, Select.isSelected (uuid e) (Select.new c cam b') = false) ∧
    (∀ st, Select.selection (Select.with_manager b' st) = Select.selection st).
Proof.
  intros Hr b'. subst b'.
  apply createBoundingBox_Some in Hr as (e & d & -> & -> & Hne & Hr & ->).
  exists e, (build_mesh e d). unfold getMesh, deref. simpl.
  rewrite !lookup_insert_eq.
  destruct (build_mesh_fields e d) as (Hu & Hm & Hv).
  split_and!; try done.
  unfold rendered. by rewrite Hm, Hv.
Qed.
End Registration.

(** ** The properties on the scenes *)

Section Scenes.
Import Scene.
#[local] Existing Instance QNumber.
#[local] Existing Instance QWorldBox.

Lemma registry_wf_abc : BoundingBoxManager.wf abc.
Proof.
  unfold abc, register.
  do 3 apply registry_wf_createBoundingBox. apply registry_wf_new.
Qed.

(** On the scene: a click on A while nothing is selected selects A. *)
Lemma click_without_modifier_replaces_witness :
  Select.selection
    (Select._onPointerUp_resume (at_ 100 100 false) false (Some hA) st0).1 = ["A"].
Proof.
  assert (Select.uuid_of
            (Select._getIntersectedObject_resume (at_ 100 100 false) (Some hA) st0) st0
          = Some "A") as Hhit by (vm_compute; reflexivity).
  assert ("A" ≠ "") as Hne by discriminate.
  pose proof (click_without_modifier_replaces (at_ 100 100 false) (Some hA) st0 "A"
                (wf_new _ _ _) Hne Hhit) as Hc.
  cbv zeta in Hc. destruct Hc as (_ & Hc & _). apply Hc.
  intros Heq. vm_compute in Heq. discriminate.
Defined.

(** A rubber band around A and C that cuts B selects A and C. *)
Example box_selects_A_and_C :
  Select.selection (Select.controller (Select.run drag w0)) = ["A"; "C"] ∧
  ∃ box, Select._get3DSelectionBox drag_start drag_end st0 = Some box ∧
         Select.entitiesInBox box st0 = ["A"; "C"] ∧
         (setFromObject <$> BoundingBoxManager.deref hB abc) ≫= (λ b,
            Some (intersectsBox box b, containsBox box b)) = Some (true, false).
Proof.
  split; [vm_compute; reflexivity |]. eexists. split; [reflexivity |].
  split; vm_compute; reflexivity.
Qed.

(** On the scene: B is a candidate of the rubber band exactly if one of its
    visible volumes lies inside the selection box. *)
Lemma box_candidates_contained_witness :
  match Select._get3DSelectionBox drag_start drag_end st0 with
  | Some box =>
      "B" ∈ Select.entitiesInBox box st0 ↔
      ∃ r mesh,
        r ∈ BoundingBoxManager.boundingBoxMeshList (Select.boundingBoxManager st0) ∧
        BoundingBoxManager.deref r (Select.boundingBoxManager st0) = Some mesh ∧
        entityUUID mesh = "B" ∧ visible mesh = true ∧
        containsBox box (setFromObject mesh) = true
  | None => False
  end.
Proof.
  destruct (Select._get3DSelectionBox drag_start drag_end st0) as [box |] eqn:E.
  - exact (box_candidates_contained drag_start drag_end st0 box "B"
             registry_wf_abc eq_refl E).
  - vm_compute in E. discriminate.
Defined.

(** An id without a volume is added to the selection set. *)
Lemma select_unregistered_counterexample :
  BoundingBoxManager.getMesh "ghost" (Select.boundingBoxManager st0) = None ∧
  Select.selection st0 = [] ∧
  Select.selection (Select.select "ghost" st0) = ["ghost"] ∧
  Select.isSelected "ghost" (Select.select "ghost" st0) = true.
Proof. vm_compute. auto. Qed.

(** On the scene: the empty id changes nothing, and A is added. *)
Lemma select_effect_witness :
  Select.select "" st0 = st0 ∧
  Select.selection (Select.select "A" st0) = Select.selection st0 ++ ["A"].
Proof.
  split.
  - destruct (select_effect "" st0) as [Hnop _]. apply Hnop. by left.
  - destruct (select_effect "A" st0) as [_ Hadd].
    destruct Hadd as (Hsel & _); [| exact Hsel]. split; [discriminate |].
    intros Hin. vm_compute in Hin. by apply elem_of_nil in Hin.
Defined.

(** From the selection {A}, [select] and then [deselect] of A leave the
    empty set. *)
Lemma select_deselect_counterexample :
  Select.selection stA = ["A"] ∧
  Select.selection (Select.deselect "A" (Select.select "A" stA)) = [].
Proof. vm_compute. auto. Qed.

(** On the scene: B, which is not selected, is selected and deselected. *)
Lemma select_deselect_roundtrip_witness :
  Select.selection (Select.deselect "B" (Select.select "B" stA)) = Select.selection stA.
Proof.
  apply select_deselect_roundtrip.
  intros Hin. vm_compute in Hin.
  apply list_elem_of_singleton in Hin. discriminate.
Defined.

(** The visibility flag of a volume that has just been registered is true. *)
Lemma registered_visible_counterexample :
  (BoundingBoxManager.createBoundingBox (Some (entity "A" 0 0)) (Some (bounds 2 2))
     BoundingBoxManager.new).1 = Some 0 ∧
  visible <$> BoundingBoxManager.deref 0
    (BoundingBoxManager.createBoundingBox (Some (entity "A" 0 0)) (Some (bounds 2 2))
       BoundingBoxManager.new).2 = Some true.
Proof. vm_compute. auto. Qed.

(** On the scene: the volume of A right after its registration. *)
Lemma registered_volume_is_default_witness :
  ∃ e mesh,
    Some (entity "A" 0 0) = Some e ∧
    BoundingBoxManager.deref 0 (register "A" 0 0 BoundingBoxManager.new) = Some mesh ∧
    material mesh = material_default ∧ rendered mesh = false.
Proof.
  assert ((BoundingBoxManager.createBoundingBox (Some (entity "A" 0 0))
             (Some (bounds 2 2)) BoundingBoxManager.new).1 = Some 0) as Hreg
    by (vm_compute; reflexivity).
  pose proof (registered_volume_is_default _ _ _ _ Hreg) as Hc. cbv zeta in Hc.
  destruct Hc as (e & mesh & He & _ & Hm & _ & Hmat & Hr & _).
  exists e, mesh. auto.
Defined.

(** C6 on the code: registering the id e1 a second time leaves two volumes
    with that id in the list and in the scene, of which the map knows the
    second only; [dispose] then removes that one and leaves the first in
    the scene. *)
Theorem second_registration_keeps_both_volumes :
  BoundingBoxManager.uuids_of (BoundingBoxManager.boundingBoxMeshList twice) twice
    = ["e1"; "e1"] ∧
  BoundingBoxManager.uuids_of (BoundingBoxManager.scene twice) twice = ["e1"; "e1"] ∧
  BoundingBoxManager.getMesh "e1" twice = Some 1 ∧
  BoundingBoxManager.scene (BoundingBoxManager.dispose twice) = [0].
Proof. vm_compute. auto. Qed.

(** On the scene: the ray cast of a click arrives, and one event is sent. *)
Lemma selection_changed_event_witness :
  ∃ l,
    Select.triggered (Select.controller (Select.step (Select.Resolve 0 (Some hA))
                                           click_waiting)) =
      Select.triggered (Select.controller click_waiting) ++ [("select", l)] ∧
    l ≠ Select.selectedEntities
          (Select.controller (Select.step (Select.Resolve 0 (Some hA)) click_waiting)) ∧
    Select.contents l
      (Select.controller (Select.step (Select.Resolve 0 (Some hA)) click_waiting)) =
    Select.selection
      (Select.controller (Select.step (Select.Resolve 0 (Some hA)) click_waiting)) ∧
    ∀ f, Select.selection
           (Select.mutate l f
              (Select.controller (Select.step (Select.Resolve 0 (Some hA))
                                    click_waiting))) =
         Select.selection
           (Select.controller (Select.step (Select.Resolve 0 (Some hA)) click_waiting)).
Proof.
  pose proof (selection_changed_event (Select.Resolve 0 (Some hA)) click_waiting
                (wf_run _ w0 (wf_new canvas ortho abc))) as Hc.
  cbv zeta in Hc. destruct Hc as (Hc & _). apply Hc. vm_compute. reflexivity.
Defined.

(** On the scene: Escape while nothing is selected. *)
Lemma escape_clears_and_notifies_witness :
  Select.selection (Select._onKeyDown (key_ "Escape" false) st0).1 = [] ∧
  ∃ l, Select.triggered (Select._onKeyDown (key_ "Escape" false) st0).1 =
         Select.triggered st0 ++ [("select", l)] ∧
       Select.contents l (Select._onKeyDown (key_ "Escape" false) st0).1 = [].
Proof.
  exact (escape_clears_and_notifies (key_ "Escape" false) st0 (wf_new _ _ _) eq_refl).
Defined.



(** On the scene: a call of [select]. *)
Lemma hovered_unchanged_by_selection_witness :
  Select.hoveredEntityUUID (Select.controller (Select.step (Select.Call_select "A") w0)) =
  Select.hoveredEntityUUID (Select.controller w0).
Proof.
  pose proof (hovered_unchanged_by_selection (Select.Call_select "A") w0 eq_refl) as Hc.
  destruct Hc as (_ & Hc). exact Hc.
Defined.
End Scenes.

(** * Further properties *)

(** ** The manager *)

Section ManagerMore.
Context `{Number}.
Import BoundingBoxManager.

Lemma filter_all {A} (P : A → Prop) `{!∀ x, Decision (P x)} (l : list A) :
  (∀ x, x ∈ l → P x) → filter P l = l.
Proof.
  induction l as [| x l IH]; intros HP; [done |].
  rewrite filter_cons_True by (apply HP; left). f_equal. apply IH.
  intros y Hy. apply HP. by right.
Qed.

Lemma filter_none {A} (P : A → Prop) `{!∀ x, Decision (P x)} (l : list A) :
  (∀ x, x ∈ l → ¬ P x) → filter P l = [].
Proof.
  induction l as [| x l IH]; intros HP; [done |].
  rewrite filter_cons_False by (apply HP; left). apply IH.
  intros y Hy. apply HP. by right.
Qed.

Lemma restyle_twice s1 s2 mesh : restyle s2 (restyle s1 mesh) = restyle s2 mesh.
Proof. unfold restyle. by destruct (selected s2), (hovered s2), (selected s1), (hovered s1). Qed.

Lemma restyle_material state mesh :
  material (restyle state mesh) = material_of state ∧
  (material (restyle state mesh) ≠ material_default →
   visible (restyle state mesh) = true).
Proof. unfold restyle, material_of. by destruct (selected state), (hovered state). Qed.

Lemma restyle_placement state mesh : placement (restyle state mesh) = placement mesh.
Proof. unfold restyle, placement. by destruct (selected state), (hovered state). Qed.

(** X1: the style of a volume is the last one applied; applying a style
    twice is applying it once, and with [selected] set the value of
    [hovered] does not matter. *)
Theorem setVisualState_last_wins id s1 s2 hov hov' b :
  setVisualState id s2 (setVisualState id s1 b) = setVisualState id s2 b ∧
  setVisualState id {| selected := true; hovered := hov |} b =
    setVisualState id {| selected := true; hovered := hov' |} b.
Proof.
  split.
  - unfold setVisualState. destruct (meshMap b !! id) as [r |] eqn:E; simpl.
    + rewrite E. f_equal. rewrite alter_alter_eq. apply alter_ext.
      intros mesh _. apply restyle_twice.
    + by rewrite E.
  - unfold setVisualState. by destruct (meshMap b !! id).
Qed.

Lemma only_restyled_refl b : only_restyled b b.
Proof. by unfold only_restyled. Qed.

Lemma only_restyled_trans b1 b2 b3 :
  only_restyled b1 b2 → only_restyled b2 b3 → only_restyled b1 b3.
Proof.
  intros (Hm & Hl & Hs & Hp) (Hm' & Hl' & Hs' & Hp'). unfold only_restyled.
  split_and!; [congruence | congruence | congruence |].
  intros r. by rewrite Hp', Hp.
Qed.

Lemma only_restyled_setVisualState id state b :
  only_restyled b (setVisualState id state b).
Proof.
  unfold only_restyled, setVisualState, deref.
  destruct (meshMap b !! id) as [r0 |]; [| done]. simpl. split_and!; try done.
  intros r. destruct (decide (r = r0)) as [-> | Hne].
  - rewrite lookup_alter_eq. destruct (heap b !! r0); [| done]. simpl.
    by rewrite restyle_placement.
  - by rewrite lookup_alter_ne.
Qed.

(** X2: [setVisualState] writes the material and the visibility flag of the
    one mesh the map gives for the id, and nothing else: the map, the list,
    the scene, every other mesh and the placement of every mesh stay. *)
Theorem setVisualState_only_restyles id state b :
  let b' := setVisualState id state b in
  only_restyled b b' ∧
  (∀ r, getMesh id b ≠ Some r → deref r b' = deref r b) ∧
  (getMesh id b = None → b' = b).
Proof.
  intros b'. subst b'. split_and!.
  - apply only_restyled_setVisualState.
  - intros r Hr. unfold setVisualState, getMesh, deref in *.
    destruct (meshMap b !! id) as [r0 |]; [| done]. simpl.
    apply lookup_alter_ne. congruence.
  - apply setVisualState_unregistered.
Qed.
End ManagerMore.

(** ** Registration and disposal *)

Section RegistrationMore.
Context `{Number}.
Import BoundingBoxManager.

Lemma fresh_not_listed b r :
  wf b → r ∈ boundingBoxMeshList b → r ≠ fresh (dom (heap b)).
Proof.
  intros Hwf Hr ->. destruct (Hwf _ Hr) as (mesh & Hm & _).
  apply (is_fresh (dom (heap b))). apply elem_of_dom. by eexists.
Qed.

Lemma fresh_not_stored b r mesh :
  deref r b = Some mesh → r ≠ fresh (dom (heap b)).
Proof.
  intros Hm ->. apply (is_fresh (dom (heap b))). apply elem_of_dom. by eexists.
Qed.

(** X3: a successful registration can be looked up, its handle is new, and
    it leaves the other ids and all the meshes present before as they were. *)
Theorem createBoundingBox_lookup entity def b r :
  wf b →
  (createBoundingBox entity def b).1 = Some r →
  let b' := (createBoundingBox entity def b).2 in
  ∃ e, entity = Some e ∧
       getMesh (uuid e) b' = Some r ∧
       (entityUUID <$> deref r b') = Some (uuid e) ∧
       deref r b = None ∧ (r ∉ boundingBoxMeshList b) ∧
       (∀ id, id ≠ uuid e → getMesh id b' = getMesh id b) ∧
       (∀ r' mesh, deref r' b = Some mesh → deref r' b' = Some mesh).
Proof.
  intros Hwf Hr b'. subst b'.
  apply createBoundingBox_Some in Hr as (e & d & -> & -> & Hne & Hr & ->).
  exists e. unfold getMesh, deref. simpl. split_and!; try done.
  - apply lookup_insert_eq.
  - rewrite lookup_insert_eq. simpl. by destruct (build_mesh_fields e d) as (-> & _).
  - subst r. apply not_elem_of_dom. apply is_fresh.
  - intros Hin. by apply (fresh_not_listed b r Hwf Hin).
  - intros id Hid. by apply lookup_insert_ne.
  - intros r' mesh Hm. rewrite lookup_insert_ne; [done |].
    intros <-. by apply (fresh_not_stored b r mesh Hm).
Qed.

Lemma consistent_new : registry_consistent new.
Proof.
  split; [done |]. intros u r Hu. unfold new in Hu. cbn [meshMap] in Hu.
  by rewrite lookup_empty in Hu.
Qed.

Lemma consistent_createBoundingBox entity def b :
  registry_consistent b → registry_consistent (createBoundingBox entity def b).2.
Proof.
  intros [Hempty Hcons]. destruct (createBoundingBox entity def b).1 as [r |] eqn:E.
  - apply createBoundingBox_Some in E as (e & d & -> & -> & Hne & Hr & ->).
    split; simpl.
    + by rewrite lookup_insert_ne.
    + intros u r' Hu. unfold deref. simpl.
      destruct (decide (u = uuid e)) as [-> | Hneq].
      * rewrite lookup_insert_eq in Hu. injection Hu as <-.
        exists (build_mesh e d). rewrite lookup_insert_eq.
        by destruct (build_mesh_fields e d) as (-> & _).
      * rewrite lookup_insert_ne in Hu by done.
        destruct (Hcons u r' Hu) as (mesh & Hm & Hmu). exists mesh.
        rewrite lookup_insert_ne; [done |]. intros <-.
        by apply (fresh_not_stored b r mesh Hm).
  - by rewrite createBoundingBox_None.
Qed.

Lemma consistent_setVisualState id state b :
  registry_consistent b → registry_consistent (setVisualState id state b).
Proof.
  intros [Hempty Hcons]. split; [by rewrite setVisualState_meshMap |].
  intros u r Hu. rewrite setVisualState_meshMap in Hu.
  destruct (Hcons u r Hu) as (mesh & Hm & Hmu).
  pose proof (setVisualState_uuid id state b r) as Heq. rewrite Hm in Heq.
  destruct (deref r (setVisualState id state b)) as [mesh' |]; [| done].
  simpl in Heq. injection Heq as Heq. exists mesh'. split; congruence.
Qed.

Lemma pristine_new : registry_pristine new.
Proof.
  intros r mesh Hm. unfold deref, new in Hm. cbn [heap] in Hm.
  by rewrite lookup_empty in Hm.
Qed.

Lemma pristine_createBoundingBox entity def b :
  registry_pristine b → registry_pristine (createBoundingBox entity def b).2.
Proof.
  intros Hp. destruct (createBoundingBox entity def b).1 as [r |] eqn:E.
  - apply createBoundingBox_Some in E as (e & d & -> & -> & Hne & Hr & ->).
    intros r' mesh. unfold deref. simpl.
    destruct (decide (r' = r)) as [-> | Hneq].
    + rewrite lookup_insert_eq. intros [= <-].
      by destruct (build_mesh_fields e d) as (_ & -> & _).
    + rewrite lookup_insert_ne by done. apply Hp.
  - by rewrite createBoundingBox_None.
Qed.

Lemma tidy_new : registry_tidy new.
Proof.
  unfold registry_tidy. simpl. split_and!; [done | apply NoDup_nil_2 | |].
  - intros r Hr. by apply elem_of_nil in Hr.
  - intros u r Hu. by rewrite lookup_empty in Hu.
Qed.

Lemma tidy_wf b : registry_tidy b → wf b.
Proof.
  intros (_ & _ & Hl & _) r Hr. destruct (Hl r Hr) as (mesh & Hm & Hne & Hk).
  exists mesh. split_and!; [done | done | by eexists].
Qed.

(** Registering an id that is not registered yet keeps one volume per id. *)
Lemma tidy_createBoundingBox e d b :
  registry_tidy b → uuid e ≠ "" → getMesh (uuid e) b = None →
  registry_tidy (createBoundingBox (Some e) (Some d) b).2.
Proof.
  intros Htidy Hne Hnew. pose proof (tidy_wf b Htidy) as Hwf.
  destruct Htidy as (Hs & Hnd & Hl & Hm).
  unfold createBoundingBox. apply String.eqb_neq in Hne as Hne'. rewrite Hne'.
  unfold registry_tidy, deref. simpl. split_and!.
  - by rewrite Hs.
  - apply NoDup_app. split_and!; [done | | apply NoDup_singleton].
    intros r Hr ->%list_elem_of_singleton. by apply (fresh_not_listed b _ Hwf Hr).
  - intros r [Hr | ->%list_elem_of_singleton]%elem_of_app.
    + destruct (Hl r Hr) as (mesh & Hmesh & Hu & Hk). exists mesh.
      rewrite lookup_insert_ne by (symmetry; by apply (fresh_not_listed b r Hwf)).
      split_and!; [done | done |]. rewrite lookup_insert_ne; [done |].
      intros Heq. unfold getMesh in Hnew. congruence.
    + exists (build_mesh e d). rewrite lookup_insert_eq.
      destruct (build_mesh_fields e d) as (-> & _). by rewrite lookup_insert_eq.
  - intros u r Hu. apply elem_of_app.
    destruct (decide (u = uuid e)) as [-> | Hneq].
    + rewrite lookup_insert_eq in Hu. injection Hu as <-. right. left.
    + rewrite lookup_insert_ne in Hu by done. left. by apply (Hm u).
Qed.

(** X4: a second [dispose] changes nothing, and after [dispose] no id can
    be looked up and no volume is listed. *)
Theorem dispose_idempotent b :
  dispose (dispose b) = dispose b ∧
  (∀ id, getMesh id (dispose b) = None) ∧
  boundingBoxMeshList (dispose b) = [].
Proof.
  split_and!; [| done | done].
  unfold dispose. simpl. f_equal. rewrite map_to_list_empty. simpl.
  apply filter_all. intros r _. apply not_elem_of_nil.
Qed.

(** X5: when the manager holds one volume per id, [dispose] removes every
    volume from the scene. *)
Theorem dispose_removes_all_volumes b :
  registry_tidy b → scene (dispose b) = [].
Proof.
  intros (Hs & _ & Hl & _). unfold dispose. simpl. apply filter_none.
  intros r Hr Hnot. apply Hnot. rewrite Hs in Hr.
  destruct (Hl r Hr) as (mesh & _ & _ & Hk).
  apply list_elem_of_fmap. exists (entityUUID mesh, r). split; [done |].
  by apply elem_of_map_to_list.
Qed.
End RegistrationMore.

(** ** From the document to the registry *)

Section ViewerMore.
Context `{Number}.
Import DxfViewer.

Lemma grow_fold_Some a vs : is_Some (foldl grow (Some a) vs).
Proof.
  revert a. induction vs as [| v vs IH]; intros a; simpl; [by eexists |].
  destruct a as [[[minX minY] maxX] maxY]. apply IH.
Qed.

Lemma grow_fold_None acc vs : foldl grow acc vs = None ↔ acc = None ∧ vs = [].
Proof.
  destruct vs as [| v vs]; simpl; [split; [by intros -> | by intros [? _]] |].
  split; [| by intros [_ ?]].
  intros Hnone. exfalso.
  assert (∃ a, grow acc v = Some a) as [a Ha].
  { destruct acc as [[[[minX minY] maxX] maxY] |]; by eexists. }
  rewrite Ha in Hnone. destruct (grow_fold_Some a vs) as [? ?]. congruence.
Qed.

(** A block definition has bounds exactly if one of its entities has a
    vertex. *)
Lemma definition_bounds_Some blockDef :
  is_Some (definition_bounds blockDef) ↔
  ∃ entity vs v, entity ∈ nullish (entities blockDef) [] ∧
                 vertices entity = Some vs ∧ v ∈ vs.
Proof.
  unfold definition_bounds.
  set (step := λ (acc : option (num * num * num * num)) (entity : BlockEntity),
         foldl grow acc (nullish (vertices entity) [])).
  assert (∀ l acc, foldl step acc l = None ↔
                   acc = None ∧ ∀ entity, entity ∈ l → nullish (vertices entity) [] = [])
    as Hfold.
  { induction l as [| entity l IH]; intros acc; simpl.
    - split; [| by intros [? _]]. intros ->. split; [done |].
      intros entity Hin. by apply elem_of_nil in Hin.
    - rewrite IH. unfold step at 1. rewrite grow_fold_None. split.
      + intros [[-> Hvs] Hl]. split; [done |].
        intros entity' [-> | Hin]%elem_of_cons; auto.
      + intros [-> Hl]. split_and!; [done | |].
        * apply Hl. left.
        * intros entity' Hin. apply Hl. by right. }
  specialize (Hfold (nullish (entities blockDef) []) None).
  destruct (foldl step None _) as [[[[minX minY] maxX] maxY] |] eqn:E.
  - split; [intros _ | by eexists].
    destruct (decide (Forall (λ entity, nullish (vertices entity) [] = [])
                             (nullish (entities blockDef) []))) as [Hall | Hex].
    + exfalso. rewrite Forall_forall in Hall.
      assert (Some (minX, minY, maxX, maxY) = None) as Habs; [| done].
      apply Hfold. split; [done |]. intros entity Hin. by apply Hall.
    + apply not_Forall_Exists in Hex; [| apply _].
      apply Exists_exists in Hex as (entity & Hin & Hne).
      unfold compose in Hne.
      destruct (vertices entity) as [[| v vs] |] eqn:Hv; simpl in Hne;
        [by destruct Hne | | by destruct Hne].
      exists entity, (v :: vs), v. split_and!; [done | done | left].
  - split; [by intros [? ?] |]. intros (entity & vs & v & Hin & Hv & Hin').
    destruct Hfold as [Hfold _]. destruct (Hfold eq_refl) as [_ Hnil].
    specialize (Hnil entity Hin). rewrite Hv in Hnil. simpl in Hnil. subst vs.
    by apply elem_of_nil in Hin'.
Qed.

Lemma setup_one_skipped m o gen b n entity :
  m !! ent_name entity = None → setup_one m o gen (b, n) entity = (b, n).
Proof. unfold setup_one. by intros ->. Qed.

Lemma setup_one_registered m o gen b n entity :
  is_Some (m !! ent_name entity) → handle entity ≠ "" →
  ∃ e d, BoundingBoxManager.uuid e = handle entity ∧
         setup_one m o gen (b, n) entity =
           ((BoundingBoxManager.createBoundingBox (Some e) (Some d) b).2, n).
Proof.
  intros [db Hdb] Hne. unfold setup_one. rewrite Hdb.
  destruct (ent_position entity) as [[px py] pz].
  apply String.eqb_neq in Hne. rewrite Hne. cbv zeta iota beta.
  eexists _, _. split; [| reflexivity]. reflexivity.
Qed.

Lemma with_bounds_cons m entity es :
  with_bounds m (entity :: es) =
    if decide (is_Some (m !! ent_name entity)) then entity :: with_bounds m es
    else with_bounds m es.
Proof. unfold with_bounds. by rewrite filter_cons. Qed.

(** The loop, volume by volume. *)
Lemma setup_fold m o gen es b n :
  BoundingBoxManager.wf b →
  (∀ entity, entity ∈ with_bounds m es → handle entity ≠ "") →
  (foldl (setup_one m o gen) (b, n) es).2 = n ∧
  BoundingBoxManager.wf (foldl (setup_one m o gen) (b, n) es).1 ∧
  BoundingBoxManager.uuids_of
    (BoundingBoxManager.boundingBoxMeshList (foldl (setup_one m o gen) (b, n) es).1)
    (foldl (setup_one m o gen) (b, n) es).1 =
    BoundingBoxManager.uuids_of (BoundingBoxManager.boundingBoxMeshList b) b
      ++ (handle <$> with_bounds m es).
Proof.
  revert b. induction es as [| entity es IH]; intros b Hwf Hh; cbn [foldl].
  - simpl. by rewrite app_nil_r.
  - rewrite with_bounds_cons in Hh |- *.
    destruct (decide (is_Some (m !! ent_name entity))) as [Hb | Hb].
    + assert (handle entity ≠ "") as Hne by (apply Hh; left).
      destruct (setup_one_registered m o gen b n entity Hb Hne) as (e & d & Hu & ->).
      destruct (IH (BoundingBoxManager.createBoundingBox (Some e) (Some d) b).2)
        as (Hn & Hwf' & Hids).
      { by apply registry_wf_createBoundingBox. }
      { intros entity' Hin. apply Hh. by right. }
      split_and!; [done | done |]. rewrite Hids.
      rewrite uuids_of_createBoundingBox by (done || congruence).
      rewrite Hu, <- app_assoc. done.
    + rewrite setup_one_skipped by (by apply eq_None_not_Some).
      by apply IH.
Qed.

(** The loop, when the ids are new and distinct: one volume per id. *)
Lemma setup_fold_tidy m o gen es b n :
  registry_tidy b → registry_consistent b → registry_pristine b →
  NoDup (handle <$> with_bounds m es) →
  (∀ entity, entity ∈ with_bounds m es →
     handle entity ≠ "" ∧ BoundingBoxManager.getMesh (handle entity) b = None) →
  registry_tidy (foldl (setup_one m o gen) (b, n) es).1 ∧
  registry_consistent (foldl (setup_one m o gen) (b, n) es).1 ∧
  registry_pristine (foldl (setup_one m o gen) (b, n) es).1 ∧
  ∀ u, is_Some (BoundingBoxManager.getMesh u (foldl (setup_one m o gen) (b, n) es).1) ↔
       is_Some (BoundingBoxManager.getMesh u b) ∨ u ∈ handle <$> with_bounds m es.
Proof.
  revert b. induction es as [| entity es IH]; intros b Ht Hc Hp Hnd Hh; cbn [foldl].
  - simpl. split_and!; try done. intros u. rewrite elem_of_nil. tauto.
  - rewrite with_bounds_cons in Hh, Hnd |- *.
    destruct (decide (is_Some (m !! ent_name entity))) as [Hb | Hb].
    + destruct (Hh entity) as [Hne Hnew]; [left |].
      destruct (setup_one_registered m o gen b n entity Hb Hne) as (e & d & Hu & ->).
      rewrite fmap_cons in Hnd. apply NoDup_cons in Hnd as [Hfirst Hnd].
      destruct (IH (BoundingBoxManager.createBoundingBox (Some e) (Some d) b).2)
        as (Ht' & Hc' & Hp' & Hdom); try done.
      { apply tidy_createBoundingBox; [done | congruence | congruence]. }
      { by apply consistent_createBoundingBox. }
      { by apply pristine_createBoundingBox. }
      { intros entity' Hin. destruct (Hh entity') as [Hne' Hnew']; [by right |].
        split; [done |]. unfold BoundingBoxManager.createBoundingBox.
        assert (String.eqb (BoundingBoxManager.uuid e) "" = false) as ->
          by (apply String.eqb_neq; congruence).
        unfold BoundingBoxManager.getMesh. simpl. rewrite lookup_insert_ne; [done |].
        rewrite Hu. intros Heq. apply Hfirst. rewrite Heq.
        by apply list_elem_of_fmap_2. }
      split_and!; try done. intros u. rewrite Hdom, fmap_cons, elem_of_cons.
      unfold BoundingBoxManager.createBoundingBox.
      assert (String.eqb (BoundingBoxManager.uuid e) "" = false) as ->
        by (apply String.eqb_neq; congruence).
      unfold BoundingBoxManager.getMesh. simpl. rewrite Hu.
      destruct (decide (u = handle entity)) as [-> | Hneq].
      * rewrite lookup_insert_eq. split; [intros _ | intros _; left; by eexists].
        right. by left.
      * rewrite lookup_insert_ne by done. tauto.
    + rewrite setup_one_skipped by (by apply eq_None_not_Some).
      by apply IH.
Qed.

Lemma fmap_inj_on_NoDup {A B} (f : A → B) (l : list A) x y :
  NoDup (f <$> l) → x ∈ l → y ∈ l → f x = f y → x = y.
Proof.
  induction l as [| a l IH]; intros Hnd Hx Hy Hf; [by apply elem_of_nil in Hx |].
  rewrite fmap_cons in Hnd. apply NoDup_cons in Hnd as [Ha Hnd].
  apply elem_of_cons in Hx as [-> | Hx]; apply elem_of_cons in Hy as [-> | Hy].
  - done.
  - exfalso. apply Ha. rewrite Hf. by apply list_elem_of_fmap_2.
  - exfalso. apply Ha. rewrite <- Hf. by apply list_elem_of_fmap_2.
  - by apply IH.
Qed.

Lemma bounds_lookup blocks n :
  is_Some (_calculateBlockDefinitionBounds blocks !! n) ↔
  ∃ bs blockDef entity vs v,
    blocks = Some bs ∧ bs !! n = Some blockDef ∧
    entity ∈ nullish (entities blockDef) [] ∧ vertices entity = Some vs ∧ v ∈ vs.
Proof.
  unfold _calculateBlockDefinitionBounds. destruct blocks as [bs |].
  - split.
    + intros [db Hdb]. apply lookup_omap_Some in Hdb as (blockDef & Hdef & Hb).
      assert (is_Some (definition_bounds blockDef)) as Hs by by eexists.
      apply definition_bounds_Some in Hs as (entity & vs & v & ? & ? & ?).
      by exists bs, blockDef, entity, vs, v.
    + intros (bs' & blockDef & entity & vs & v & [= <-] & Hb & Hrest).
      assert (is_Some (definition_bounds blockDef)) as [db Hdb].
      { apply definition_bounds_Some. by exists entity, vs, v. }
      exists db. apply lookup_omap_Some. by exists blockDef.
  - rewrite lookup_empty. split; [by intros [? ?] |].
    by intros (bs' & ? & ? & ? & ? & ? & _).
Qed.

(** X6: with a manager and an origin at hand, the loop registers one volume
    for each collected INSERT whose block has bounds, in the order of the
    document and under the entity's handle, skips the others, and draws no
    identifier when every such entity has a handle. *)
Theorem setup_registers_inserts this b o :
  boundingBoxManager this = Some b → origin this = Some o →
  BoundingBoxManager.wf b →
  (∀ entity, entity ∈ with_bounds (blockBoundingBoxMap this) (allBlockEntity this) →
             handle entity ≠ "") →
  ∃ b', boundingBoxManager (_setupAllBoundingBoxMeshes this) = Some b' ∧
        BoundingBoxManager.wf b' ∧
        BoundingBoxManager.uuids_of (BoundingBoxManager.boundingBoxMeshList b') b' =
          BoundingBoxManager.uuids_of (BoundingBoxManager.boundingBoxMeshList b) b
            ++ (handle <$> with_bounds (blockBoundingBoxMap this) (allBlockEntity this)) ∧
        generated (_setupAllBoundingBoxMeshes this) = generated this.
Proof.
  intros Hb Ho Hwf Hh. unfold _setupAllBoundingBoxMeshes. rewrite Hb, Ho.
  destruct (setup_fold (blockBoundingBoxMap this) o (generateUUID this)
              (allBlockEntity this) b (generated this) Hwf Hh) as (Hn & Hwf' & Hids).
  destruct (foldl _ _ _) as [b' n']. simpl in *. by exists b'.
Qed.

(** The manager [Load] leaves. *)
Lemma load_volumes_registry blocks dxf_entities o gen :
  NoDup (handle <$> _collectBlockEntities dxf_entities) →
  "" ∉ handle <$> _collectBlockEntities dxf_entities →
  ∃ b', boundingBoxManager (load_volumes blocks dxf_entities (Some o) gen) = Some b' ∧
        registry_tidy b' ∧ registry_consistent b' ∧ registry_pristine b' ∧
        BoundingBoxManager.uuids_of (BoundingBoxManager.boundingBoxMeshList b') b' =
          handle <$> with_bounds (_calculateBlockDefinitionBounds blocks)
                       (_collectBlockEntities dxf_entities) ∧
        ∀ u, is_Some (BoundingBoxManager.getMesh u b') ↔
             u ∈ handle <$> with_bounds (_calculateBlockDefinitionBounds blocks)
                              (_collectBlockEntities dxf_entities).
Proof.
  intros Hnd Hne. unfold load_volumes, _setupAllBoundingBoxMeshes.
  cbn [boundingBoxManager origin blockBoundingBoxMap allBlockEntity generateUUID
       generated].
  set (m := _calculateBlockDefinitionBounds blocks).
  set (es := _collectBlockEntities dxf_entities) in *.
  assert (with_bounds m es `sublist_of` es) as Hsub by apply sublist_filter.
  destruct (setup_fold_tidy m o gen es BoundingBoxManager.new 0)
    as (Ht & Hc & Hp & Hdom).
  { apply tidy_new. }
  { apply consistent_new. }
  { apply pristine_new. }
  { eapply sublist_NoDup; [exact Hnd |]. by apply fmap_sublist. }
  { intros entity Hin. split; [| done]. intros Heq. apply Hne. rewrite <- Heq.
    apply list_elem_of_fmap_2. eapply elem_of_sublist; [exact Hin | done]. }
  destruct (setup_fold m o gen es BoundingBoxManager.new 0) as (_ & _ & Hids).
  { apply registry_wf_new. }
  { intros entity Hin Heq. apply Hne. rewrite <- Heq.
    apply list_elem_of_fmap_2. eapply elem_of_sublist; [exact Hin | done]. }
  destruct (foldl _ _ _) as [b' n']. simpl in *. exists b'.
  split_and!; try done. intros u. rewrite Hdom. split; [| by right].
  intros [[? Habs] | Hh]; done.
Qed.

(** X7: when the INSERT entities of a document have handles that are not
    empty and pairwise distinct, loading gives a manager with one volume per
    id, none styled yet.  With an origin its ids are the handles of the
    entities whose block has bounds, and an INSERT has a volume exactly if
    some entity of its block definition has a vertex; without an origin
    [_setupAllBoundingBoxMeshes] returns at once and there is no volume. *)
Theorem load_one_volume_per_insert blocks dxf_entities o gen :
  NoDup (handle <$> _collectBlockEntities dxf_entities) →
  "" ∉ handle <$> _collectBlockEntities dxf_entities →
  ∃ b', boundingBoxManager (load_volumes blocks dxf_entities o gen) = Some b' ∧
        registry_tidy b' ∧ registry_consistent b' ∧ registry_pristine b' ∧
        BoundingBoxManager.uuids_of (BoundingBoxManager.boundingBoxMeshList b') b' =
          match o with
          | Some _ => handle <$> with_bounds (_calculateBlockDefinitionBounds blocks)
                                   (_collectBlockEntities dxf_entities)
          | None => []
          end ∧
        (∀ entity, entity ∈ _collectBlockEntities dxf_entities →
           is_Some (BoundingBoxManager.getMesh (handle entity) b') ↔
           is_Some o ∧
           ∃ bs blockDef inner vs v,
             blocks = Some bs ∧ bs !! ent_name entity = Some blockDef ∧
             inner ∈ nullish (entities blockDef) [] ∧
             vertices inner = Some vs ∧ v ∈ vs).
Proof.
  intros Hnd Hne. destruct o as [o |].
  - destruct (load_volumes_registry blocks dxf_entities o gen Hnd Hne)
      as (b' & Hb' & Ht & Hc & Hp & Hids & Hdom).
    exists b'. split_and!; try done. intros entity Hin.
    rewrite Hdom, <- bounds_lookup.
    set (m := _calculateBlockDefinitionBounds blocks).
    set (es := _collectBlockEntities dxf_entities) in *.
    assert (with_bounds m es `sublist_of` es) as Hsub by apply sublist_filter.
    split.
    + intros Hh. split; [by eexists |].
      apply list_elem_of_fmap in Hh as (entity' & Heq & Hin').
      assert (entity = entity') as <-.
      { apply (fmap_inj_on_NoDup handle es); try done.
        eapply elem_of_sublist; [exact Hin' | done]. }
      unfold with_bounds in Hin'. by apply list_elem_of_filter in Hin' as [? _].
    + intros [_ Hb]. apply list_elem_of_fmap_2. unfold with_bounds.
      by apply list_elem_of_filter.
  - exists BoundingBoxManager.new. split_and!.
    + done.
    + apply tidy_new.
    + apply consistent_new.
    + apply pristine_new.
    + done.
    + intros entity _. split.
      * intros [r Hr]. unfold BoundingBoxManager.getMesh, BoundingBoxManager.new in Hr.
        cbn [BoundingBoxManager.meshMap] in Hr. by rewrite lookup_empty in Hr.
      * intros [[? Ho] _]. discriminate.
Qed.
End ViewerMore.

(** ** Properties kept by every step of the controller *)

Section Preserve.
Context `{Number} `{!WorldBox}.
Import Select.

Lemma manager_select id st :
  boundingBoxManager (select id st) =
    if String.eqb id "" || Set_has id (selection st) then boundingBoxManager st
    else BoundingBoxManager.setVisualState id
           {| BoundingBoxManager.selected := true;
              BoundingBoxManager.hovered := false |} (boundingBoxManager st).
Proof. unfold select. by destruct (_ || _). Qed.

Lemma manager_deselect id st :
  boundingBoxManager (deselect id st) =
    if String.eqb id "" || negb (Set_has id (selection st)) then boundingBoxManager st
    else BoundingBoxManager.setVisualState id
           {| BoundingBoxManager.selected := false;
              BoundingBoxManager.hovered := hovered_is (hoveredEntityUUID st) id |}
           (boundingBoxManager st).
Proof. unfold deselect. by destruct (_ || _). Qed.

Lemma restyled_select id st :
  only_restyled (boundingBoxManager st) (boundingBoxManager (select id st)).
Proof.
  rewrite manager_select. destruct (_ || _);
    [apply only_restyled_refl | apply only_restyled_setVisualState].
Qed.

(** A property [P] of the controller that the primitive operations keep,
    [select] being called on ids that are [ok] only. *)
Variable P : t → Prop.
Variable ok : string → Prop.
Hypothesis P_select : ∀ u st, ok u → P st → P (select u st).
Hypothesis P_deselect : ∀ u st, P st → P (deselect u st).
Hypothesis P_hover : ∀ event hit st, P st → P (_updateHover_resume event hit st).
Hypothesis P_pending : ∀ d g p st, P st → P (with_pending d g p st).
Hypothesis P_overlay : ∀ o st, P st → P (with_overlay o st).
Hypothesis P_pointer : ∀ p st, P st → P (with_pointer p st).
Hypothesis P_event :
  ∀ xs st, P st → P (trigger "select" (new_Set xs st).1 (new_Set xs st).2).
Hypothesis ok_hit :
  ∀ event hit st u,
    P st → u ≠ "" →
    uuid_of (_getIntersectedObject_resume event hit st) st = Some u → ok u.
Hypothesis ok_listed :
  ∀ st r mesh,
    P st → r ∈ BoundingBoxManager.boundingBoxMeshList (boundingBoxManager st) →
    BoundingBoxManager.deref r (boundingBoxManager st) = Some mesh →
    entityUUID mesh ≠ "" → ok (entityUUID mesh).

Lemma keeps_deselectAll st : P st → P (deselectAll st).
Proof. intros HP. unfold deselectAll. apply foldl_invariant; [done |]. auto. Qed.

Lemma keeps_select_each xs st :
  (∀ u, u ∈ xs → ok u) → P st → P (foldl (λ this uuid, select uuid this) st xs).
Proof.
  revert st. induction xs as [| x xs IH]; intros st Hok HP; simpl; [done |].
  apply IH; [intros u Hu; apply Hok; by right |]. apply P_select; [| done].
  apply Hok. left.
Qed.

Lemma keeps_selectAll st : P st → P (selectAll st).
Proof.
  intros HP. unfold selectAll.
  set (l := BoundingBoxManager.boundingBoxMeshList (boundingBoxManager st)).
  assert (∀ l' st', P st' →
            BoundingBoxManager.boundingBoxMeshList (boundingBoxManager st') = l →
            (∀ r, r ∈ l' → r ∈ l) →
            P (foldl (λ this r,
                 match BoundingBoxManager.deref r (boundingBoxManager this) with
                 | Some mesh =>
                     if String.eqb (entityUUID mesh) "" then this
                     else select (entityUUID mesh) this
                 | None => this
                 end) st' l')) as Hloop.
  { induction l' as [| r l' IH]; intros st' HP' Hl Hsub; simpl; [done |].
    assert (r ∈ l) as Hr by (apply Hsub; left).
    assert (∀ x, x ∈ l' → x ∈ l) as Hsub' by (intros x Hx; apply Hsub; by right).
    destruct (BoundingBoxManager.deref r (boundingBoxManager st')) as [mesh |] eqn:Hm;
      [| by apply IH].
    destruct (String.eqb (entityUUID mesh) "") eqn:Hu; [by apply IH |].
    apply String.eqb_neq in Hu. apply IH; [| | done].
    - apply P_select; [| done]. apply (ok_listed st' r mesh); try done. by rewrite Hl.
    - destruct (restyled_select (entityUUID mesh) st') as (_ & -> & _). done. }
  by apply Hloop.
Qed.

Lemma keeps_click u multi st :
  ok u → P st → P (_performSingleClickSelection u multi st).
Proof.
  intros Hok HP. unfold _performSingleClickSelection. destruct multi.
  - destruct (Set_has u (selection st)); auto.
  - destruct (negb _); [apply P_select; [done |] |]; by apply keeps_deselectAll.
Qed.

Lemma keeps_box p q multi st : P st → P (_performBoxSelection p q multi st).
Proof.
  intros HP. unfold _performBoxSelection.
  destruct (_get3DSelectionBox p q st) as [box |]; [| done].
  assert (∀ u, u ∈ entitiesInBox box st → ok u) as Hok.
  { intros u (r & mesh & Hr & Hm & <- & Hne & _)%entitiesInBox_elem.
    by apply (ok_listed st r mesh). }
  destruct (negb multi); apply keeps_select_each; try done.
  by apply keeps_deselectAll.
Qed.

Lemma keeps_begin event st : P st → P (_getIntersectedObject_begin event st).
Proof. intros HP. unfold _getIntersectedObject_begin. destruct (target event); auto. Qed.

Lemma keeps_finish event st : P st → P (_onPointerUp_finish event st).1.
Proof.
  intros HP. unfold _onPointerUp_finish, _updateHover.
  pose proof (P_event (selection (_getIntersectedObject_begin event st)) _
                (keeps_begin event st HP)) as HP'.
  by destruct (new_Set _ _).
Qed.

Lemma keeps_resume_click event multi hit st :
  P st → P (_onPointerUp_resume event multi hit st).1.
Proof.
  intros HP. unfold _onPointerUp_resume.
  assert (P (if negb multi then deselectAll st else st)) as Hmiss.
  { destruct (negb multi); [by apply keeps_deselectAll | done]. }
  destruct (uuid_of _ st) as [u |] eqn:Hu; [| by apply keeps_finish].
  destruct (negb (String.eqb u "")) eqn:Hne; [| by apply keeps_finish].
  apply keeps_finish, keeps_click; [| done].
  apply negb_true_iff, String.eqb_neq in Hne. by apply (ok_hit event hit st u).
Qed.

Lemma keeps_keydown event st : P st → P (_onKeyDown event st).1.
Proof.
  intros HP. unfold _onKeyDown. destruct (String.eqb _ "Escape").
  - pose proof (P_event [] _ (keeps_deselectAll st HP)) as HP'.
    by destruct (new_Set [] (deselectAll st)).
  - destruct (_ && _); [| done].
    pose proof (P_event (selection (selectAll st)) _ (keeps_selectAll st HP)) as HP'.
    by destruct (new_Set _ (selectAll st)).
Qed.

Lemma keeps_pointer_up event st : P st → P (_onPointerUp event st).1.
Proof.
  intros HP. unfold _onPointerUp. destruct (_ || _); [done |].
  assert (P (_removeSelectionBox (with_pending false false (_startPoint st) st)))
    as HP' by (apply P_overlay, P_pending, HP).
  destruct (_isDragging st).
  - by apply keeps_finish, keeps_box.
  - by apply keeps_begin.
Qed.

(** Every step but [dispose] keeps [P], when the host calls [select] on
    ids that are [ok] only. *)
Lemma keeps_deliver i w :
  i ≠ Call_dispose → (∀ u, i = Call_select u → ok u) →
  P (controller w) → P (controller (deliver i w)).
Proof.
  intros Hnd Hok HP.
  destruct i as [event | event | event | event | event | id | id | | | | k hit];
    cbn -[_onPointerUp _onPointerUp_resume _onKeyDown _updateHover_resume].
  - unfold _onPointerDown. destruct (_ || _); auto.
  - unfold _onPointerMove, _updateHover, _drawSelectionBox.
    destruct (negb _); simpl; [by apply keeps_begin | by apply P_overlay, P_pending].
  - pose proof (keeps_pointer_up event _ HP) as HP'. by destruct (_onPointerUp _ _).
  - by apply keeps_keydown.
  - done.
  - apply P_select; [by apply Hok | done].
  - by apply P_deselect.
  - by apply keeps_deselectAll.
  - by apply keeps_selectAll.
  - done.
  - destruct (awaiting w !! k) as [[event multi | event] |]; [| | done].
    + unfold resume. pose proof (keeps_resume_click event multi hit _ HP) as HP'.
      by destruct (_onPointerUp_resume _ _ _ _).
    + simpl. by apply P_hover.
Qed.

Lemma keeps_step i w :
  i ≠ Call_dispose → (∀ u, i = Call_select u → ok u) →
  P (controller w) → P (controller (step i w)).
Proof.
  intros. unfold step. destruct (heard i w); [by apply keeps_deliver | done].
Qed.

Lemma keeps_run inputs w :
  Call_dispose ∉ inputs → (∀ u, Call_select u ∈ inputs → ok u) →
  P (controller w) → P (controller (run inputs w)).
Proof.
  unfold run. revert w. induction inputs as [| i inputs IH]; intros w Hnd Hok HP;
    simpl; [done |].
  apply not_elem_of_cons in Hnd as [Hi Hnd]. apply IH; [done | |].
  - intros u Hu. apply Hok. by right.
  - apply keeps_step; [congruence | | done]. intros u ->. apply Hok. left.
Qed.

(** The same for every step, when [dispose] keeps [P] too. *)
Lemma keeps_run_all inputs w :
  (∀ st, P st → P (dispose st)) → (∀ u, Call_select u ∈ inputs → ok u) →
  P (controller w) → P (controller (run inputs w)).
Proof.
  intros Hdis. unfold run. revert w.
  induction inputs as [| i inputs IH]; intros w Hok HP; simpl; [done |].
  apply IH; [intros u Hu; apply Hok; by right |].
  assert (i = Call_dispose ∨ i ≠ Call_dispose) as [-> | Hi]
    by (destruct i; (by left) || (by right)).
  - unfold step. destruct (heard _ w); [by apply Hdis | done].
  - apply keeps_step; [done | | done]. intros u ->. apply Hok. left.
Qed.
End Preserve.

(** ** The registry and the hovered id along a run *)

Section AlongRuns.
Context `{Number} `{!WorldBox}.
Import Select.

(** What a hover update does when the hovered id changes: at most two
    restyles, and the new hovered id. *)
Lemma hover_resume_changed event hit st :
  let hoveredUUID := uuid_of (_getIntersectedObject_resume event hit st) st in
  let new := match hoveredUUID with Some u => js_uuid u | None => js_undefined end in
  let b1 := match truthy_selected_not (hoveredEntityUUID st) st with
            | Some p => BoundingBoxManager.setVisualState p
                          {| BoundingBoxManager.selected := false;
                             BoundingBoxManager.hovered := false |}
                          (boundingBoxManager st)
            | None => boundingBoxManager st
            end in
  let b2 := match truthy_selected_not new st with
            | Some n => BoundingBoxManager.setVisualState n
                          {| BoundingBoxManager.selected := false;
                             BoundingBoxManager.hovered := true |} b1
            | None => b1
            end in
  _updateHover_resume event hit st =
    if hovered_eq (hoveredEntityUUID st) hoveredUUID then st
    else with_manager b2 (with_hovered new st).
Proof.
  intros hoveredUUID new b1 b2. unfold _updateHover_resume. fold hoveredUUID.
  destruct (hovered_eq _ _); [done |]. fold new. subst b2 b1.
  destruct (truthy_selected_not (hoveredEntityUUID st) st) as [p |]; cbv zeta.
  - change (truthy_selected_not
              (hoveredEntityUUID (with_hovered new (with_manager _ st)))
              (with_hovered new (with_manager _ st)))
      with (truthy_selected_not new st).
    by destruct (truthy_selected_not new st).
  - change (truthy_selected_not (hoveredEntityUUID (with_hovered new st))
              (with_hovered new st))
      with (truthy_selected_not new st).
    destruct (truthy_selected_not new st); by destruct st.
Qed.

Lemma restyled_deselect id st :
  only_restyled (boundingBoxManager st) (boundingBoxManager (deselect id st)).
Proof.
  rewrite manager_deselect. destruct (_ || _);
    [apply only_restyled_refl | apply only_restyled_setVisualState].
Qed.

Lemma restyled_hover event hit st :
  only_restyled (boundingBoxManager st)
                (boundingBoxManager (_updateHover_resume event hit st)).
Proof.
  rewrite hover_resume_changed. destruct (hovered_eq _ _); [apply only_restyled_refl |].
  cbn [boundingBoxManager with_manager].
  set (new := match uuid_of (_getIntersectedObject_resume event hit st) st with
              | Some u => js_uuid u
              | None => js_undefined
              end).
  destruct (truthy_selected_not new st);
    destruct (truthy_selected_not (hoveredEntityUUID st) st).
  - exact (only_restyled_trans _ _ _ (only_restyled_setVisualState _ _ _)
             (only_restyled_setVisualState _ _ _)).
  - apply only_restyled_setVisualState.
  - apply only_restyled_setVisualState.
  - apply only_restyled_refl.
Qed.

(** X8: whatever reaches the controller, it only restyles: the map, the
    list and the scene of the manager and the placement of every mesh are
    after a run what they were before. *)
Theorem controller_only_restyles inputs w :
  only_restyled (boundingBoxManager (controller w))
                (boundingBoxManager (controller (run inputs w))).
Proof.
  apply (keeps_run_all
           (λ st, only_restyled (boundingBoxManager (controller w)) (boundingBoxManager st))
           (λ _, True)); try done.
  - intros u st _ HP. eapply only_restyled_trans; [done | apply restyled_select].
  - intros u st HP. eapply only_restyled_trans; [done | apply restyled_deselect].
  - intros event hit st HP. eapply only_restyled_trans; [done | apply restyled_hover].
Qed.

(** The id of a hit is registered. *)
Lemma hit_registered event hit st u :
  uuid_of (_getIntersectedObject_resume event hit st) st = Some u →
  is_Some (BoundingBoxManager.meshMap (boundingBoxManager st) !! u).
Proof.
  unfold uuid_of, _getIntersectedObject_resume.
  destruct (target event); [| done]. destruct hit as [r |]; [| done]. simpl.
  destruct (BoundingBoxManager.deref r (boundingBoxManager st)) as [mesh |] eqn:Hm;
    [| done]. simpl.
  destruct (bool_decide _) eqn:Hk; [| done]. simpl. rewrite Hm. simpl.
  intros [= <-]. by apply bool_decide_eq_true in Hk.
Qed.

Lemma hovered_registered_restyled st st' :
  hoveredEntityUUID st' = hoveredEntityUUID st →
  only_restyled (boundingBoxManager st) (boundingBoxManager st') →
  hovered_registered st → hovered_registered st'.
Proof. unfold hovered_registered. intros -> (-> & _). done. Qed.

(** X9: the hovered id is at every moment null, undefined or the id of a
    registered volume. *)
Theorem hovered_id_is_registered inputs w :
  hovered_registered (controller w) →
  hovered_registered (controller (run inputs w)).
Proof.
  apply (keeps_run_all hovered_registered (λ _, True)); try done.
  - intros u st _. apply hovered_registered_restyled;
      [apply (frame_hovered _ _ (frame_select u st)) | apply restyled_select].
  - intros u st. apply hovered_registered_restyled;
      [apply (frame_hovered _ _ (frame_deselect u st)) | apply restyled_deselect].
  - intros event hit st Hst.
    pose proof (restyled_hover event hit st) as (Hmap & _). revert Hmap.
    rewrite hover_resume_changed. destruct (hovered_eq _ _); [done |].
    unfold hovered_registered. cbn [hoveredEntityUUID with_manager with_hovered].
    intros ->. destruct (uuid_of _ st) as [u |] eqn:Hu; [| done].
    by apply (hit_registered event hit).
Qed.
End AlongRuns.

(** ** Selected wins over Hovered *)

Section Styled.
Context `{Number} `{!WorldBox}.
Import Select.

Lemma styled_by_ext f g b :
  (∀ v, is_Some (BoundingBoxManager.meshMap b !! v) → f v = g v) →
  styled_by f b → styled_by g b.
Proof.
  intros Hfg Hf u r mesh Hu Hm. rewrite <- Hfg by by eexists.
  exact (Hf u r mesh Hu Hm).
Qed.

(** One restyle, for the id whose expected material changes. *)
Lemma styled_by_setVisualState f f' u state b :
  registry_consistent b → styled_by f b →
  (∀ v, v ≠ u → is_Some (BoundingBoxManager.meshMap b !! v) → f' v = f v) →
  f' u = material_of state →
  styled_by f' (BoundingBoxManager.setVisualState u state b).
Proof.
  intros [_ Hcons] Hf Hother Hu v r mesh' Hv Hm'.
  rewrite setVisualState_meshMap in Hv.
  destruct (BoundingBoxManager.meshMap b !! u) as [ru |] eqn:Hru.
  - destruct (decide (r = ru)) as [-> | Hne].
    + destruct (Hcons _ _ Hv) as (mesh0 & Hm0 & Hv0).
      destruct (Hcons _ _ Hru) as (mesh1 & Hm1 & Hu1).
      assert (v = u) as -> by congruence.
      rewrite (setVisualState_registered u state b ru mesh0 Hru Hm0) in Hm'.
      injection Hm' as <-. rewrite Hu. apply restyle_material.
    + rewrite (setVisualState_other u state b ru r Hru Hne) in Hm'.
      assert (v ≠ u) as Hvu by congruence.
      rewrite Hother by (done || by eexists). exact (Hf v r mesh' Hv Hm').
  - rewrite setVisualState_unregistered in Hm' by done.
    assert (v ≠ u) as Hvu by congruence.
    rewrite Hother by (done || by eexists). exact (Hf v r mesh' Hv Hm').
Qed.

Lemma Set_has_add_ne u v s : v ≠ u → Set_has v (Set_add u s) = Set_has v s.
Proof.
  intros Hne. apply eq_true_iff_eq. rewrite !Set_has_true, Set_add_elem.
  intuition congruence.
Qed.

Lemma Set_has_delete_ne u v s : v ≠ u → Set_has v (Set_delete u s) = Set_has v s.
Proof.
  intros Hne. apply eq_true_iff_eq. rewrite !Set_has_true, Set_delete_elem.
  intuition congruence.
Qed.

Lemma styled_select u st :
  registry_consistent (boundingBoxManager st) → styled st → styled (select u st).
Proof.
  intros Hc Hs. unfold select.
  destruct (String.eqb u "" || Set_has u (selection st)) eqn:E; [done |].
  unfold styled. cbn [boundingBoxManager with_manager mutate with_sets].
  apply (styled_by_setVisualState (λ v, expected_material v st)); [done | done | |].
  - intros v Hv _. unfold expected_material, isSelected.
    rewrite selection_with_manager, selection_mutate. by rewrite Set_has_add_ne.
  - unfold expected_material, isSelected.
    rewrite selection_with_manager, selection_mutate.
    assert (Set_has u (Set_add u (selection st)) = true) as ->; [| done].
    apply Set_has_true, Set_add_elem. by left.
Qed.

Lemma styled_deselect u st :
  registry_consistent (boundingBoxManager st) → styled st → styled (deselect u st).
Proof.
  intros Hc Hs. unfold deselect.
  destruct (String.eqb u "" || negb (Set_has u (selection st))) eqn:E; [done |].
  unfold styled. cbn [boundingBoxManager with_manager mutate with_sets].
  apply (styled_by_setVisualState (λ v, expected_material v st)); [done | done | |].
  - intros v Hv _. unfold expected_material, isSelected.
    rewrite selection_with_manager, selection_mutate. by rewrite Set_has_delete_ne.
  - unfold expected_material, isSelected, material_of.
    rewrite selection_with_manager, selection_mutate.
    assert (Set_has u (Set_delete u (selection st)) = false) as ->.
    { apply Set_has_false. rewrite Set_delete_elem. by intros [? _]. }
    cbn. by destruct (hovered_is _ u).
Qed.

(** When nothing is to be restyled for a hovered id, the id is not that of
    an unselected registered volume. *)
Lemma not_restyled_not_hovered h st v :
  truthy_selected_not h st = None → v ≠ "" → isSelected v st = false →
  hovered_is h v = false.
Proof.
  unfold truthy_selected_not, hovered_is, isSelected.
  destruct h as [| | q]; try done. intros Hnone Hv Hsel.
  destruct (String.eqb q v) eqn:E; [| done]. apply String.eqb_eq in E as ->.
  apply String.eqb_neq in Hv. by rewrite Hv, Hsel in Hnone.
Qed.

Lemma restyled_is_hovered h st p :
  truthy_selected_not h st = Some p →
  h = js_uuid p ∧ p ≠ "" ∧ isSelected p st = false.
Proof.
  unfold truthy_selected_not, isSelected. destruct h as [| | q]; try done.
  destruct (String.eqb q "") eqn:E; [done |]. apply String.eqb_neq in E.
  destruct (Set_has q (selection st)) eqn:Hs; [done |]. simpl. by intros [= <-].
Qed.

Lemma styled_hover event hit st :
  registry_consistent (boundingBoxManager st) → styled st →
  styled (_updateHover_resume event hit st).
Proof.
  intros Hc Hs. rewrite hover_resume_changed. destruct (hovered_eq _ _); [done |].
  set (new := match uuid_of (_getIntersectedObject_resume event hit st) st with
              | Some u => js_uuid u
              | None => js_undefined
              end).
  unfold styled. cbn [boundingBoxManager with_manager].
  set (f1 := λ v, if isSelected v st then material_selected else material_default).
  set (b1 := match truthy_selected_not (hoveredEntityUUID st) st with
             | Some p => BoundingBoxManager.setVisualState p
                           {| BoundingBoxManager.selected := false;
                              BoundingBoxManager.hovered := false |}
                           (boundingBoxManager st)
             | None => boundingBoxManager st
             end).
  assert (BoundingBoxManager.meshMap b1 = BoundingBoxManager.meshMap (boundingBoxManager st))
    as Hmap.
  { subst b1. destruct (truthy_selected_not (hoveredEntityUUID st) st);
      [apply setVisualState_meshMap | done]. }
  assert (registry_consistent b1) as Hc1.
  { subst b1. destruct (truthy_selected_not (hoveredEntityUUID st) st);
      [by apply consistent_setVisualState | done]. }
  assert (styled_by f1 b1) as Hs1.
  { subst b1. destruct (truthy_selected_not (hoveredEntityUUID st) st) as [p |] eqn:Hp.
    - apply restyled_is_hovered in Hp as (Hh & Hpne & Hpsel).
      apply (styled_by_setVisualState (λ v, expected_material v st)); [done | done | |].
      + intros v Hv _. unfold f1, expected_material. rewrite Hh.
        destruct (isSelected v st); [done |]. unfold hovered_is.
        assert (String.eqb p v = false) as -> by (apply String.eqb_neq; congruence). done.
      + unfold f1, material_of. by rewrite Hpsel.
    - apply (styled_by_ext (λ v, expected_material v st)); [| done].
      intros v Hv. unfold f1, expected_material.
      destruct (isSelected v st) eqn:Hsel; [done |].
      rewrite (not_restyled_not_hovered _ st v Hp); [done | | done].
      intros ->. destruct Hc as [Hempty _]. rewrite Hempty in Hv. by destruct Hv. }
  assert (∀ v, expected_material v (with_manager
             match truthy_selected_not new st with
             | Some n => BoundingBoxManager.setVisualState n
                           {| BoundingBoxManager.selected := false;
                              BoundingBoxManager.hovered := true |} b1
             | None => b1
             end (with_hovered new st)) =
           if isSelected v st then material_selected
           else if hovered_is new v then material_hover else material_default)
    as Hexp by done.
  destruct (truthy_selected_not new st) as [n |] eqn:Hn.
  - apply restyled_is_hovered in Hn as (Hh & Hnne & Hnsel).
    apply (styled_by_setVisualState f1); [done | done | |].
    + intros v Hv _. rewrite Hexp. unfold f1. destruct (isSelected v st); [done |].
      rewrite Hh. unfold hovered_is.
      assert (String.eqb n v = false) as -> by (apply String.eqb_neq; congruence). done.
    + rewrite Hexp, Hnsel, Hh. unfold hovered_is. by rewrite String.eqb_refl.
  - apply (styled_by_ext f1); [| done]. intros v Hv. rewrite Hexp. unfold f1.
    destruct (isSelected v st) eqn:Hsel; [done |].
    rewrite (not_restyled_not_hovered _ st v Hn); [done | | done].
    intros ->. rewrite Hmap in Hv. destruct Hc as [Hempty _]. rewrite Hempty in Hv.
    by destruct Hv.
Qed.

Lemma consistent_select u st :
  registry_consistent (boundingBoxManager st) →
  registry_consistent (boundingBoxManager (select u st)).
Proof.
  intros Hc. rewrite manager_select. destruct (_ || _); [done |].
  by apply consistent_setVisualState.
Qed.

Lemma consistent_deselect u st :
  registry_consistent (boundingBoxManager st) →
  registry_consistent (boundingBoxManager (deselect u st)).
Proof.
  intros Hc. rewrite manager_deselect. destruct (_ || _); [done |].
  by apply consistent_setVisualState.
Qed.

Lemma consistent_hover event hit st :
  registry_consistent (boundingBoxManager st) →
  registry_consistent (boundingBoxManager (_updateHover_resume event hit st)).
Proof.
  intros Hc. rewrite hover_resume_changed. destruct (hovered_eq _ _); [done |].
  cbn [boundingBoxManager with_manager].
  set (new := match uuid_of (_getIntersectedObject_resume event hit st) st with
              | Some u => js_uuid u
              | None => js_undefined
              end).
  destruct (truthy_selected_not new st);
    destruct (truthy_selected_not (hoveredEntityUUID st) st);
    repeat apply consistent_setVisualState; done.
Qed.

(** A controller built on a manager without styles. *)
Lemma styled_new c cam b : registry_pristine b → styled (new c cam b).
Proof.
  intros Hp u r mesh Hu Hm. rewrite (Hp r mesh Hm). split; [| done].
  unfold expected_material, isSelected, selection, contents. simpl.
  by rewrite lookup_singleton_eq.
Qed.

End Styled.

(** ** Snapshots, registered selections and the pointer state *)

Section MoreRuns.
Context `{Number} `{!WorldBox}.
Import Select.

Lemma sets_select u st :
  sets (select u st) = sets st ∨
  ∃ s, sets (select u st) = <[selectedEntities st := s]> (sets st).
Proof. unfold select. destruct (_ || _); [by left | right]. by eexists. Qed.

Lemma sets_deselect u st :
  sets (deselect u st) = sets st ∨
  ∃ s, sets (deselect u st) = <[selectedEntities st := s]> (sets st).
Proof. unfold deselect. destruct (_ || _); [by left | right]. by eexists. Qed.

Lemma sets_hover event hit st : sets (_updateHover_resume event hit st) = sets st.
Proof. rewrite hover_resume_changed. by destruct (hovered_eq _ _). Qed.

Lemma selectedEntities_hover event hit st :
  selectedEntities (_updateHover_resume event hit st) = selectedEntities st.
Proof. rewrite hover_resume_changed. by destruct (hovered_eq _ _). Qed.

(** X11: a set handed to the subscribers is never written by the
    controller: whatever happens later, [dispose] included, its contents
    stay. *)
Theorem snapshot_is_kept inputs w l c :
  l ≠ selectedEntities (controller w) →
  selectedEntities (controller w) ∈ dom (sets (controller w)) →
  sets (controller w) !! l = Some c →
  sets (controller (run inputs w)) !! l = Some c.
Proof.
  intros Hl Hr Hc. set (r0 := selectedEntities (controller w)) in *.
  assert (∀ st s, selectedEntities st = r0 ∧ r0 ∈ dom (sets st) ∧ sets st !! l = Some c →
            r0 ∈ dom (<[r0 := s]> (sets st)) ∧ <[r0 := s]> (sets st) !! l = Some c)
    as Hput.
  { intros st s (_ & Hd & Hc'). rewrite dom_insert_L, lookup_insert_ne by done.
    split; [set_solver | done]. }
  apply (keeps_run_all
           (λ st, selectedEntities st = r0 ∧ r0 ∈ dom (sets st) ∧ sets st !! l = Some c)
           (λ _, True)); try done.
  - intros u st _ HP. pose proof HP as (Hs & Hd & Hc').
    rewrite (frame_selectedEntities _ _ (frame_select u st)).
    destruct (sets_select u st) as [-> | [s ->]]; [done |]. rewrite Hs.
    split; [done | by apply (Hput st)].
  - intros u st HP. pose proof HP as (Hs & Hd & Hc').
    rewrite (frame_selectedEntities _ _ (frame_deselect u st)).
    destruct (sets_deselect u st) as [-> | [s ->]]; [done |]. rewrite Hs.
    split; [done | by apply (Hput st)].
  - intros event hit st HP. by rewrite selectedEntities_hover, sets_hover.
  - intros xs st (Hs & Hd & Hc'). unfold new_Set. simpl. split; [done |].
    rewrite dom_insert_L. split; [apply elem_of_union; by right |].
    rewrite lookup_insert_ne; [done |]. intros Heq.
    apply (is_fresh (dom (sets st))). rewrite Heq. apply elem_of_dom. by eexists.
  - intros st HP. pose proof HP as (Hs & Hd & Hc'). unfold dispose. simpl.
    split; [done |]. rewrite Hs. by apply (Hput st).
Qed.

Lemma selection_hover event hit st :
  selection (_updateHover_resume event hit st) = selection st.
Proof. unfold selection, contents. by rewrite selectedEntities_hover, sets_hover. Qed.

Lemma registry_wf_hover event hit st :
  BoundingBoxManager.wf (boundingBoxManager st) →
  BoundingBoxManager.wf (boundingBoxManager (_updateHover_resume event hit st)).
Proof.
  intros Hwf. rewrite hover_resume_changed. destruct (hovered_eq _ _); [done |].
  cbn [boundingBoxManager with_manager].
  set (new := match uuid_of (_getIntersectedObject_resume event hit st) st with
              | Some u => js_uuid u
              | None => js_undefined
              end).
  destruct (truthy_selected_not new st);
    destruct (truthy_selected_not (hoveredEntityUUID st) st);
    repeat apply registry_wf_setVisualState; done.
Qed.

(** X12: as long as the host calls [select] on registered ids only, every
    selected id is registered: no click, box, key or hover brings an id
    without a volume into the selection. *)
Theorem input_selects_registered_ids inputs w :
  wf (controller w) →
  BoundingBoxManager.wf (boundingBoxManager (controller w)) →
  selection_registered (controller w) →
  (∀ u, Call_select u ∈ inputs →
        is_Some (BoundingBoxManager.getMesh u (boundingBoxManager (controller w)))) →
  selection_registered (controller (run inputs w)).
Proof.
  intros Hwf Hreg Hsel Hcalls.
  set (m0 := BoundingBoxManager.meshMap (boundingBoxManager (controller w))).
  assert (wf (controller (run inputs w)) ∧
          BoundingBoxManager.wf (boundingBoxManager (controller (run inputs w))) ∧
          BoundingBoxManager.meshMap (boundingBoxManager (controller (run inputs w))) = m0 ∧
          ∀ u, u ∈ selection (controller (run inputs w)) → is_Some (m0 !! u))
    as (_ & _ & Hm & Hin).
  { apply (keeps_run_all
             (λ st, wf st ∧ BoundingBoxManager.wf (boundingBoxManager st) ∧
                    BoundingBoxManager.meshMap (boundingBoxManager st) = m0 ∧
                    ∀ u, u ∈ selection st → is_Some (m0 !! u))
             (λ u, is_Some (m0 !! u))); try done.
    - intros u st Hu (Hwf' & Hreg' & Hm' & Hsel'). split_and!.
      + by apply wf_select.
      + by apply registry_wf_frame.
      + by destruct (restyled_select u st) as (-> & _).
      + intros v. rewrite selection_select. destruct (_ || _); [apply Hsel' |].
        intros [Hv | ->%list_elem_of_singleton]%elem_of_app; [by apply Hsel' | done].
    - intros u st (Hwf' & Hreg' & Hm' & Hsel'). split_and!.
      + by apply wf_deselect.
      + by apply registry_wf_frame.
      + by destruct (restyled_deselect u st) as (-> & _).
      + intros v. rewrite selection_deselect. destruct (String.eqb u ""); [apply Hsel' |].
        intros [_ Hv]%Set_delete_elem. by apply Hsel'.
    - intros event hit st (Hwf' & Hreg' & Hm' & Hsel'). split_and!.
      + by apply wf_hover_resume.
      + by apply registry_wf_hover.
      + by destruct (restyled_hover event hit st) as (-> & _).
      + by rewrite selection_hover.
    - intros xs st (Hwf' & Hreg' & Hm' & Hsel'). split_and!; [| done | done |].
      + pose proof (wf_new_Set xs st Hwf'). by destruct (new_Set xs st).
      + change (selection (trigger "select" (new_Set xs st).1 (new_Set xs st).2))
          with (selection (new_Set xs st).2).
        by rewrite selection_new_Set.
    - intros event hit st u (_ & _ & Hm' & _) _ Hhit. rewrite <- Hm'.
      by apply (hit_registered event hit).
    - intros st r mesh (_ & Hreg' & Hm' & _) Hr Hmesh _.
      destruct (Hreg' r Hr) as (mesh' & Hmesh' & _ & Hk). rewrite <- Hm'. congruence.
    - intros st (Hwf' & Hreg' & Hm' & Hsel'). split_and!; [by apply wf_dispose | done | done |].
      intros u. unfold dispose.
      change (selection (with_hovered js_null
                (mutate (selectedEntities (_removeSelectionBox (with_listening false st)))
                   (λ _, []) (_removeSelectionBox (with_listening false st)))))
        with (selection (mutate (selectedEntities st) (λ _, [])
                (_removeSelectionBox (with_listening false st)))).
      unfold selection, contents, mutate. simpl. rewrite lookup_insert_eq. simpl.
      intros Hu. by apply elem_of_nil in Hu. }
  intros u Hu. rewrite Hm. by apply Hin.
Qed.
End MoreRuns.

Section PointerState.
Context `{Number} `{!WorldBox}.
Import Select.

Lemma pointer_state_frame st st' :
  selection_frame st st' → pointer_state st' = pointer_state st.
Proof. by intros ->. Qed.

Lemma pointer_state_hover event hit st :
  pointer_state (_updateHover_resume event hit st) = pointer_state st.
Proof. rewrite hover_resume_changed. by destruct (hovered_eq _ _). Qed.

Lemma pointer_state_begin event st :
  pointer_state (_getIntersectedObject_begin event st) = pointer_state st.
Proof. unfold _getIntersectedObject_begin. by destruct (target event). Qed.

Lemma pointer_state_finish event st :
  pointer_state (_onPointerUp_finish event st).1 = pointer_state st.
Proof.
  unfold _onPointerUp_finish, _updateHover. cbn -[_getIntersectedObject_begin].
  apply pointer_state_begin.
Qed.

Lemma pointer_state_resume a hit st :
  pointer_state (resume a hit st).1 = pointer_state st.
Proof.
  destruct a as [event multi | event]; unfold resume.
  - unfold _onPointerUp_resume. rewrite pointer_state_finish.
    destruct (uuid_of _ st) as [u |]; [destruct (negb (String.eqb u "")) |];
      try (destruct (negb multi)); try done;
      apply pointer_state_frame;
      auto using frame_click, frame_deselectAll.
  - apply pointer_state_hover.
Qed.

Lemma pointer_state_keydown event st :
  pointer_state (_onKeyDown event st).1 = pointer_state st.
Proof.
  unfold _onKeyDown. destruct (String.eqb (key event) "Escape").
  - change (pointer_state (deselectAll st) = pointer_state st).
    apply pointer_state_frame, frame_deselectAll.
  - destruct (_ && _); [| done].
    change (pointer_state (selectAll st) = pointer_state st).
    apply pointer_state_frame, frame_selectAll.
Qed.

Lemma pointer_state_up event st :
  _isMouseDown st = true → button event = 0%Z →
  pointer_state (_onPointerUp event st).1 = (false, false, None).
Proof.
  intros Hd Hb. unfold _onPointerUp. rewrite Hd, Hb. cbn [negb orb Z.eqb].
  destruct (_isDragging st).
  - rewrite pointer_state_finish.
    erewrite pointer_state_frame by apply frame_box. done.
  - cbn [fst]. by rewrite pointer_state_begin.
Qed.

(** X13: a drag is under way, and the rubber band is shown, only while the
    button is held, whatever the inputs; and the release of the left button
    that the controller hears while it is held leaves nothing pending:
    button up, no drag, no rubber band. *)
Theorem rubber_band_only_while_pressed inputs w :
  pressed_while_dragging (controller w) →
  pressed_while_dragging (controller (run inputs w)) ∧
  ∀ event,
    listening (controller (run inputs w)) = true →
    _isMouseDown (controller (run inputs w)) = true →
    button event = 0%Z →
    pointer_state (controller (step (PointerUp event) (run inputs w)))
      = (false, false, None).
Proof.
  intros Hw.
  assert (pressed_while_dragging (controller (run inputs w))) as Hrun.
  { assert (∀ st st', pointer_state st' = pointer_state st →
              pressed_while_dragging st → pressed_while_dragging st') as Hsame.
    { intros st st' Heq. unfold pressed_while_dragging.
      injection Heq as -> -> ->. done. }
    revert w Hw. induction inputs as [| i inputs IH]; intros w Hw; [done |].
    cbn [run foldl]. apply IH. unfold step. destruct (heard i w); [| done].
    destruct i as [event | event | event | event | event | u | u | | | | k hit];
      unfold deliver.
    - cbn [controller]. unfold _onPointerDown. destruct (_ || _); [done |].
      by intros _.
    - destruct (_onPointerMove event (controller w)) as [st aw] eqn:E. cbn [controller].
      unfold _onPointerMove in E. destruct (_isMouseDown (controller w)) eqn:Hd.
      + injection E as <- _. by intros _.
      + cbn [negb] in E. injection E as <- _.
        by apply (Hsame (controller w)); [apply pointer_state_begin |].
    - destruct (_onPointerUp event (controller w)) as [st aw] eqn:E. cbn [controller].
      change st with (st, aw).1. rewrite <- E. clear E.
      destruct (negb (_isMouseDown (controller w)) || negb (button event =? 0)%Z) eqn:C.
      + unfold _onPointerUp. by rewrite C.
      + apply orb_false_elim in C as [Hd Hb].
        apply negb_false_iff in Hd. apply negb_false_iff, Z.eqb_eq in Hb.
        pose proof (pointer_state_up event (controller w) Hd Hb) as Hp.
        unfold pressed_while_dragging. injection Hp as -> -> ->.
        by intros [? | ?].
    - cbn [controller]. by apply (Hsame (controller w)); [apply pointer_state_keydown |].
    - done.
    - cbn [controller].
      by apply (Hsame (controller w)); [apply pointer_state_frame, frame_select |].
    - cbn [controller].
      by apply (Hsame (controller w)); [apply pointer_state_frame, frame_deselect |].
    - cbn [controller].
      by apply (Hsame (controller w)); [apply pointer_state_frame, frame_deselectAll |].
    - cbn [controller].
      by apply (Hsame (controller w)); [apply pointer_state_frame, frame_selectAll |].
    - cbn [controller]. unfold pressed_while_dragging, dispose. cbn.
      intros [Hdrag | Hbox]; [| done]. apply Hw. by left.
    - destruct (awaiting w !! k) as [a |]; [| done].
      destruct (resume a hit (controller w)) as [st aw] eqn:E. cbn [controller].
      change st with (st, aw).1. rewrite <- E.
      by apply (Hsame (controller w)); [apply pointer_state_resume |]. }
  split; [done |]. intros event Hl Hd Hb.
  unfold step, heard. rewrite Hl. cbn [dom_event negb orb]. unfold deliver.
  pose proof (pointer_state_up event (controller (run inputs w)) Hd Hb) as Hp.
  by destruct (_onPointerUp event (controller (run inputs w))).
Qed.
End PointerState.

(** ** Gestures *)

Section Gestures.
Context `{Number} `{!WorldBox}.
Import Select.

Lemma selection_click_toggle E st :
  E ≠ "" →
  selection (_performSingleClickSelection E true st) =
    if Set_has E (selection st) then Set_delete E (selection st)
    else selection st ++ [E].
Proof.
  intros HE%String.eqb_neq. unfold _performSingleClickSelection.
  destruct (Set_has E (selection st)) eqn:Hhas.
  - by rewrite selection_deselect, HE.
  - by rewrite selection_select, HE, Hhas.
Qed.

(** X14: a click with the modifier on E toggles E and touches no other id:
    E joins the selection when it was out and leaves it when it was in; a
    second such click gives the first membership back. *)
Theorem modifier_click_toggles E st y :
  E ≠ "" →
  (y ∈ selection (_performSingleClickSelection E true st) ↔
     (y ≠ E ∧ y ∈ selection st) ∨ (y = E ∧ E ∉ selection st)) ∧
  (y ∈ selection (_performSingleClickSelection E true
                    (_performSingleClickSelection E true st)) ↔
     y ∈ selection st).
Proof.
  intros HE.
  assert (∀ z st', z ∈ selection (_performSingleClickSelection E true st') ↔
                   (z ≠ E ∧ z ∈ selection st') ∨ (z = E ∧ E ∉ selection st')) as Hone.
  { intros z st'. rewrite selection_click_toggle by done.
    destruct (Set_has E (selection st')) eqn:Hhas.
    - apply Set_has_true in Hhas. rewrite Set_delete_elem. tauto.
    - apply Set_has_false in Hhas. rewrite elem_of_app, list_elem_of_singleton.
      destruct (decide (z = E)) as [-> | Hz]; tauto. }
  split; [apply Hone |].
  rewrite (Hone y), (Hone E), (Hone y).
  destruct (decide (y = E)) as [-> | Hy];
    destruct (decide (E ∈ selection st)); tauto.
Qed.

(** X15: a click that hits no volume empties the selection when the
    modifier is up and leaves it as it is when the modifier is down; either
    way the subscribers are notified once. *)
Theorem click_on_nothing event multi hit st :
  wf st →
  uuid_of (_getIntersectedObject_resume event hit st) st = None →
  let st' := (_onPointerUp_resume event multi hit st).1 in
  selection st' = (if multi then selection st else []) ∧
  ∃ l, triggered st' = triggered st ++ [("select", l)] ∧
       contents l st' = selection st'.
Proof.
  intros Hwf Hhit st'. subst st'. unfold _onPointerUp_resume. rewrite Hhit.
  destruct multi; cbn [negb].
  - destruct (finish_event event st Hwf) as (l & Ht & _ & Hc & Hs).
    split; [done |]. by exists l.
  - destruct (finish_event event (deselectAll st) (wf_deselectAll st Hwf))
      as (l & Ht & _ & Hc & Hs).
    split; [by rewrite Hs, selection_deselectAll |]. exists l.
    by rewrite Ht, (frame_triggered _ _ (frame_deselectAll st)).
Qed.

Lemma uuid_restyled b b' r :
  only_restyled b b' →
  entityUUID <$> BoundingBoxManager.deref r b' =
  entityUUID <$> BoundingBoxManager.deref r b.
Proof.
  intros (_ & _ & _ & Hp). specialize (Hp r).
  destruct (BoundingBoxManager.deref r b'), (BoundingBoxManager.deref r b);
    simplify_eq/=; by f_equal.
Qed.

Lemma select_empty_id st : select "" st = st.
Proof. done. Qed.

(** [selectAll] is [select] on the ids of the listed meshes, in their
    order. *)
Lemma selectAll_fold l b st :
  only_restyled b (boundingBoxManager st) →
  foldl (λ this r,
           match BoundingBoxManager.deref r (boundingBoxManager this) with
           | Some mesh =>
               if String.eqb (entityUUID mesh) "" then this
               else select (entityUUID mesh) this
           | None => this
           end) st l =
  foldl (λ this u, select u this) st (BoundingBoxManager.uuids_of l b).
Proof.
  revert st. induction l as [| r l IH]; intros st Hb; [done |].
  cbn [foldl].
  change (BoundingBoxManager.uuids_of (r :: l) b)
    with (match entityUUID <$> BoundingBoxManager.deref r b with
          | Some u => u :: BoundingBoxManager.uuids_of l b
          | None => BoundingBoxManager.uuids_of l b
          end).
  rewrite <- (uuid_restyled _ _ r Hb).
  destruct (BoundingBoxManager.deref r (boundingBoxManager st)) as [mesh |];
    cbn [fmap option_fmap option_map foldl]; [| by apply IH].
  destruct (String.eqb (entityUUID mesh) "") eqn:E.
  - apply String.eqb_eq in E. rewrite E, select_empty_id. by apply IH.
  - apply IH. eapply only_restyled_trans; [done | apply restyled_select].
Qed.

(** X16: Ctrl+A (or Cmd+A) adds the id of every listed volume to the
    selection and removes none; from an empty selection over volumes with
    distinct ids the selection is the list of their ids, so as many as
    there are volumes; the browser's default is prevented and the
    subscribers get a copy of the new selection. *)
Theorem select_all_shortcut event st :
  wf st →
  BoundingBoxManager.wf (boundingBoxManager st) →
  key event = "a" →
  k_ctrlKey event || k_metaKey event = true →
  let ids := BoundingBoxManager.uuids_of
               (BoundingBoxManager.boundingBoxMeshList (boundingBoxManager st))
               (boundingBoxManager st) in
  let st' := (_onKeyDown event st).1 in
  (_onKeyDown event st).2 = true ∧
  (∀ y, y ∈ selection st' ↔ y ∈ selection st ∨ y ∈ ids) ∧
  (selection st = [] → NoDup ids →
   selection st' = ids ∧
   length (selection st') =
     length (BoundingBoxManager.boundingBoxMeshList (boundingBoxManager st))) ∧
  ∃ l, triggered st' = triggered st ++ [("select", l)] ∧
       l ≠ selectedEntities st' ∧
       contents l st' = selection st'.
Proof.
  intros Hwf Hreg Hkey Hmod ids st'.
  assert ("" ∉ ids) as Hne.
  { intros Hin. apply list_elem_of_omap in Hin as (r & Hr & Hu).
    destruct (Hreg r Hr) as (mesh & Hm & Hid & _). rewrite Hm in Hu. by simplify_eq/=. }
  assert (length ids =
          length (BoundingBoxManager.boundingBoxMeshList (boundingBoxManager st)))
    as Hlen.
  { subst ids. unfold BoundingBoxManager.uuids_of.
    assert (∀ l : list nat,
              (∀ r, r ∈ l → is_Some (BoundingBoxManager.deref r (boundingBoxManager st))) →
              length (omap (λ r, entityUUID <$>
                                 BoundingBoxManager.deref r (boundingBoxManager st)) l)
                = length l) as Hall.
    { induction l as [| r l IH]; intros Hl; [done |].
      destruct (Hl r) as [mesh Hm]; [left |]. simpl. rewrite Hm. simpl. f_equal.
      apply IH.
      intros r' Hr'. apply Hl. by right. }
    apply Hall. intros r Hr. destruct (Hreg r Hr) as (mesh & -> & _). by eexists. }
  assert (selectAll st = foldl (λ this u, select u this) st ids) as Hall.
  { unfold selectAll. apply selectAll_fold, only_restyled_refl. }
  assert (st' = (let '(copy, this) := new_Set (selection (selectAll st)) (selectAll st) in
                 trigger "select" copy this)) as Hst'.
  { subst st'. unfold _onKeyDown. rewrite Hkey, Hmod. cbn [String.eqb Ascii.eqb andb].
    by destruct (new_Set _ _). }
  assert (wf (selectAll st)) as Hwf' by by apply wf_selectAll.
  assert (selection st' = selection (selectAll st)) as Hsel.
  { rewrite Hst'.
    pose proof (selection_new_Set (selection (selectAll st)) (selectAll st) Hwf').
    by destruct (new_Set _ _). }
  split_and!.
  - unfold _onKeyDown. rewrite Hkey, Hmod. cbn [String.eqb Ascii.eqb andb].
    by destruct (new_Set _ _).
  - intros y. rewrite Hsel, Hall, selection_select_each. split; [tauto |].
    intros [? | Hy]; [by left | right]. split; [done |]. by intros ->.
  - intros Hnil Hnd. rewrite Hsel, Hall.
    rewrite selection_select_fresh by (by rewrite ?Hnil).
    by rewrite Hnil.
  - pose proof (new_Set_fresh (selection (selectAll st)) (selectAll st) Hwf') as Hfresh.
    pose proof (contents_new_Set (selection (selectAll st)) (selectAll st)) as Hcont.
    rewrite Hsel, Hst'. destruct (new_Set _ _) as [copy st1] eqn:E.
    exists copy. unfold new_Set in E. injection E as <- <-. split_and!.
    + cbn. by rewrite (frame_triggered _ _ (frame_selectAll st)).
    + done.
    + cbn [fst snd] in Hcont. etrans; [exact Hcont | apply Set_from_NoDup, Hwf'].
Qed.
End Gestures.

Section Release.
Context `{Number} `{!WorldBox}.
Import Select.

(** X17: releasing the left button after a drag selects by the rubber
    band.  The candidates are the ids, not empty, of the listed volumes
    whose visibility flag is true (or of every listed volume, were
    [materials.default.visible] truthy on the controller) and whose world
    box the selection box contains.  Without the modifier the selection
    becomes the candidates, with the modifier they join it; with a camera
    that gives no box the selection stays.  The subscribers get a copy of
    the result in each case. *)
Theorem drag_release_selects event st :
  wf st →
  _isMouseDown st = true → _isDragging st = true → button event = 0%Z →
  let st' := (_onPointerUp event st).1 in
  match _get3DSelectionBox (_startPoint st) (local_point event st) st with
  | Some box =>
      (if ctrlKey event || metaKey event
       then ∀ y, y ∈ selection st' ↔ y ∈ selection st ∨ y ∈ entitiesInBox box st
       else selection st' = entitiesInBox box st) ∧
      (∀ y, y ∈ entitiesInBox box st ↔
            ∃ r mesh,
              r ∈ BoundingBoxManager.boundingBoxMeshList (boundingBoxManager st) ∧
              BoundingBoxManager.deref r (boundingBoxManager st) = Some mesh ∧
              entityUUID mesh = y ∧ y ≠ "" ∧
              (visible mesh = true ∨ materials_default_visible st = true) ∧
              containsBox box (setFromObject mesh) = true)
  | None => selection st' = selection st
  end ∧
  ∃ l, triggered st' = triggered st ++ [("select", l)] ∧
       l ≠ selectedEntities st' ∧
       contents l st' = selection st'.
Proof.
  intros Hwf Hdown Hdrag Hb st'.
  set (st1 := _removeSelectionBox (with_pending false false (_startPoint st) st)).
  set (multi := ctrlKey event || metaKey event).
  assert (wf st1) as Hwf1 by exact Hwf.
  assert (st' = (_onPointerUp_finish event
                   (_performBoxSelection (_startPoint st) (local_point event st)
                      multi st1)).1) as ->.
  { subst st'. unfold _onPointerUp. by rewrite Hdown, Hdrag, Hb. }
  destruct (finish_event event _ (wf_box (_startPoint st) (local_point event st)
                                     multi st1 Hwf1)) as (l & Ht & Hl & Hc & Hs).
  split.
  - rewrite Hs.
    change (_get3DSelectionBox (_startPoint st) (local_point event st) st)
      with (_get3DSelectionBox (_startPoint st) (local_point event st) st1).
    destruct (_get3DSelectionBox (_startPoint st) (local_point event st) st1)
      as [box |] eqn:Hbox.
    + destruct (box_selection_result _ _ st1 box Hwf1 Hbox) as [Hrep Hadd].
      split; [destruct multi; [exact Hadd | exact Hrep] |].
      intros y. apply entitiesInBox_elem.
    + unfold _performBoxSelection. by rewrite Hbox.
  - exists l. split_and!; [| done | done].
    rewrite Ht. by rewrite (frame_triggered _ _ (frame_box _ _ multi st1)).
Qed.

Lemma hit_restyled event hit st st' :
  only_restyled (boundingBoxManager st) (boundingBoxManager st') →
  uuid_of (_getIntersectedObject_resume event hit st') st' =
  uuid_of (_getIntersectedObject_resume event hit st) st.
Proof.
  intros Hb. unfold uuid_of, _getIntersectedObject_resume.
  destruct (target event); [| done]. destruct hit as [r |]; [| done].
  pose proof (uuid_restyled _ _ r Hb) as Hu. destruct Hb as (Hm & _).
  simpl. rewrite Hm.
  destruct (BoundingBoxManager.deref r (boundingBoxManager st')) as [m' |] eqn:E';
    destruct (BoundingBoxManager.deref r (boundingBoxManager st)) as [m |] eqn:E;
    simpl in Hu; try done. injection Hu as Hu.
  simpl. rewrite Hu. destruct (bool_decide _); simpl; [| done].
  rewrite E', E. simpl. by rewrite Hu.
Qed.
End Release.

Section Settling.
Context `{Number} `{!WorldBox}.
Import Select.

(** X18: after a hover update the hovered id is the id of the volume under
    the pointer, or undefined when there is none, and the same ray-cast
    result applied once more changes nothing. *)
Theorem hover_update_settles event hit st :
  let st' := _updateHover_resume event hit st in
  hovered_eq (hoveredEntityUUID st')
    (uuid_of (_getIntersectedObject_resume event hit st) st) = true ∧
  _updateHover_resume event hit st' = st'.
Proof.
  intros st'.
  assert (hovered_eq (hoveredEntityUUID st')
            (uuid_of (_getIntersectedObject_resume event hit st) st) = true) as Hset.
  { subst st'. rewrite hover_resume_changed.
    destruct (hovered_eq (hoveredEntityUUID st) _) eqn:E; [done |].
    cbn [hoveredEntityUUID with_manager with_hovered].
    destruct (uuid_of _ st) as [u |]; [apply String.eqb_refl | done]. }
  split; [done |].
  rewrite <- (hit_restyled event hit st st') in Hset by apply restyled_hover.
  unfold _updateHover_resume at 1. by rewrite Hset.
Qed.

(** X19: [dispose] empties the selection, sets the hovered id to null and
    removes the rubber band, without restyling a volume and without
    notifying the subscribers; afterwards no pointer or key event changes
    anything. *)
Theorem disposed_controller_is_inert st aw inputs :
  (∀ i, i ∈ inputs → dom_event i = true) →
  let w := {| controller := dispose st; awaiting := aw |} in
  selection (dispose st) = [] ∧
  hoveredEntityUUID (dispose st) = js_null ∧
  _selectionBoxElement (dispose st) = None ∧
  boundingBoxManager (dispose st) = boundingBoxManager st ∧
  triggered (dispose st) = triggered st ∧
  run inputs w = w.
Proof.
  intros Hdom w. split_and!; try done.
  - unfold dispose, selection, contents, mutate. simpl. by rewrite lookup_insert_eq.
  - induction inputs as [| i inputs IH]; [done |]. cbn [run foldl].
    assert (step i w = w) as ->.
    { unfold step, heard. rewrite (Hdom i) by left. done. }
    apply IH. intros j Hj. apply Hdom. by right.
Qed.
End Settling.

(** ** Layers and volumes *)

Section Layers.
Context `{Number}.
Import DxfViewer.

Lemma hides_refl b : hides b b.
Proof.
  split; [apply only_restyled_refl |]. intros r mesh' Hm. exists mesh'. auto.
Qed.

Lemma hides_trans b1 b2 b3 : hides b1 b2 → hides b2 b3 → hides b1 b3.
Proof.
  intros [Hr Hv] [Hr' Hv']. split; [by eapply only_restyled_trans |].
  intros r m3 H3. destruct (Hv' r m3 H3) as (m2 & H2 & Hmat' & Hvis').
  destruct (Hv r m2 H2) as (m1 & H1 & Hmat & Hvis).
  exists m1. split_and!; [done | congruence |].
  destruct Hvis' as [-> | ->]; [done | by right].
Qed.

Lemma set_visible_deref r v b r' :
  BoundingBoxManager.deref r' (set_visible r v b) =
    if decide (r' = r)
    then (λ mesh, {| mesh_name := mesh_name mesh; material := material mesh;
                     visible := v; scale := scale mesh;
                     rotation_z := rotation_z mesh; position := position mesh;
                     entityUUID := entityUUID mesh |})
           <$> BoundingBoxManager.deref r b
    else BoundingBoxManager.deref r' b.
Proof.
  unfold BoundingBoxManager.deref, set_visible. cbn [BoundingBoxManager.heap].
  destruct (decide (r' = r)) as [-> | Hne];
    [by rewrite lookup_alter_eq | by rewrite lookup_alter_ne].
Qed.

Lemma hides_set_visible r b : hides b (set_visible r false b).
Proof.
  split.
  - unfold only_restyled. split_and!; try done. intros r'.
    rewrite set_visible_deref. destruct (decide (r' = r)) as [-> | Hne]; [| done].
    by destruct (BoundingBoxManager.deref r b).
  - intros r' mesh'. rewrite set_visible_deref.
    destruct (decide (r' = r)) as [-> | Hne]; [| by exists mesh'; auto].
    destruct (BoundingBoxManager.deref r b) as [mesh |]; [| done].
    intros [= <-]. exists mesh. auto.
Qed.

Lemma show_volume_cases show b obj :
  show_volume show b obj = b ∨
  ∃ id r, obj_entityUUID obj = Some id ∧
          BoundingBoxManager.getMesh id b = Some r ∧
          show_volume show b obj = set_visible r false b.
Proof.
  unfold show_volume. destruct (obj_entityUUID obj) as [id |]; [| by left].
  simpl. destruct (BoundingBoxManager.getMesh id b) as [r |] eqn:Hr; [| by left].
  right. exists id, r. by rewrite andb_false_r.
Qed.

Lemma hides_show_volume show b obj : hides b (show_volume show b obj).
Proof.
  destruct (show_volume_cases show b obj) as [-> | (id & r & _ & _ & ->)];
    [apply hides_refl | apply hides_set_visible].
Qed.

Lemma hides_show_volumes show objs b : hides b (foldl (show_volume show) b objs).
Proof.
  revert b. induction objs as [| obj objs IH]; intros b; [apply hides_refl |].
  cbn [foldl]. eapply hides_trans; [apply hides_show_volume | apply IH].
Qed.

Lemma hides_keeps_hidden b b' r :
  hides b b' →
  (∀ mesh, BoundingBoxManager.deref r b = Some mesh → visible mesh = false) →
  ∀ mesh', BoundingBoxManager.deref r b' = Some mesh' → visible mesh' = false.
Proof.
  intros [_ Hv] Hb mesh' Hm'. destruct (Hv r mesh' Hm') as (mesh & Hm & _ & Hvis).
  destruct Hvis as [-> | ->]; [by apply Hb | done].
Qed.

Lemma show_volumes_hidden show objs b obj id r :
  obj ∈ objs → obj_entityUUID obj = Some id →
  BoundingBoxManager.getMesh id b = Some r →
  ∀ mesh', BoundingBoxManager.deref r (foldl (show_volume show) b objs) = Some mesh' →
           visible mesh' = false.
Proof.
  revert b. induction objs as [| o objs IH]; intros b Hin Hid Hr.
  - by apply elem_of_nil in Hin.
  - cbn [foldl]. apply elem_of_cons in Hin as [<- | Hin].
    + apply (hides_keeps_hidden (show_volume show b obj)); [apply hides_show_volumes |].
      unfold show_volume. rewrite Hid. simpl. rewrite Hr.
      intros mesh. rewrite set_visible_deref, decide_True by done.
      destruct (BoundingBoxManager.deref r b); [| done].
      rewrite andb_false_r. by intros [= <-].
    + apply IH; [done | done |].
      destruct (hides_show_volume show b o) as [(Hm & _) _].
      unfold BoundingBoxManager.getMesh in *. by rewrite Hm.
Qed.

(** X20: [ShowLayer] never shows a volume.  Of the manager it changes only
    visibility flags, and only to false: a volume whose id an object of the
    layer carries is hidden afterwards, also when the layer is shown and
    the id is selected; a layer whose objects carry no id, as those made
    by the batches do, and an unknown layer leave every volume as it is. *)
Theorem show_layer_never_shows_a_volume name show layers b :
  ∃ b', (ShowLayer name show layers (Some b)).2 = Some b' ∧
        hides b b' ∧
        (∀ layer obj id r mesh',
           layers !! name = Some layer → obj ∈ objects layer →
           obj_entityUUID obj = Some id →
           BoundingBoxManager.getMesh id b = Some r →
           BoundingBoxManager.deref r b' = Some mesh' →
           visible mesh' = false) ∧
        (∀ layer,
           layers !! name = Some layer →
           (∀ obj, obj ∈ objects layer → obj_entityUUID obj = None) →
           b' = b) ∧
        (layers !! name = None → b' = b).
Proof.
  unfold ShowLayer. destruct (layers !! name) as [layer |] eqn:Hl.
  - exists (foldl (show_volume show) b (objects layer)). split_and!.
    + done.
    + apply hides_show_volumes.
    + intros layer' obj id r mesh' [= <-] Hin Hid Hr.
      by apply (show_volumes_hidden show (objects layer) b obj id r).
    + intros layer' [= <-] Hnone. revert Hnone.
      generalize (objects layer). intros objs.
      induction objs as [| o objs IH]; intros Hnone; [done |]. cbn [foldl].
      assert (show_volume show b o = b) as ->.
      { unfold show_volume. rewrite (Hnone o) by left. done. }
      apply IH. intros obj Hobj. apply Hnone. by right.
    + done.
  - exists b. split_and!; [done | apply hides_refl | done | done | done].
Qed.
End Layers.

(** ** From the document to the highlight *)

Section EndToEnd.
Context `{Number} `{!WorldBox}.
Import Select.

Lemma styled_rendered st u r mesh :
  styled st →
  BoundingBoxManager.getMesh u (boundingBoxManager st) = Some r →
  BoundingBoxManager.deref r (boundingBoxManager st) = Some mesh →
  rendered mesh = (isSelected u st || hovered_is (hoveredEntityUUID st) u).
Proof.
  intros Hst Hu Hm. destruct (Hst u r mesh Hu Hm) as [Hmat Hvis].
  unfold rendered. revert Hvis. rewrite Hmat. unfold expected_material.
  destruct (isSelected u st); [intros ->; done |].
  destruct (hovered_is _ u); [intros ->; done |].
  intros _. simpl. apply andb_false_r.
Qed.

(** On a manager with one volume per id, a controller keeps the styles in
    step with the selection, and selects registered ids only. *)
Lemma highlights_run b st0 inputs aw :
  registry_tidy b →
  wf st0 → registry_consistent (boundingBoxManager st0) → styled st0 →
  only_restyled b (boundingBoxManager st0) →
  (∀ u, u ∈ selection st0 → is_Some (BoundingBoxManager.meshMap b !! u)) →
  Call_dispose ∉ inputs →
  (∀ u, Call_select u ∈ inputs → is_Some (BoundingBoxManager.meshMap b !! u)) →
  let st := controller (run inputs {| controller := st0; awaiting := aw |}) in
  wf st ∧ registry_consistent (boundingBoxManager st) ∧ styled st ∧
  only_restyled b (boundingBoxManager st) ∧
  ∀ u, u ∈ selection st → is_Some (BoundingBoxManager.meshMap b !! u).
Proof.
  intros Ht Hwf Hc Hs Hr Hsel Hnd Hcalls st. subst st.
  apply (keeps_run
           (λ st, wf st ∧ registry_consistent (boundingBoxManager st) ∧ styled st ∧
                  only_restyled b (boundingBoxManager st) ∧
                  ∀ u, u ∈ selection st → is_Some (BoundingBoxManager.meshMap b !! u))
           (λ u, is_Some (BoundingBoxManager.meshMap b !! u))); try done.
  - intros u st Hu (? & ? & ? & ? & Hsel'). split_and!.
    + by apply wf_select.
    + by apply consistent_select.
    + by apply styled_select.
    + eapply only_restyled_trans; [done | apply restyled_select].
    + intros v. rewrite selection_select. destruct (_ || _); [apply Hsel' |].
      intros [Hv | ->%list_elem_of_singleton]%elem_of_app; [by apply Hsel' | done].
  - intros u st (? & ? & ? & ? & Hsel'). split_and!.
    + by apply wf_deselect.
    + by apply consistent_deselect.
    + by apply styled_deselect.
    + eapply only_restyled_trans; [done | apply restyled_deselect].
    + intros v. rewrite selection_deselect. destruct (String.eqb u ""); [apply Hsel' |].
      intros [_ Hv]%Set_delete_elem. by apply Hsel'.
  - intros event hit st (? & ? & ? & ? & Hsel'). split_and!.
    + by apply wf_hover_resume.
    + by apply consistent_hover.
    + by apply styled_hover.
    + eapply only_restyled_trans; [done | apply restyled_hover].
    + by rewrite selection_hover.
  - intros xs st (Hwf' & Hc' & Hs' & Hr' & Hsel').
    pose proof (selection_new_Set xs st Hwf') as Hsame.
    split_and!; [| done | | done |].
    + pose proof (wf_new_Set xs st Hwf'). by destruct (new_Set xs st).
    + unfold styled. apply (styled_by_ext (λ u, expected_material u st)); [| done].
      intros v _. unfold expected_material, isSelected.
      change (selection (trigger "select" (new_Set xs st).1 (new_Set xs st).2))
        with (selection (new_Set xs st).2).
      by rewrite Hsame.
    + change (selection (trigger "select" (new_Set xs st).1 (new_Set xs st).2))
        with (selection (new_Set xs st).2).
      by rewrite Hsame.
  - intros event hit st u (_ & _ & _ & (Hm & _) & _) _ Hhit. rewrite <- Hm.
    by apply (hit_registered event hit).
  - intros st r mesh (_ & _ & _ & Hr' & _) Hin Hmesh _.
    pose proof (uuid_restyled _ _ r Hr') as Hu. destruct Hr' as (_ & Hl & _).
    rewrite Hl in Hin. destruct Ht as (_ & _ & Hlisted & _).
    destruct (Hlisted r Hin) as (mesh0 & Hm0 & _ & Hk).
    rewrite Hmesh, Hm0 in Hu. injection Hu as ->. by eexists.
Qed.

(** X21: from the document to the screen.  After a document whose INSERT
    entities have distinct handles, none empty, is loaded and a controller
    is set on the manager, then along every run without [dispose] in which
    the host calls [select] on loaded ids only: every selected id is the
    handle of an INSERT whose block has bounds, and a volume of the scene
    is rendered exactly when the handle it stands for is selected or
    hovered. *)
Theorem loaded_volumes_follow_selection blocks dxf_entities o gen c cam inputs :
  NoDup (DxfViewer.handle <$> DxfViewer._collectBlockEntities dxf_entities) →
  "" ∉ DxfViewer.handle <$> DxfViewer._collectBlockEntities dxf_entities →
  Call_dispose ∉ inputs →
  (∀ u, Call_select u ∈ inputs →
        u ∈ DxfViewer.handle
              <$> DxfViewer.with_bounds (DxfViewer._calculateBlockDefinitionBounds blocks)
                    (DxfViewer._collectBlockEntities dxf_entities)) →
  ∃ b, DxfViewer.boundingBoxManager
         (DxfViewer.load_volumes blocks dxf_entities (Some o) gen) = Some b ∧
       let st := controller (run inputs (start c cam b)) in
       (∀ u, u ∈ selection st →
             u ∈ DxfViewer.handle
                   <$> DxfViewer.with_bounds
                         (DxfViewer._calculateBlockDefinitionBounds blocks)
                         (DxfViewer._collectBlockEntities dxf_entities)) ∧
       (∀ r mesh,
          r ∈ BoundingBoxManager.scene (boundingBoxManager st) →
          BoundingBoxManager.deref r (boundingBoxManager st) = Some mesh →
          entityUUID mesh ∈ DxfViewer.handle
                              <$> DxfViewer.with_bounds
                                    (DxfViewer._calculateBlockDefinitionBounds blocks)
                                    (DxfViewer._collectBlockEntities dxf_entities) ∧
          rendered mesh =
            (isSelected (entityUUID mesh) st
             || hovered_is (hoveredEntityUUID st) (entityUUID mesh))).
Proof.
  intros Hnd Hne Hdis Hcalls.
  destruct (load_volumes_registry blocks dxf_entities o gen Hnd Hne)
    as (b & Hb & Ht & Hc & Hp & _ & Hdom).
  exists b. split; [done |]. intros st.
  destruct (highlights_run b (new c cam b) inputs [] Ht (wf_new c cam b) Hc
              (styled_new c cam b Hp) (only_restyled_refl b))
    as (_ & _ & Hst & Hr & Hsel); [| done | |].
  { intros u Hu. by apply elem_of_nil in Hu. }
  { intros u Hu. apply Hdom. by apply Hcalls. }
  fold (start c cam b) in Hst, Hr, Hsel. fold st in Hst, Hr, Hsel. split.
  - intros u Hu. apply Hdom. by apply Hsel.
  - intros r mesh Hin Hmesh.
    pose proof (uuid_restyled _ _ r Hr) as Hu. destruct Hr as (Hm & _ & Hscene & _).
    rewrite Hscene in Hin. pose proof Ht as (Hsl & _ & Hlisted & _).
    rewrite Hsl in Hin. destruct (Hlisted r Hin) as (mesh0 & Hm0 & _ & Hk).
    rewrite Hmesh, Hm0 in Hu. injection Hu as Hu. rewrite <- Hu in Hk. split.
    + apply Hdom. by eexists.
    + apply (styled_rendered st (entityUUID mesh) r mesh Hst); [| done].
      unfold BoundingBoxManager.getMesh. by rewrite Hm.
Qed.
End EndToEnd.

(** ** The further properties on the scene and on the drawing *)

Section MoreScenes.
Import Scene.
#[local] Existing Instance QNumber.
#[local] Existing Instance QWorldBox.



Lemma tidy_abc : registry_tidy abc.
Proof.
  unfold abc, register.
  apply tidy_createBoundingBox; [| discriminate | by vm_compute].
  apply tidy_createBoundingBox; [| discriminate | by vm_compute].
  apply tidy_createBoundingBox; [| discriminate | by vm_compute].
  apply tidy_new.
Qed.

(** On the scene: A, registered first, is found under its id at handle 0. *)
Lemma createBoundingBox_lookup_witness :
  BoundingBoxManager.getMesh "A" (register "A" 0 0 BoundingBoxManager.new) = Some 0.
Proof.
  assert ((BoundingBoxManager.createBoundingBox (Some (entity "A" 0 0))
             (Some (bounds 2 2)) BoundingBoxManager.new).1 = Some 0) as Hreg
    by (vm_compute; reflexivity).
  pose proof (createBoundingBox_lookup (Some (entity "A" 0 0)) (Some (bounds 2 2))
                BoundingBoxManager.new 0 registry_wf_new Hreg) as Hc.
  cbv zeta in Hc. destruct Hc as (e & He & Hg & _). injection He as <-. exact Hg.
Defined.

(** On the scene: disposing the manager of A, B and C empties the scene. *)
Lemma dispose_removes_all_volumes_witness :
  BoundingBoxManager.scene (BoundingBoxManager.dispose abc) = [].
Proof. exact (dispose_removes_all_volumes abc tidy_abc). Defined.

(** On the drawing: the door gets a volume under its handle, the marker
    and the line get none. *)
Lemma setup_registers_inserts_witness :
  ∃ b', DxfViewer.boundingBoxManager
          (DxfViewer._setupAllBoundingBoxMeshes Drawing.before_setup) = Some b' ∧
        BoundingBoxManager.uuids_of (BoundingBoxManager.boundingBoxMeshList b') b'
          = ["1A"].
Proof.
  assert (∀ entity,
            entity ∈ DxfViewer.with_bounds
                       (DxfViewer.blockBoundingBoxMap Drawing.before_setup)
                       (DxfViewer.allBlockEntity Drawing.before_setup) →
            DxfViewer.handle entity ≠ "") as Hh.
  { intros entity Hin. vm_compute in Hin.
    apply list_elem_of_singleton in Hin. by subst entity. }
  pose proof (setup_registers_inserts Drawing.before_setup BoundingBoxManager.new
                (0%Q, 0%Q) eq_refl eq_refl registry_wf_new Hh) as Hc.
  destruct Hc as (b' & Hb' & _ & Hids & _). exists b'. split; [exact Hb' |].
  rewrite Hids. vm_compute. reflexivity.
Defined.

(** On the drawing: loading gives one volume, the door's. *)
Lemma load_one_volume_per_insert_witness :
  ∃ b', DxfViewer.boundingBoxManager
          (DxfViewer.load_volumes (Some Drawing.blocks) (Some Drawing.dxf_entities)
             (Some (0%Q, 0%Q)) (λ _, "generated")) = Some b' ∧
        registry_tidy b' ∧
        BoundingBoxManager.uuids_of (BoundingBoxManager.boundingBoxMeshList b') b'
          = ["1A"].
Proof.
  assert (DxfViewer.handle <$> DxfViewer._collectBlockEntities (Some Drawing.dxf_entities)
          = ["1A"; "1B"]) as Hhandles by (vm_compute; reflexivity).
  assert (NoDup (DxfViewer.handle
                   <$> DxfViewer._collectBlockEntities (Some Drawing.dxf_entities)))
    as Hnd.
  { rewrite Hhandles. apply NoDup_cons. split; [| apply NoDup_singleton].
    intros Hin. apply list_elem_of_singleton in Hin. discriminate. }
  assert ("" ∉ DxfViewer.handle
                 <$> DxfViewer._collectBlockEntities (Some Drawing.dxf_entities))
    as Hne.
  { rewrite Hhandles. intros Hin.
    apply elem_of_cons in Hin as [Hin | Hin]; [discriminate |].
    apply list_elem_of_singleton in Hin. discriminate. }
  pose proof (load_one_volume_per_insert (Some Drawing.blocks)
                (Some Drawing.dxf_entities) (Some (0%Q, 0%Q)) (λ _, "generated")
                Hnd Hne) as Hc.
  destruct Hc as (b' & Hb' & Htidy & _ & _ & Hids & _). exists b'.
  split; [exact Hb' |]. split; [exact Htidy |]. rewrite Hids. vm_compute. reflexivity.
Defined.

(** On the scene: after the pointer has come to rest on A, the hovered id
    is registered. *)
Lemma hovered_id_is_registered_witness :
  hovered_registered
    (Select.controller
       (Select.run [Select.PointerMove (at_ 100 100 false);
                    Select.Resolve 0 (Some hA)] w0)).
Proof.
  assert (hovered_registered (Select.controller w0)) as H0 by exact I.
  exact (hovered_id_is_registered
           [Select.PointerMove (at_ 100 100 false); Select.Resolve 0 (Some hA)] w0 H0).
Defined.


(** On the scene: the set sent after the click on A still holds A after B
    has been selected and the controller disposed of. *)
Lemma snapshot_is_kept_witness :
  Select.sets
    (Select.controller
       (Select.run [Select.Call_select "B"; Select.Call_dispose]
          (Select.step (Select.Resolve 0 (Some hA)) click_waiting))) !! 1
  = Some ["A"].
Proof.
  assert (1 ≠ Select.selectedEntities
                (Select.controller (Select.step (Select.Resolve 0 (Some hA))
                                      click_waiting))) as Hl
    by (vm_compute; discriminate).
  assert (Select.selectedEntities
            (Select.controller (Select.step (Select.Resolve 0 (Some hA)) click_waiting))
          ∈ dom (Select.sets
                   (Select.controller (Select.step (Select.Resolve 0 (Some hA))
                                         click_waiting)))) as Hd.
  { apply elem_of_dom. exists ["A"]. vm_compute. reflexivity. }
  assert (Select.sets
            (Select.controller (Select.step (Select.Resolve 0 (Some hA)) click_waiting))
            !! 1 = Some ["A"]) as Hc by (vm_compute; reflexivity).
  exact (snapshot_is_kept [Select.Call_select "B"; Select.Call_dispose]
           (Select.step (Select.Resolve 0 (Some hA)) click_waiting) 1 ["A"] Hl Hd Hc).
Defined.

(** On the scene: [select] of A and then Ctrl+A leave registered ids only. *)
Lemma input_selects_registered_ids_witness :
  selection_registered
    (Select.controller
       (Select.run [Select.Call_select "A"; Select.Call_selectAll] w0)).
Proof.
  assert (selection_registered (Select.controller w0)) as Hsel.
  { intros u Hu. vm_compute in Hu. by apply elem_of_nil in Hu. }
  assert (∀ u, Select.Call_select u ∈ [Select.Call_select "A"; Select.Call_selectAll] →
               is_Some (BoundingBoxManager.getMesh u
                          (Select.boundingBoxManager (Select.controller w0)))) as Hcalls.
  { intros u Hu. apply elem_of_cons in Hu as [Hu | Hu].
    - injection Hu as ->. exists hA. vm_compute. reflexivity.
    - apply list_elem_of_singleton in Hu. discriminate. }
  exact (input_selects_registered_ids
           [Select.Call_select "A"; Select.Call_selectAll] w0
           (wf_new canvas ortho abc) registry_wf_abc Hsel Hcalls).
Defined.

(** On the scene: while the rubber band is drawn the button is held, and
    its release leaves nothing pending. *)
Lemma rubber_band_only_while_pressed_witness :
  pointer_state
    (Select.controller
       (Select.step (Select.PointerUp (at_ 150 65 false))
          (Select.run [Select.PointerDown (at_ 90 110 false);
                       Select.PointerMove (at_ 120 90 false)] w0)))
  = (false, false, None).
Proof.
  assert (pressed_while_dragging (Select.controller w0)) as H0.
  { intros [Hdrag | Hbox]; [vm_compute in Hdrag; discriminate | by vm_compute in Hbox]. }
  pose proof (rubber_band_only_while_pressed
                [Select.PointerDown (at_ 90 110 false);
                 Select.PointerMove (at_ 120 90 false)] w0 H0) as [_ Hup].
  apply Hup; vm_compute; reflexivity.
Defined.

(** On the scene: a Ctrl-click on A selects it, a second one deselects it. *)
Lemma modifier_click_toggles_witness :
  ("A" ∈ Select.selection (Select._performSingleClickSelection "A" true st0) ↔
     ("A" ≠ "A" ∧ "A" ∈ Select.selection st0) ∨
     ("A" = "A" ∧ "A" ∉ Select.selection st0)) ∧
  ("A" ∈ Select.selection
           (Select._performSingleClickSelection "A" true
              (Select._performSingleClickSelection "A" true st0)) ↔
     "A" ∈ Select.selection st0).
Proof.
  assert ("A" ≠ "") as Hne by discriminate.
  exact (modifier_click_toggles "A" st0 "A" Hne).
Defined.

(** On the scene: a click beside the entities empties the selection {A}. *)
Lemma click_on_nothing_witness :
  Select.selection
    (Select._onPointerUp_resume (at_ 5 5 false) false None stA).1 = [].
Proof.
  assert (Select.uuid_of
            (Select._getIntersectedObject_resume (at_ 5 5 false) None stA) stA = None)
    as Hhit by (vm_compute; reflexivity).
  pose proof (click_on_nothing (at_ 5 5 false) false None stA
                (wf_select "A" st0 (wf_new canvas ortho abc)) Hhit) as Hc.
  cbv zeta in Hc. destruct Hc as [Hsel _]. exact Hsel.
Defined.

(** On the scene: Ctrl+A from the empty selection selects A, B and C. *)
Lemma select_all_shortcut_witness :
  Select.selection (Select._onKeyDown (key_ "a" true) st0).1 = ["A"; "B"; "C"] ∧
  (Select._onKeyDown (key_ "a" true) st0).2 = true.
Proof.
  pose proof (select_all_shortcut (key_ "a" true) st0 (wf_new canvas ortho abc)
                registry_wf_abc eq_refl eq_refl) as Hc.
  cbv zeta in Hc. destruct Hc as (Hprevent & _ & Hall & _).
  split; [| exact Hprevent].
  assert (BoundingBoxManager.uuids_of
            (BoundingBoxManager.boundingBoxMeshList (Select.boundingBoxManager st0))
            (Select.boundingBoxManager st0) = ["A"; "B"; "C"]) as Hids
    by (vm_compute; reflexivity).
  rewrite Hids in Hall. destruct Hall as [Hsel _]; [by vm_compute | | exact Hsel].
  apply NoDup_cons. split.
  { intros Hin. apply elem_of_cons in Hin as [Hin | Hin]; [discriminate |].
    apply list_elem_of_singleton in Hin. discriminate. }
  apply NoDup_cons. split; [| apply NoDup_singleton].
  intros Hin. apply list_elem_of_singleton in Hin. discriminate.
Defined.

(** On the scene: A has been selected and deselected, which leaves its
    visibility flag false; the release that ends the rubber band around A
    and C then selects C alone, and notifies the subscribers once. *)
Lemma drag_release_selects_witness :
  Select.selection
    (Select._onPointerUp (at_ 150 65 false)
       (Select.controller
          (Select.run [Select.Call_select "A"; Select.Call_deselect "A";
                       Select.PointerDown (at_ 90 110 false);
                       Select.PointerMove (at_ 120 90 false)] w0))).1 = ["C"] ∧
  ∃ l,
    Select.triggered
      (Select._onPointerUp (at_ 150 65 false)
         (Select.controller
            (Select.run [Select.Call_select "A"; Select.Call_deselect "A";
                         Select.PointerDown (at_ 90 110 false);
                         Select.PointerMove (at_ 120 90 false)] w0))).1
    = Select.triggered
        (Select.controller
           (Select.run [Select.Call_select "A"; Select.Call_deselect "A";
                        Select.PointerDown (at_ 90 110 false);
                        Select.PointerMove (at_ 120 90 false)] w0))
      ++ [("select", l)].
Proof.
  set (st := Select.controller
               (Select.run [Select.Call_select "A"; Select.Call_deselect "A";
                            Select.PointerDown (at_ 90 110 false);
                            Select.PointerMove (at_ 120 90 false)] w0)).
  assert (Select.wf st) as Hwf by exact (wf_run _ w0 (wf_new canvas ortho abc)).
  assert (Select._isMouseDown st = true) as Hd by (vm_compute; reflexivity).
  assert (Select._isDragging st = true) as Hg by (vm_compute; reflexivity).
  assert (Select.button (at_ 150 65 false) = 0%Z) as Hb by reflexivity.
  pose proof (drag_release_selects (at_ 150 65 false) st Hwf Hd Hg Hb) as Hc.
  cbv zeta in Hc. destruct Hc as (Hsel & l & Ht & _). split; [| exists l; exact Ht].
  remember (Select._get3DSelectionBox (Select._startPoint st)
              (Select.local_point (at_ 150 65 false) st) st)
    as selectionBox3D eqn:Hbox in Hsel.
  vm_compute in Hbox. destruct selectionBox3D as [box |]; [| discriminate Hbox].
  injection Hbox as ->. destruct Hsel as [Hsel _].
  etrans; [exact Hsel |]. vm_compute. reflexivity.
Defined.

(** On the scene: a disposed controller ignores a press of the button. *)
Lemma disposed_controller_is_inert_witness :
  Select.run [Select.PointerDown (at_ 100 100 false)]
    {| Select.controller := Select.dispose stA; Select.awaiting := [] |}
  = {| Select.controller := Select.dispose stA; Select.awaiting := [] |}.
Proof.
  assert (∀ i, i ∈ [Select.PointerDown (at_ 100 100 false)] →
               Select.dom_event i = true) as Hdom.
  { intros i Hi. apply list_elem_of_singleton in Hi. by subst i. }
  pose proof (disposed_controller_is_inert stA [] _ Hdom) as Hc.
  cbv zeta in Hc. destruct Hc as (_ & _ & _ & _ & _ & Hrun). exact Hrun.
Defined.

(** On the drawing: after [select] of the door, whatever is selected is the
    handle of an INSERT with bounds. *)
Lemma loaded_volumes_follow_selection_witness :
  ∃ b, DxfViewer.boundingBoxManager
         (DxfViewer.load_volumes (Some Drawing.blocks) (Some Drawing.dxf_entities)
            (Some (0%Q, 0%Q)) (λ _, "generated")) = Some b ∧
       ∀ u, u ∈ Select.selection
                  (Select.controller
                     (Select.run [Select.Call_select "1A"] (Select.start canvas ortho b))) →
            u ∈ DxfViewer.handle
                  <$> DxfViewer.with_bounds
                        (DxfViewer._calculateBlockDefinitionBounds (Some Drawing.blocks))
                        (DxfViewer._collectBlockEntities (Some Drawing.dxf_entities)).
Proof.
  assert (DxfViewer.handle <$> DxfViewer._collectBlockEntities (Some Drawing.dxf_entities)
          = ["1A"; "1B"]) as Hhandles by (vm_compute; reflexivity).
  assert (NoDup (DxfViewer.handle
                   <$> DxfViewer._collectBlockEntities (Some Drawing.dxf_entities)))
    as Hnd.
  { rewrite Hhandles. apply NoDup_cons. split; [| apply NoDup_singleton].
    intros Hin. apply list_elem_of_singleton in Hin. discriminate. }
  assert ("" ∉ DxfViewer.handle
                 <$> DxfViewer._collectBlockEntities (Some Drawing.dxf_entities))
    as Hne.
  { rewrite Hhandles. intros Hin.
    apply elem_of_cons in Hin as [Hin | Hin]; [discriminate |].
    apply list_elem_of_singleton in Hin. discriminate. }
  assert (Select.Call_dispose ∉ [Select.Call_select "1A"]) as Hdis.
  { intros Hin. apply list_elem_of_singleton in Hin. discriminate. }
  assert (∀ u, Select.Call_select u ∈ [Select.Call_select "1A"] →
               u ∈ DxfViewer.handle
                     <$> DxfViewer.with_bounds
                           (DxfViewer._calculateBlockDefinitionBounds (Some Drawing.blocks))
                           (DxfViewer._collectBlockEntities (Some Drawing.dxf_entities)))
    as Hcalls.
  { intros u Hu. apply list_elem_of_singleton in Hu. injection Hu as ->.
    vm_compute. left. }
  pose proof (loaded_volumes_follow_selection (Some Drawing.blocks)
                (Some Drawing.dxf_entities) (0%Q, 0%Q) (λ _, "generated")
                canvas ortho [Select.Call_select "1A"] Hnd Hne Hdis Hcalls) as Hc.
  cbv zeta in Hc. destruct Hc as (b & Hb & Hsel & _). exists b. split; [exact Hb |].
  exact Hsel.
Defined.
End MoreScenes.
